(** * blackroad-websocket-manager: the connection tracker of [main_module.py]

    A shallow embedding of the connection pool, the messaging operations,
    the heartbeat sweep, the two reports and the command line, together
    with the SQLite tables they write through to, followed by the
    properties the specification states about them and by further
    properties of the code.

    Conventions of the embedding.
    - A Python [int] is a [Z]; [Optional[T]] is [option T].  A [str] is a
      [string] holding its UTF-8 encoding: equality and the order of
      SQLite's TEXT values are those of the bytes, while [len], slices and
      format widths count characters ([str_len], [str_take]).
    - A function that can end in an exception returns a [result]: [Ok] with
      its value or [Raise] with the exception, next to the state it leaves.
      The exceptions are those of the values the types admit: an integer
      SQLite cannot bind, a time outside the range of [datetime], a
      comparison of an offset-aware with a naive [datetime], a [d] format
      applied to a float, a text that is not JSON.
    - A naive [datetime] is the number of microseconds since
      0001-01-01T00:00:00, between [0] and [max_datetime]; every timestamp
      the program writes is naive ([utcnow().isoformat()],
      [datetime('now')]).  [timedelta(seconds=n)] is [n * 1000000].
    - A number SQLite stores in an INTEGER column is a signed 64-bit
      integer; [message_count + 1] at [2**63 - 1] gives the REAL [2.0**63],
      the one float the program meets ([counter]).
    - The three tables are lists of rows in rowid order; [sqlite_sequence]
      is the triple of AUTOINCREMENT counters.  A statement that has run
      shows in the tables: they are the store as the connection sees it.
      Every function commits before it returns; what stays uncommitted
      when an exception leaves [update_heartbeat] is said there.
    - [self._pool] is an insertion-ordered dictionary from [ws_id] to a
      [Connection] object.  Objects live on a heap and the dictionary holds
      references, since [add] stores the caller's object and later calls
      mutate it in place.
    - What an operation reads from its environment (the clock of the
      interpreter, the clock of SQLite, [uuid.uuid4()]) is an argument of
      the operation.  [uuid4] values are taken as fresh, so the UNIQUE
      constraint on [messages.msg_id] never fires and is not represented.
    - [json.dumps], [json.loads] and [datetime.fromisoformat] belong to the
      standard library of Python; the development is parametric in them.
    - [main] starts from the namespace [argparse] returns; what it prints
      is the list of the texts of its [print] calls, by stream.  A [str]
      is the sequence of its characters, so [s[:n]] takes [n] of them. *)

From stdpp Require Import base tactics option list gmap strings numbers sorting pretty.
From Stdlib Require Import ZArith Lia.
From Stdlib Require Ascii String.

Declare Scope char_scope.
Delimit Scope char_scope with char.
String Notation Ascii.ascii Ascii.ascii_of_byte Ascii.byte_of_ascii : char_scope.

Local Open Scope Z_scope.

#[local] Set Warnings "-register-all".

(** ** Values *)

(** The JSON-representable values: what [metadata] holds and what a message
    payload ([Any]) may be. *)
Inductive json : Type :=
  | JNull
  | JBool (b : bool)
  | JInt (n : Z)
  | JStr (s : string)
  | JList (l : list json)
  | JDict (d : list (string * json)).

(** Truth value of a Python object, as [metadata or {}] tests it. *)
Definition truthy (j : json) : bool :=
  match j with
  | JNull => false
  | JBool b => b
  | JInt n => bool_decide (n ≠ 0)
  | JStr s => bool_decide (s ≠ "")
  | JList l => bool_decide (l ≠ [])
  | JDict d => bool_decide (d ≠ [])
  end.

(** Characters of a [str], counted on its UTF-8 encoding: a byte
    [10xxxxxx] continues the character before it. *)
Definition continues (b : Ascii.ascii) : bool :=
  let n := Ascii.N_of_ascii b in bool_decide (128 ≤ n < 192)%N.

(** [len(s)] *)
Fixpoint str_len (s : string) : nat :=
  match s with
  | String.EmptyString => 0%nat
  | String.String b s' => if continues b then str_len s' else S (str_len s')
  end.

(** [s[:n]] *)
Fixpoint str_take (n : nat) (s : string) : string :=
  match s with
  | String.EmptyString => String.EmptyString
  | String.String b s' =>
      if continues b then String.String b (str_take n s')
      else match n with
           | O => String.EmptyString
           | S n' => String.String b (str_take n' s')
           end
  end.

Fixpoint spaces (n : nat) : string :=
  match n with
  | O => String.EmptyString
  | S n' => " " +:+ spaces n'
  end.

(** The format specs [{s:20s}] (padded on the right) and [{n:5d}] (padded
    on the left); a text that fills the width is not cut. *)
Definition ljust (n : nat) (s : string) : string := s +:+ spaces (n - str_len s).
Definition rjust (n : nat) (s : string) : string := spaces (n - str_len s) +:+ s.

(** The exceptions that leave the functions below. *)
Inductive exn : Type :=
  | OverflowError
  | TypeError
  | ValueError
  | JSONDecodeError.

(** What a call that may end in an exception gives. *)
Inductive result (A : Type) : Type :=
  | Ok (a : A)
  | Raise (e : exn).

Arguments Ok {A} a.
Arguments Raise {A} e.

(** The range of SQLite's INTEGER: what [sqlite3] binds a Python [int]
    to, raising [OverflowError] outside of it. *)
Definition min_int64 : Z := - 2 ^ 63.
Definition max_int64 : Z := 2 ^ 63 - 1.

Definition in_int64 (n : Z) : Prop := min_int64 ≤ n ≤ max_int64.

#[local] Instance in_int64_dec n : Decision (in_int64 n) :=
  decide (min_int64 ≤ n ≤ max_int64).

(** A [message_count]: a Python [int], or the float [2.0**63] that SQLite
    makes of [2**63 - 1 + 1] and [_row_to_connection] reads back. *)
Inductive counter : Type :=
  | Int (n : Z)
  | Float63.

Coercion Int : Z >-> counter.

(** [message_count += 1] in Python: exact on an [int]; [2.0**63 + 1] is
    [2.0**63]. *)
Definition count_succ (c : counter) : counter :=
  match c with
  | Int n => Int (n + 1)
  | Float63 => Float63
  end.

(** [message_count + 1] in SQLite: an integer sum that overflows is
    computed as a REAL. *)
Definition sql_succ (c : counter) : counter :=
  match c with
  | Int n => if decide (n < max_int64) then Int (n + 1) else Float63
  | Float63 => Float63
  end.

(** The order of two counts of one kind. *)
Definition counter_le (a b : counter) : Prop :=
  match a, b with
  | Int m, Int n => m ≤ n
  | Float63, Float63 => True
  | _, _ => False
  end.

(** [sqlite3] binds the value: an [int] within the range, any float. *)
Definition bindable (c : counter) : Prop :=
  match c with
  | Int n => in_int64 n
  | Float63 => True
  end.

#[local] Instance bindable_dec c : Decision (bindable c).
Proof. destruct c; simpl; apply _. Defined.

(** The same for an optional [int]: [None] is bound as NULL. *)
Definition bindable_opt (n : option Z) : Prop :=
  match n with
  | Some n => in_int64 n
  | None => True
  end.

#[local] Instance bindable_opt_dec n : Decision (bindable_opt n).
Proof. destruct n; simpl; apply _. Defined.

(** A [datetime]: naive, or aware of its UTC offset (in microseconds). *)
Inductive datetime : Type :=
  | Naive (t : Z)
  | Aware (t : Z) (utcoffset : Z).

(** [datetime.max], 9999-12-31T23:59:59.999999. *)
Definition max_datetime : Z := 315537897599999999.

(** [@dataclass class Connection] *)
Record Connection : Type := mkConnection {
  ws_id : string;
  agent : string;
  metadata : json;
  connected_at : string;
  last_heartbeat : string;
  status : string;
  message_count : counter;
  db_id : option Z
}.

(** [@dataclass class Message] *)
Module Message.
Record t : Type := mk {
  content : string;
  sender_id : option string;
  recipient_id : option string;
  msg_type : string;
  msg_id : string;
  sent_at : string;
  db_id : option Z
}.
End Message.

(** In-place field assignments on a [Connection]. *)
Definition set_db_id (v : option Z) (c : Connection) : Connection :=
  mkConnection (ws_id c) (agent c) (metadata c) (connected_at c)
               (last_heartbeat c) (status c) (message_count c) v.

Definition set_last_heartbeat (ts : string) (c : Connection) : Connection :=
  mkConnection (ws_id c) (agent c) (metadata c) (connected_at c)
               ts (status c) (message_count c) (db_id c).

Definition incr_message_count (c : Connection) : Connection :=
  mkConnection (ws_id c) (agent c) (metadata c) (connected_at c)
               (last_heartbeat c) (status c) (count_succ (message_count c))
               (db_id c).

(** ** The store: the schema of [_init_schema] *)

Module Connections.
Record row : Type := mk {
  id : Z;
  ws_id : string;
  agent : string;
  metadata : string;
  connected_at : string;
  last_heartbeat : string;
  status : string;
  message_count : counter;
  disconnected_at : option string
}.
End Connections.

Module Messages.
Record row : Type := mk {
  id : Z;
  msg_id : string;
  msg_type : string;
  sender_id : option string;
  recipient_id : option string;
  content : string;
  sent_at : string;
  delivered : Z
}.
End Messages.

Module HeartbeatLog.
Record row : Type := mk {
  id : Z;
  ws_id : string;
  ts : string;
  latency_ms : option Z
}.
End HeartbeatLog.

Record DB : Type := mkDB {
  connections : list Connections.row;
  messages : list Messages.row;
  heartbeat_log : list HeartbeatLog.row;
  seq_connections : Z;
  seq_messages : Z;
  seq_heartbeat_log : Z
}.

Definition empty_db : DB := mkDB [] [] [] 0 0 0.

(** The rowid an AUTOINCREMENT table hands out next: one more than the
    largest rowid the table has ever held. *)
Definition next_rowid (seq : Z) (ids : list Z) : Z :=
  Z.max seq (foldr Z.max 0 ids) + 1.

(** ** The statements the program executes *)

(** [INSERT OR REPLACE INTO connections(ws_id, agent, metadata,
    connected_at, last_heartbeat, status, message_count) VALUES(...)]:
    a [message_count] that cannot be bound raises before anything is
    written; otherwise a row that holds the same [ws_id] (the UNIQUE
    column) is deleted, the new row gets a new rowid and no
    [disconnected_at].  Returns [cur.lastrowid]. *)
Definition sql_insert_or_replace_connection
    (d : DB) (w a m ca lh st : string) (mc : counter) : result (Z * DB) :=
  if decide (bindable mc) then
    let rid := next_rowid (seq_connections d) (Connections.id <$> connections d) in
    let kept := filter (λ r, Connections.ws_id r ≠ w) (connections d) in
    Ok (rid,
        mkDB (kept ++ [Connections.mk rid w a m ca lh st mc None])
             (messages d) (heartbeat_log d)
             rid (seq_messages d) (seq_heartbeat_log d))
  else Raise OverflowError.

Definition on_connections (f : Connections.row → Connections.row) (d : DB) : DB :=
  mkDB (f <$> connections d) (messages d) (heartbeat_log d)
       (seq_connections d) (seq_messages d) (seq_heartbeat_log d).

Definition where_ws_id (w : string) (f : Connections.row → Connections.row)
    (r : Connections.row) : Connections.row :=
  if decide (Connections.ws_id r = w) then f r else r.

(** [UPDATE connections SET status='disconnected',
    disconnected_at=datetime('now') WHERE ws_id=?] *)
Definition mark_disconnected (now : string) (r : Connections.row) : Connections.row :=
  Connections.mk (Connections.id r) (Connections.ws_id r) (Connections.agent r)
    (Connections.metadata r) (Connections.connected_at r)
    (Connections.last_heartbeat r) "disconnected"
    (Connections.message_count r) (Some now).

Definition sql_update_disconnected (d : DB) (w now : string) : DB :=
  on_connections (where_ws_id w (mark_disconnected now)) d.

(** [UPDATE connections SET last_heartbeat=? WHERE ws_id=?] *)
Definition row_set_last_heartbeat (ts : string) (r : Connections.row) : Connections.row :=
  Connections.mk (Connections.id r) (Connections.ws_id r) (Connections.agent r)
    (Connections.metadata r) (Connections.connected_at r)
    ts (Connections.status r)
    (Connections.message_count r) (Connections.disconnected_at r).

Definition sql_update_last_heartbeat (d : DB) (ts w : string) : DB :=
  on_connections (where_ws_id w (row_set_last_heartbeat ts)) d.

(** [UPDATE connections SET message_count=message_count+1 WHERE ws_id=?] *)
Definition row_incr_message_count (r : Connections.row) : Connections.row :=
  Connections.mk (Connections.id r) (Connections.ws_id r) (Connections.agent r)
    (Connections.metadata r) (Connections.connected_at r)
    (Connections.last_heartbeat r) (Connections.status r)
    (sql_succ (Connections.message_count r)) (Connections.disconnected_at r).

Definition sql_update_message_count (d : DB) (w : string) : DB :=
  on_connections (where_ws_id w row_incr_message_count) d.

(** [INSERT INTO heartbeat_log(ws_id, latency_ms) VALUES(?,?)]; [ts] takes
    its default, [datetime('now')].  A latency that cannot be bound
    raises. *)
Definition sql_insert_heartbeat_log (d : DB) (w : string) (lat : option Z)
    (now : string) : result DB :=
  if decide (bindable_opt lat) then
    let rid := next_rowid (seq_heartbeat_log d) (HeartbeatLog.id <$> heartbeat_log d) in
    Ok (mkDB (connections d) (messages d)
             (heartbeat_log d ++ [HeartbeatLog.mk rid w now lat])
             (seq_connections d) (seq_messages d) rid)
  else Raise OverflowError.

(** [INSERT INTO messages(msg_id, msg_type, sender_id, recipient_id,
    content, delivered) VALUES(?,?,?,?,?,1)]; [sent_at] takes its default,
    [datetime('now')]. *)
Definition sql_insert_message (d : DB) (mid mty : string)
    (snd rcp : option string) (body now : string) : DB :=
  let rid := next_rowid (seq_messages d) (Messages.id <$> messages d) in
  mkDB (connections d)
       (messages d ++ [Messages.mk rid mid mty snd rcp body now 1])
       (heartbeat_log d)
       (seq_connections d) rid (seq_heartbeat_log d).

(** [SELECT * FROM connections WHERE status='active'] *)
Definition sql_select_active (d : DB) : list Connections.row :=
  filter (λ r, Connections.status r = "active") (connections d).

(** [SELECT COUNT( * ) FROM connections] and [... FROM messages] *)
Definition sql_count_connections (d : DB) : Z := Z.of_nat (length (connections d)).
Definition sql_count_messages (d : DB) : Z := Z.of_nat (length (messages d)).

(** [ORDER BY sent_at DESC]: TEXT values compare byte by byte.  SQLite
    answers both queries of [get_message_history] by walking the index
    [idx_msg_sent] backwards, so rows with equal [sent_at] come by
    descending rowid: the row inserted last comes first. *)
Definition newer_first (a b : Messages.row) : Prop :=
  String.leb (Messages.sent_at b) (Messages.sent_at a) = true ∧
  (Messages.sent_at a = Messages.sent_at b → Messages.id b ≤ Messages.id a).

#[local] Instance newer_first_dec a b : Decision (newer_first a b) :=
  decide (String.leb (Messages.sent_at b) (Messages.sent_at a) = true ∧
          (Messages.sent_at a = Messages.sent_at b →
           Messages.id b ≤ Messages.id a)).

Definition sql_order_by_sent_at_desc (rows : list Messages.row) : list Messages.row :=
  merge_sort newer_first rows.

(** [LIMIT ?]: a bound that is not a signed 64-bit integer raises when it
    is bound; a negative bound means no bound. *)
Definition sql_limit {A : Type} (n : Z) (rows : list A) : result (list A) :=
  if decide (in_int64 n) then
    Ok (if decide (n < 0) then rows else take (Z.to_nat n) rows)
  else Raise OverflowError.

(** [WHERE recipient_id=? OR sender_id=?]; a NULL column equals nothing. *)
Definition involves (w : string) (m : Messages.row) : Prop :=
  Messages.recipient_id m = Some w ∨ Messages.sender_id m = Some w.

#[local] Instance involves_dec w m : Decision (involves w m) :=
  decide (Messages.recipient_id m = Some w ∨ Messages.sender_id m = Some w).

(** ** Python's insertion-ordered [dict] with [str] keys *)

Section dict.
Context {V : Type}.

(** [d.get(k)] *)
Fixpoint dict_get (d : list (string * V)) (k : string) : option V :=
  match d with
  | [] => None
  | (k', v) :: d' => if decide (k' = k) then Some v else dict_get d' k
  end.

(** [d[k] = v]: a key already present keeps its place. *)
Fixpoint dict_set (d : list (string * V)) (k : string) (v : V) : list (string * V) :=
  match d with
  | [] => [(k, v)]
  | (k', v') :: d' =>
      if decide (k' = k) then (k, v) :: d' else (k', v') :: dict_set d' k v
  end.

(** [del d[k]] (keys are unique, so at most one entry goes). *)
Definition dict_del (d : list (string * V)) (k : string) : list (string * V) :=
  filter (λ kv, kv.1 ≠ k) d.

(** [list(d.values())] and [list(d.keys())] *)
Definition dict_values (d : list (string * V)) : list V := d.*2.
Definition dict_keys (d : list (string * V)) : list string := d.*1.
End dict.

(** ** The pool *)

(** A reference to a [Connection] object. *)
Definition loc : Type := nat.

(** [_conn] is the store connection the pool was built on; the messaging
    functions receive the same connection as their [db_conn] (as [main]
    and the tests pass it).  [_pool] is the dictionary of the class;
    [heap] holds the [Connection] objects. *)
Record State : Type := mkState {
  _conn : DB;
  _pool : list (string * loc);
  heap : gmap loc Connection
}.

(** The result of [heartbeat_check]: [{'active': [...], 'timed_out': [...]}] *)
Record Sweep : Type := mkSweep {
  active : list string;
  timed_out : list string
}.

(** The result of [connection_stats]. *)
Record Stats : Type := mkStats {
  active_connections : Z;
  total_ever_connected : Z;
  total_messages : Z;
  agents : list (string * Z)
}.

Definition with_conn (d : DB) (st : State) : State :=
  mkState d (_pool st) (heap st).

(** [Connection(...)]: a new object. *)
Definition new_connection (st : State) (c : Connection) : loc * State :=
  let r := fresh (dom (heap st)) in
  (r, mkState (_conn st) (_pool st) (<[r := c]> (heap st))).

(** ** The program *)

Section manager.
(** The library functions the program calls.  [fromisoformat] answers
    [None] where Python raises [ValueError], [json_loads] where it raises
    [JSONDecodeError]. *)
Variable json_dumps : json → string.
Variable json_loads : string → option json.
Variable fromisoformat : string → option datetime.

(** *** [class ConnectionPool] *)

(** [ConnectionPool.add]; when the INSERT raises, nothing has been
    written.  (A reference always points to an object; the first branch is
    there for totality.) *)
Definition add (st : State) (connection : loc) : result loc * State :=
  match heap st !! connection with
  | None => (Ok connection, st)
  | Some c =>
      match sql_insert_or_replace_connection (_conn st)
              (ws_id c) (agent c) (json_dumps (metadata c))
              (connected_at c) (last_heartbeat c) (status c) (message_count c) with
      | Ok (lastrowid, d) =>
          (Ok connection,
           mkState d
                   (dict_set (_pool st) (ws_id c) connection)
                   (<[connection := set_db_id (Some lastrowid) c]> (heap st)))
      | Raise e => (Raise e, st)
      end
  end.

(** [ConnectionPool.remove]; [now] is what [datetime('now')] gives. *)
Definition remove (st : State) (w : string) (now : string) : bool * State :=
  match dict_get (_pool st) w with
  | None => (false, st)
  | Some _ =>
      (true,
       mkState (sql_update_disconnected (_conn st) w now)
               (dict_del (_pool st) w)
               (heap st))
  end.

(** [ConnectionPool.get], [get_all], [count] *)
Definition get (st : State) (w : string) : option loc := dict_get (_pool st) w.
Definition get_all (st : State) : list loc := dict_values (_pool st).
Definition count (st : State) : Z := Z.of_nat (length (_pool st)).

(** [ConnectionPool.update_heartbeat]; [ts] is
    [datetime.utcnow().isoformat()], [now] is [datetime('now')].  The
    object and the row are written before the INSERT into the log; when
    the INSERT raises, the UPDATE of the row has run and is not committed:
    the connection sees it, and the next [commit] makes it durable. *)
Definition update_heartbeat (st : State) (w : string) (latency_ms : option Z)
    (ts now : string) : result bool * State :=
  match dict_get (_pool st) w with
  | None => (Ok false, st)
  | Some r =>
      let updated := sql_update_last_heartbeat (_conn st) ts w in
      let objects := alter (set_last_heartbeat ts) r (heap st) in
      match sql_insert_heartbeat_log updated w latency_ms now with
      | Ok d => (Ok true, mkState d (_pool st) objects)
      | Raise e => (Raise e, mkState updated (_pool st) objects)
      end
  end.

(** [ConnectionPool.increment_message_count] *)
Definition increment_message_count (st : State) (w : string) : State :=
  match dict_get (_pool st) w with
  | None => st
  | Some r =>
      mkState (sql_update_message_count (_conn st) w)
              (_pool st)
              (alter incr_message_count r (heap st))
  end.

(** [ConnectionPool._row_to_connection]; [None] where [json.loads]
    raises. *)
Definition _row_to_connection (row : Connections.row) : option Connection :=
  m ← json_loads (Connections.metadata row);
  Some (mkConnection (Connections.ws_id row) (Connections.agent row) m
          (Connections.connected_at row) (Connections.last_heartbeat row)
          (Connections.status row) (Connections.message_count row)
          (Some (Connections.id row))).

(** [ConnectionPool._load_active] *)
Fixpoint _load_active (rows : list Connections.row) (st : State) : option State :=
  match rows with
  | [] => Some st
  | row :: rows' =>
      c ← _row_to_connection row;
      let '(r, st1) := new_connection st c in
      _load_active rows'
        (mkState (_conn st1) (dict_set (_pool st1) (ws_id c) r) (heap st1))
  end.

(** [ConnectionPool.__init__] *)
Definition ConnectionPool (conn : DB) : option State :=
  _load_active (sql_select_active conn) (mkState conn [] ∅).

(** *** Module-level functions *)

(** [add_connection]; [ts1] and [ts2] are the two readings of
    [datetime.utcnow().isoformat()] that fill [connected_at] and
    [last_heartbeat]. *)
Definition add_connection (st : State) (w a : string) (meta : option json)
    (ts1 ts2 : string) : result loc * State :=
  let m := match meta with
           | Some m => if truthy m then m else JDict []
           | None => JDict []
           end in
  let '(conn_obj, st1) :=
    new_connection st (mkConnection w a m ts1 ts2 "active" 0 None) in
  add st1 conn_obj.

Definition remove_connection (st : State) (w now : string) : bool * State :=
  remove st w now.

(** [json.dumps(message) if not isinstance(message, str) else message] *)
Definition content_str (message : json) : string :=
  match message with
  | JStr s => s
  | _ => json_dumps message
  end.

(** [c for c in targets if filter_fn(c)] *)
Definition passes (st : State) (filter_fn : Connection → bool) (r : loc) : bool :=
  match heap st !! r with
  | Some c => filter_fn c
  | None => false
  end.

(** The body of the loop of [broadcast], from target number [i] on;
    [uuid4 i] and [now i] are the [uuid.uuid4()] and the [datetime('now')]
    of round [i].  (As in [add], the branch for a reference without an
    object is there for totality; so it is in [heartbeat_loop].) *)
Fixpoint broadcast_loop (body mty : string) (sender : option string)
    (uuid4 now : nat → string) (i : nat) (targets : list loc)
    (st : State) (delivered_to : list string) : list string * State :=
  match targets with
  | [] => (delivered_to, st)
  | r :: rest =>
      match heap st !! r with
      | None => broadcast_loop body mty sender uuid4 now (S i) rest st delivered_to
      | Some conn_obj =>
          let st1 :=
            with_conn (sql_insert_message (_conn st) (uuid4 i) mty sender
                         (Some (ws_id conn_obj)) body (now i)) st in
          let st2 := increment_message_count st1 (ws_id conn_obj) in
          broadcast_loop body mty sender uuid4 now (S i) rest st2
            (delivered_to ++ [ws_id conn_obj])
      end
  end.

(** [broadcast] *)
Definition broadcast (st : State) (message : json)
    (filter_fn : option (Connection → bool)) (mty : string)
    (sender : option string) (uuid4 now : nat → string) : list string * State :=
  let targets :=
    match filter_fn with
    | Some f => filter (λ r, passes st f r) (get_all st)
    | None => get_all st
    end in
  broadcast_loop (content_str message) mty sender uuid4 now 0 targets st [].

(** [get_active_connections] *)
Definition get_active_connections (st : State) : list loc :=
  filter (λ r, passes st (λ c, bool_decide (status c = "active")) r) (get_all st).

(** The loop of [heartbeat_check] over the snapshot [list(pool.get_all())];
    [sql_now i] is the [datetime('now')] of round [i].  The comparison
    [last_hb < cutoff] of an aware [last_hb] with the naive [cutoff] raises
    [TypeError], outside the [try]; the loop gives the two lists as they
    stand when it ends, with the exception that ended it, if any. *)
Fixpoint heartbeat_loop (now cutoff : Z) (sql_now : nat → string) (i : nat)
    (snapshot : list loc) (st : State) (res : Sweep)
    : Sweep * option exn * State :=
  match snapshot with
  | [] => (res, None, st)
  | r :: rest =>
      match heap st !! r with
      | None => heartbeat_loop now cutoff sql_now (S i) rest st res
      | Some conn_obj =>
          let last_hb :=
            match fromisoformat (last_heartbeat conn_obj) with
            | Some d => d
            | None => Naive now
            end in
          match last_hb with
          | Aware _ _ => (res, Some TypeError, st)
          | Naive t =>
              if decide (t < cutoff) then
                heartbeat_loop now cutoff sql_now (S i) rest
                  (remove st (ws_id conn_obj) (sql_now i)).2
                  (mkSweep (active res) (timed_out res ++ [ws_id conn_obj]))
              else
                heartbeat_loop now cutoff sql_now (S i) rest st
                  (mkSweep (active res ++ [ws_id conn_obj]) (timed_out res))
          end
      end
  end.

(** The sweep of [heartbeat_check]; [now] is [datetime.utcnow()].
    [now - timedelta(seconds=timeout)] raises [OverflowError] when the
    difference is no [datetime], before the loop. *)
Definition sweep (st : State) (now timeout : Z)
    (sql_now : nat → string) : Sweep * option exn * State :=
  let cutoff := now - timeout * 1000000 in
  if decide (0 ≤ cutoff ≤ max_datetime) then
    heartbeat_loop now cutoff sql_now 0 (get_all st) st (mkSweep [] [])
  else (mkSweep [] [], Some OverflowError, st).

(** [heartbeat_check]: the two lists when the sweep returns. *)
Definition heartbeat_check (st : State) (now timeout : Z)
    (sql_now : nat → string) : result Sweep * State :=
  match sweep st now timeout sql_now with
  | (res, None, st') => (Ok res, st')
  | (_, Some e, st') => (Raise e, st')
  end.

(** [send_message]; [uuid] is [uuid.uuid4()], [ts] the
    [datetime.utcnow().isoformat()] of the [Message], [now] the
    [datetime('now')] of the row. *)
Definition send_message (st : State) (w : string) (message : json)
    (mty : string) (sender : option string) (uuid ts now : string)
    : option Message.t * State :=
  match get st w with
  | None => (None, st)
  | Some _ =>
      let msg := Message.mk (content_str message) sender (Some w) mty uuid ts None in
      let st1 :=
        with_conn (sql_insert_message (_conn st) (Message.msg_id msg)
                     (Message.msg_type msg) (Message.sender_id msg)
                     (Message.recipient_id msg) (Message.content msg) now) st in
      (Some msg, increment_message_count st1 w)
  end.

(** [get_message_history]; [if ws_id:] holds for a non-empty string. *)
Definition get_message_history (d : DB) (w : option string) (limit : Z)
    : result (list Messages.row) :=
  match w with
  | Some w' =>
      if decide (w' = "") then
        sql_limit limit (sql_order_by_sent_at_desc (messages d))
      else
        sql_limit limit (sql_order_by_sent_at_desc (filter (involves w') (messages d)))
  | None => sql_limit limit (sql_order_by_sent_at_desc (messages d))
  end.

(** [agents[c.agent] = agents.get(c.agent, 0) + 1] *)
Definition tally (agents : list (string * Z)) (a : string) : list (string * Z) :=
  dict_set agents a (default 0 (dict_get agents a) + 1).

(** [connection_stats] *)
Definition connection_stats (st : State) : Stats :=
  let total_conn := sql_count_connections (_conn st) in
  let total_msg := sql_count_messages (_conn st) in
  let active := count st in
  let agents :=
    foldl (λ agents r,
             match heap st !! r with
             | Some c => tally agents (agent c)
             | None => agents
             end) [] (get_all st) in
  mkStats active total_conn total_msg agents.

(** *** Runs of the program *)

(** The calls that change the state.  ([get], [get_all], [count],
    [get_active_connections], [get_message_history] and
    [connection_stats] only read it.) *)
Inductive op : Type :=
  | NewConnection (c : Connection)
  | Add (connection : loc)
  | AddConnection (w a : string) (meta : option json) (ts1 ts2 : string)
  | Remove (w now : string)
  | UpdateHeartbeat (w : string) (latency_ms : option Z) (ts now : string)
  | IncrementMessageCount (w : string)
  | Broadcast (message : json) (filter_fn : option (Connection → bool))
              (mty : string) (sender : option string) (uuid4 now : nat → string)
  | HeartbeatCheck (now timeout : Z) (sql_now : nat → string)
  | SendMessage (w : string) (message : json) (mty : string)
                (sender : option string) (uuid ts now : string).

Definition run_op (st : State) (o : op) : State :=
  match o with
  | NewConnection c => (new_connection st c).2
  | Add r => (add st r).2
  | AddConnection w a meta ts1 ts2 => (add_connection st w a meta ts1 ts2).2
  | Remove w now => (remove st w now).2
  | UpdateHeartbeat w lat ts now => (update_heartbeat st w lat ts now).2
  | IncrementMessageCount w => increment_message_count st w
  | Broadcast m f mty sender uuid4 now => (broadcast st m f mty sender uuid4 now).2
  | HeartbeatCheck now timeout sql_now => (heartbeat_check st now timeout sql_now).2
  | SendMessage w m mty sender uuid ts now =>
      (send_message st w m mty sender uuid ts now).2
  end.

Definition run (st : State) (ops : list op) : State := foldl run_op st ops.

(** A call that takes [w] out of the pool or puts another object under
    [w]: [remove(w)], a sweep that times [w] out (also one that an
    exception ends later), an [add] under [w]. *)
Definition detaches (w : string) (st : State) (o : op) : Prop :=
  match o with
  | Add r =>
      match heap st !! r with
      | Some c => ws_id c = w ∧ bindable (message_count c)
      | None => False
      end
  | AddConnection w' _ _ _ _ => w' = w
  | Remove w' _ => w' = w
  | HeartbeatCheck now timeout sql_now =>
      w ∈ timed_out (sweep st now timeout sql_now).1.1
  | _ => False
  end.

Fixpoint undisturbed (w : string) (st : State) (ops : list op) : Prop :=
  match ops with
  | [] => True
  | o :: ops' => ¬ detaches w st o ∧ undisturbed w (run_op st o) ops'
  end.

End manager.

(** ** The invariant of the pool *)

(** Keys are unique, and the object stored under a key carries that key as
    its [ws_id]; so no object sits under two keys. *)
Definition wf (st : State) : Prop :=
  NoDup (dict_keys (_pool st)) ∧
  Forall (λ kr, ws_id <$> heap st !! kr.2 = Some kr.1) (_pool st).

#[local] Instance wf_dec (st : State) : Decision (wf st) :=
  decide (NoDup (dict_keys (_pool st)) ∧
          Forall (λ kr, ws_id <$> heap st !! kr.2 = Some kr.1) (_pool st)).

(** The objects of the pool, in [get_all] order. *)
Definition pool_objects (st : State) : list Connection :=
  omap (λ r, heap st !! r) (dict_values (_pool st)).

(** What a sweep compares with the cutoff: the parsed heartbeat, or [now]
    when it does not parse; nothing when the heartbeat is offset-aware. *)
Definition heartbeat_of (fromisoformat : string → option datetime) (now : Z)
    (c : Connection) : option Z :=
  match fromisoformat (last_heartbeat c) with
  | Some (Naive t) => Some t
  | Some (Aware _ _) => None
  | None => Some now
  end.

(** ** Instances of the library functions, for the worked examples *)

(** [json.dumps] with its defaults ([ensure_ascii], the separators [", "]
    and [": "]), on dictionaries whose keys are distinct.  A string is
    written between quotes, with the quote, the backslash and every
    character outside the printable ASCII range escaped. *)
Fixpoint code_points (bs : list Z) : list Z :=
  match bs with
  | [] => []
  | b :: rest =>
      if decide (b < 128) then b :: code_points rest
      else if decide (b < 224) then
        match rest with
        | b1 :: rest' => ((b - 192) * 64 + (b1 - 128)) :: code_points rest'
        | _ => []
        end
      else if decide (b < 240) then
        match rest with
        | b1 :: b2 :: rest' =>
            ((b - 224) * 4096 + (b1 - 128) * 64 + (b2 - 128)) :: code_points rest'
        | _ => []
        end
      else
        match rest with
        | b1 :: b2 :: b3 :: rest' =>
            ((b - 240) * 262144 + (b1 - 128) * 4096 + (b2 - 128) * 64 + (b3 - 128))
            :: code_points rest'
        | _ => []
        end
  end.

Definition hex_digit (n : Z) : Ascii.ascii :=
  Ascii.ascii_of_N (Z.to_N (if decide (n < 10) then 48 + n else 87 + n)).

(** [f"\\u{n:04x}"] *)
Definition u_escape (n : Z) : string :=
  "\u" +:+
  String.String (hex_digit (n / 4096 mod 16))
    (String.String (hex_digit (n / 256 mod 16))
       (String.String (hex_digit (n / 16 mod 16))
          (String.String (hex_digit (n mod 16)) String.EmptyString))).

Definition quote : string := String.String "034"%char String.EmptyString.

Definition escaped (cp : Z) : string :=
  if decide (cp = 34) then "\" +:+ quote
  else if decide (cp = 92) then "\\"
  else if decide (cp = 10) then "\n"
  else if decide (cp = 13) then "\r"
  else if decide (cp = 9) then "\t"
  else if decide (cp = 8) then "\b"
  else if decide (cp = 12) then "\f"
  else if decide (32 ≤ cp ≤ 126) then
    String.String (Ascii.ascii_of_N (Z.to_N cp)) String.EmptyString
  else if decide (cp < 65536) then u_escape cp
  else u_escape (55296 + (cp - 65536) / 1024) +:+
       u_escape (56320 + (cp - 65536) mod 1024).

Definition quoted (s : string) : string :=
  quote +:+
  foldr (λ cp out, escaped cp +:+ out) String.EmptyString
    (code_points ((λ b, Z.of_N (Ascii.N_of_ascii b)) <$>
                  String.list_ascii_of_string s)) +:+
  quote.

Fixpoint plain_dumps (j : json) : string :=
  match j with
  | JNull => "null"
  | JBool true => "true"
  | JBool false => "false"
  | JInt n => pretty n
  | JStr s => quoted s
  | JList l =>
      "[" +:+ (fix items (l : list json) : string :=
                match l with
                | [] => String.EmptyString
                | [x] => plain_dumps x
                | x :: l' => plain_dumps x +:+ ", " +:+ items l'
                end) l +:+ "]"
  | JDict d =>
      "{" +:+ (fix items (d : list (string * json)) : string :=
                match d with
                | [] => String.EmptyString
                | [(k, x)] => quoted k +:+ ": " +:+ plain_dumps x
                | (k, x) :: d' => quoted k +:+ ": " +:+ plain_dumps x +:+ ", " +:+ items d'
                end) d +:+ "}"
  end.

(** [json.loads] on the one text the examples hand to it, the empty
    dictionary [json.dumps] writes; the examples give it no other text,
    and say nothing of any other. *)
Definition plain_loads (s : string) : option json :=
  if decide (s = "{}") then Some (JDict []) else None.

(** [datetime.fromisoformat] on the forms [isoformat()] writes:
    [YYYY-MM-DD], one character, [HH:MM:SS], with an optional [.ffffff]
    and an optional offset [+HH:MM] or [-HH:MM]; the instant counts
    microseconds from 0001-01-01T00:00:00.  The examples hand it these
    forms and texts that no version of Python parses; the further forms
    a recent Python reads (a date alone, the basic format, [Z]) are not
    among them. *)
Definition digit (c : Ascii.ascii) : option Z :=
  let n := Z.of_N (Ascii.N_of_ascii c) in
  if decide (48 ≤ n ≤ 57)%Z then Some (n - 48) else None.

Definition number (cs : list Ascii.ascii) : option Z :=
  foldl (λ acc c, a ← acc; d ← digit c; Some (10 * a + d)) (Some 0) cs.

Definition field (cs : list Ascii.ascii) (i n : nat) : option Z :=
  number (take n (drop i cs)).

Definition is_leap (y : Z) : bool :=
  bool_decide (y mod 4 = 0 ∧ (y mod 100 ≠ 0 ∨ y mod 400 = 0)).

Definition days_in_month (y m : Z) : Z :=
  if decide (m = 2) then (if is_leap y then 29 else 28)
  else if decide (m = 4 ∨ m = 6 ∨ m = 9 ∨ m = 11) then 30 else 31.

Definition days_before_year (y : Z) : Z :=
  let p := y - 1 in p * 365 + p / 4 - p / 100 + p / 400.

Fixpoint days_before_month (y : Z) (m : nat) : Z :=
  match m with
  | O => 0
  | S m' => days_before_month y m' + days_in_month y (Z.of_nat m)
  end.

Definition iso_offset (cs : list Ascii.ascii) (i : nat) : option Z :=
  h ← field cs (i + 1) 2; mi ← field cs (i + 4) 2;
  if decide (cs !! (i + 3)%nat = Some ":"%char ∧ (h < 24)%Z ∧ (mi < 60)%Z) then
    if decide (cs !! i = Some "+"%char) then Some ((h * 60 + mi) * 60000000)
    else if decide (cs !! i = Some "-"%char) then Some (- ((h * 60 + mi) * 60000000))
    else None
  else None.

Definition iso_parse (s : string) : option datetime :=
  let cs := String.list_ascii_of_string s in
  let n := length cs in
  if decide (n = 19%nat ∨ n = 26%nat ∨ n = 25%nat ∨ n = 32%nat) then
    let fraction := bool_decide (n = 26%nat ∨ n = 32%nat) in
    let offset := bool_decide (n = 25%nat ∨ n = 32%nat) in
    y ← field cs 0 4; mo ← field cs 5 2; d ← field cs 8 2;
    h ← field cs 11 2; mi ← field cs 14 2; sec ← field cs 17 2;
    us ← (if fraction then field cs 20 6 else Some 0);
    if decide (cs !! 4%nat = Some "-"%char ∧ cs !! 7%nat = Some "-"%char ∧
               cs !! 13%nat = Some ":"%char ∧ cs !! 16%nat = Some ":"%char ∧
               (fraction → cs !! 19%nat = Some "."%char) ∧
               (1 ≤ y)%Z ∧ (1 ≤ mo ≤ 12)%Z ∧ (1 ≤ d ≤ days_in_month y mo)%Z ∧
               (h < 24)%Z ∧ (mi < 60)%Z ∧ (sec < 60)%Z)
    then
      let days := days_before_year y + days_before_month y (Z.to_nat (mo - 1)) + (d - 1) in
      let t := (((days * 24 + h) * 60 + mi) * 60 + sec) * 1000000 + us in
      if offset then
        o ← iso_offset cs (if fraction then 26 else 19); Some (Aware t o)
      else Some (Naive t)
    else None
  else None.

(** [remove(w)] called once for each clock reading of [nows], with the
    results of the calls. *)
Fixpoint remove_repeatedly (st : State) (w : string) (nows : list string)
    : list bool * State :=
  match nows with
  | [] => ([], st)
  | now :: nows' =>
      let '(ok, st1) := remove st w now in
      let '(oks, st2) := remove_repeatedly st1 w nows' in
      (ok :: oks, st2)
  end.

(** References that sit in the pool, each once. *)
Definition in_pool (st : State) (rs : list loc) : Prop :=
  NoDup rs ∧ ∀ r, r ∈ rs → ∃ k, (k, r) ∈ _pool st.


(** What a sweep evicts: a heartbeat older than the cutoff. *)
Definition stale (fromisoformat : string → option datetime) (now cutoff : Z)
    (c : Connection) : Prop :=
  match heartbeat_of fromisoformat now c with
  | Some t => t < cutoff
  | None => False
  end.

#[local] Instance stale_dec f now cutoff c : Decision (stale f now cutoff c).
Proof. unfold stale. destruct (heartbeat_of f now c); apply _. Defined.

(** A heartbeat the sweep cannot compare. *)
Definition aware (fromisoformat : string → option datetime) (c : Connection)
    : Prop :=
  ∃ t o, fromisoformat (last_heartbeat c) = Some (Aware t o).

#[local] Instance aware_dec f c : Decision (aware f c).
Proof.
  unfold aware. destruct (f (last_heartbeat c)) as [[t|t o]|].
  - right. by intros (? & ? & ?).
  - left. by exists t, o.
  - right. by intros (? & ? & ?).
Defined.

(** The objects a sweep reaches: those before the first one whose
    heartbeat is offset-aware. *)
Fixpoint reached (fromisoformat : string → option datetime)
    (objs : list Connection) : list Connection :=
  match objs with
  | [] => []
  | c :: rest =>
      if decide (aware fromisoformat c) then []
      else c :: reached fromisoformat rest
  end.

(** [r'] is the row [r] marked disconnected at [now]: the two columns of
    the UPDATE are written, the others are as they were. *)
Definition stamped (now : string) (r r' : Connections.row) : Prop :=
  Connections.status r' = "disconnected" ∧
  Connections.disconnected_at r' = Some now ∧
  Connections.id r' = Connections.id r ∧
  Connections.ws_id r' = Connections.ws_id r ∧
  Connections.agent r' = Connections.agent r ∧
  Connections.metadata r' = Connections.metadata r ∧
  Connections.connected_at r' = Connections.connected_at r ∧
  Connections.last_heartbeat r' = Connections.last_heartbeat r ∧
  Connections.message_count r' = Connections.message_count r.

(** [row] is the row [add] writes for the object [c], under the rowid
    [rid]. *)
Definition row_of (json_dumps : json → string) (c : Connection) (rid : Z)
    (row : Connections.row) : Prop :=
  Connections.id row = rid ∧
  Connections.ws_id row = ws_id c ∧
  Connections.agent row = agent c ∧
  Connections.metadata row = json_dumps (metadata c) ∧
  Connections.connected_at row = connected_at c ∧
  Connections.last_heartbeat row = last_heartbeat c ∧
  Connections.status row = status c ∧
  Connections.message_count row = message_count c ∧
  Connections.disconnected_at row = None.

(** [c'] is the object [c] with [db_id] written to [rid], the other
    fields as they were. *)
Definition registered (rid : Z) (c c' : Connection) : Prop :=
  db_id c' = Some rid ∧
  ws_id c' = ws_id c ∧ agent c' = agent c ∧ metadata c' = metadata c ∧
  connected_at c' = connected_at c ∧ last_heartbeat c' = last_heartbeat c ∧
  status c' = status c ∧ message_count c' = message_count c.

(** [r'] is the row [r] with [last_heartbeat] written to [ts], the other
    columns as they were. *)
Definition refreshed (ts : string) (r r' : Connections.row) : Prop :=
  Connections.last_heartbeat r' = ts ∧
  Connections.id r' = Connections.id r ∧
  Connections.ws_id r' = Connections.ws_id r ∧
  Connections.agent r' = Connections.agent r ∧
  Connections.metadata r' = Connections.metadata r ∧
  Connections.connected_at r' = Connections.connected_at r ∧
  Connections.status r' = Connections.status r ∧
  Connections.message_count r' = Connections.message_count r ∧
  Connections.disconnected_at r' = Connections.disconnected_at r.

(** The rows of the evicted ids are stamped, the others are untouched. *)
Definition stamped_if (ws : list string) (r r' : Connections.row) : Prop :=
  if decide (Connections.ws_id r ∈ ws) then ∃ now, stamped now r r'
  else r' = r.

(** [r'] is the row [r] with one message more: [message_count] is one
    higher, and is the float [2.0**63] from [2**63 - 1] on; the other
    columns are as they were. *)
Definition counted (r r' : Connections.row) : Prop :=
  (∀ n, Connections.message_count r = Int n → n < max_int64 →
        Connections.message_count r' = Int (n + 1)) ∧
  (∀ n, Connections.message_count r = Int n → max_int64 ≤ n →
        Connections.message_count r' = Float63) ∧
  (Connections.message_count r = Float63 →
   Connections.message_count r' = Float63) ∧
  Connections.id r' = Connections.id r ∧
  Connections.ws_id r' = Connections.ws_id r ∧
  Connections.agent r' = Connections.agent r ∧
  Connections.metadata r' = Connections.metadata r ∧
  Connections.connected_at r' = Connections.connected_at r ∧
  Connections.last_heartbeat r' = Connections.last_heartbeat r ∧
  Connections.status r' = Connections.status r ∧
  Connections.disconnected_at r' = Connections.disconnected_at r.

(** What a broadcast does to the rows of the targeted ids. *)
Definition counted_if (ws : list string) (r r' : Connections.row) : Prop :=
  if decide (Connections.ws_id r ∈ ws) then counted r r' else r' = r.

(** The UPDATEs of a broadcast, on one row. *)
Definition bump_if (ws : list string) (r : Connections.row) : Connections.row :=
  if decide (Connections.ws_id r ∈ ws) then row_incr_message_count r else r.

(** [c'] is the object [c] with one message more: an [int] count is one
    higher; the other fields are as they were. *)
Definition received (c c' : Connection) : Prop :=
  (∀ n, message_count c = Int n → message_count c' = Int (n + 1)) ∧
  (message_count c = Float63 → message_count c' = Float63) ∧
  ws_id c' = ws_id c ∧ agent c' = agent c ∧ metadata c' = metadata c ∧
  connected_at c' = connected_at c ∧ last_heartbeat c' = last_heartbeat c ∧
  status c' = status c ∧ db_id c' = db_id c.

(** The message row written for target [c]. *)
Definition delivered_to (body mty : string) (sender : option string)
    (c : Connection) (m : Messages.row) : Prop :=
  Messages.recipient_id m = Some (ws_id c) ∧ Messages.delivered m = 1 ∧
  Messages.content m = body ∧ Messages.msg_type m = mty ∧
  Messages.sender_id m = sender.

(** The connections a broadcast is meant for. *)
Definition chosen (st : State) (filter_fn : option (Connection → bool))
    : list Connection :=
  match filter_fn with
  | Some f => filter (λ c, f c) (pool_objects st)
  | None => pool_objects st
  end.

(** Row [a] comes before row [b] in a history: it was sent later, or in
    the same second and inserted later. *)
Definition before (a b : Messages.row) : Prop :=
  (String.leb (Messages.sent_at b) (Messages.sent_at a) = true ∧
   Messages.sent_at a ≠ Messages.sent_at b) ∨
  (Messages.sent_at a = Messages.sent_at b ∧ Messages.id b ≤ Messages.id a).

(** [h] holds the first rows of [rows], newest first, up to [limit] of
    them when [limit] is not negative and all of them when it is: every
    row of [h] comes before the rows that follow it and before the rows
    left out. *)
Definition newest_of (rows : list Messages.row) (limit : Z)
    (h : list Messages.row) : Prop :=
  ∃ rest,
    h ++ rest ≡ₚ rows ∧
    StronglySorted before (h ++ rest) ∧
    (0 ≤ limit → length h = Nat.min (Z.to_nat limit) (length rows)) ∧
    (limit < 0 → rest = []).

(** ** Worked examples *)

(** The pool just built on an empty store. *)
Definition fresh_pool : State := mkState empty_db [] ∅.

(** [connect ws-1], [disconnect ws-1], [connect ws-1] again. *)
Definition reconnect_1 : State :=
  (add_connection plain_dumps fresh_pool "ws-1" "alice" None
     "2024-01-01T00:00:00.000001" "2024-01-01T00:00:00.000002").2.
Definition reconnect_2 : State :=
  (remove_connection reconnect_1 "ws-1" "2024-01-01 00:01:00").2.
Definition reconnect_3 : State :=
  (add_connection plain_dumps reconnect_2 "ws-1" "alice" None
     "2024-01-01T00:02:00.000001" "2024-01-01T00:02:00.000002").2.

(** [pool.add(Connection(ws_id="c1", agent="probe", last_heartbeat="garbage"))] *)
Definition garbled : State :=
  (add plain_dumps
     (new_connection fresh_pool
        (mkConnection "c1" "probe" (JDict []) "2024-01-01T00:00:00.000001"
                      "garbage" "active" 0 None)).2
     0%nat).2.

(** Noon of 2024-01-01, as a naive [datetime]. *)
Definition noon : Z :=
  match iso_parse "2024-01-01T12:00:00" with
  | Some (Naive t) => t
  | _ => 0
  end.

(** [pool.add(Connection(ws_id="ws-stale", agent="stale-agent",
    last_heartbeat="2020-01-01T00:00:00"))] *)
Definition stale_object : Connection :=
  mkConnection "ws-stale" "stale-agent" (JDict []) "2024-01-01T00:00:00.000001"
               "2020-01-01T00:00:00" "active" 0 None.
Definition stale_pool : State :=
  (add plain_dumps (new_connection fresh_pool stale_object).2 0%nat).2.

(** [pool.add(Connection(ws_id="ws-utc", agent="utc-agent",
    last_heartbeat="2024-01-01T11:59:59+00:00"))] *)
Definition aware_pool : State :=
  (add plain_dumps
     (new_connection fresh_pool
        (mkConnection "ws-utc" "utc-agent" (JDict []) "2024-01-01T00:00:00.000001"
                      "2024-01-01T11:59:59+00:00" "active" 0 None)).2
     0%nat).2.

(** ws-1 is connected, and a second object for ws-1 is built with
    [message_count=2**63]. *)
Definition overfull : Connection :=
  mkConnection "ws-1" "bob" (JDict []) "2024-01-01T00:03:00.000001"
               "2024-01-01T00:03:00.000002" "active" (Int (2 ^ 63)) None.
Definition crowded : State := (new_connection reconnect_1 overfull).2.

(** [pool.add(Connection(ws_id="ws-1", agent="alice",
    message_count=2**63 - 1))], one broadcast, and the pool built anew on
    the store. *)
Definition brimful : Connection :=
  mkConnection "ws-1" "alice" (JDict []) "2024-01-01T00:00:00.000001"
               "2024-01-01T00:00:00.000002" "active" (Int (2 ^ 63 - 1)) None.
Definition brim_1 : State :=
  (add plain_dumps (new_connection fresh_pool brimful).2 0%nat).2.
Definition brim_2 : State :=
  (broadcast plain_dumps brim_1 (JStr "hello") None "broadcast" None
     (λ i, "uuid-" +:+ pretty i) (λ _, "2024-01-01 12:00:00")).2.
Definition brim_3 : State :=
  default brim_2 (ConnectionPool plain_loads (_conn brim_2)).

(** [connect a1 alice], [connect a2 alice], [connect b1 bob]. *)
Definition trio : State :=
  let st1 := (add_connection plain_dumps fresh_pool "a1" "alice" None
                "2024-01-01T00:00:00.000001" "2024-01-01T00:00:00.000002").2 in
  let st2 := (add_connection plain_dumps st1 "a2" "alice" None
                "2024-01-01T00:00:01.000001" "2024-01-01T00:00:01.000002").2 in
  (add_connection plain_dumps st2 "b1" "bob" None
     "2024-01-01T00:00:02.000001" "2024-01-01T00:00:02.000002").2.

Definition is_alice (c : Connection) : bool := bool_decide (agent c = "alice").

(** A connection whose [ws_id] is the empty string, a connection b1, and
    one message sent to b1. *)
Definition chat : State :=
  let st1 := (add_connection plain_dumps fresh_pool "" "anon" None
                "2024-01-01T00:00:00.000001" "2024-01-01T00:00:00.000002").2 in
  let st2 := (add_connection plain_dumps st1 "b1" "bob" None
                "2024-01-01T00:00:01.000001" "2024-01-01T00:00:01.000002").2 in
  (send_message plain_dumps st2 "b1" (JStr "hello") "data" None
     "0b5e7c1e-6f0a-4a53-9d55-0d1d0c1f7a11" "2024-01-01T00:00:02.000001"
     "2024-01-01 00:00:02").2.

(** Three messages to b1 of [trio] within one second. *)
Definition burst : State :=
  let st1 := (send_message plain_dumps trio "b1" (JStr "one") "data" (Some "a1")
                "uuid-1" "2024-01-01T12:00:00.000001" "2024-01-01 12:00:00").2 in
  let st2 := (send_message plain_dumps st1 "b1" (JStr "two") "data" (Some "a1")
                "uuid-2" "2024-01-01T12:00:00.000002" "2024-01-01 12:00:00").2 in
  (send_message plain_dumps st2 "b1" (JStr "three") "data" (Some "a1")
     "uuid-3" "2024-01-01T12:00:00.000003" "2024-01-01 12:00:00").2.

(** The direct assignment the test of the sweep makes,
    [pool._pool[w].last_heartbeat = ts], with its
    [UPDATE connections SET last_heartbeat=? WHERE ws_id=...]. *)
Definition poke_last_heartbeat (st : State) (w ts : string) : State :=
  match get st w with
  | Some r =>
      mkState (sql_update_last_heartbeat (_conn st) ts w) (_pool st)
              (alter (set_last_heartbeat ts) r (heap st))
  | None => st
  end.

(** [connect(plain_dumps, st, w, a)]: [add_connection] at a fixed clock. *)
Definition connect (st : State) (w a : string) : State :=
  (add_connection plain_dumps st w a None
     "2024-01-01T11:59:59.000001" "2024-01-01T11:59:59.000002").2.

(** [send(st, w, text)]: [send_message] of a text at a fixed clock. *)
Definition send (st : State) (w text : string) : State :=
  (send_message plain_dumps st w (JStr text) "data" None
     ("uuid-" +:+ text) "2024-01-01T12:00:00.000001" "2024-01-01 12:00:00").2.

(** The clocks of the examples. *)
Definition uuids (i : nat) : string := "uuid-" +:+ pretty i.
Definition at_noon (i : nat) : string := "2024-01-01 12:00:00".

(** The object the pool of [trio] holds under b1. *)
Definition b1_object : Connection :=
  mkConnection "b1" "bob" (JDict []) "2024-01-01T00:00:02.000001"
               "2024-01-01T00:00:02.000002" "active" 0 (Some 3).

(** ws-1 and ws-2 connect, ws-2 gets a message, ws-1 disconnects. *)
Definition visits : list op :=
  [AddConnection "ws-1" "alice" None
     "2024-01-01T11:59:58.000001" "2024-01-01T11:59:58.000002";
   AddConnection "ws-2" "bob" (Some (JList []))
     "2024-01-01T11:59:59.000001" "2024-01-01T11:59:59.000002";
   SendMessage "ws-2" (JStr "hello") "data" None
     "0b5e7c1e-6f0a-4a53-9d55-0d1d0c1f7a11" "2024-01-01T12:00:00.000001"
     "2024-01-01 12:00:00";
   Remove "ws-1" "2024-01-01 12:00:01"].

(** ** Notions for the properties of whole runs *)

(** [send_message] to each [ws_id] of [ws] in turn; round [i] comes first
    and reads [uuid4 i], [ts i] and [now i]. *)
Fixpoint send_each (json_dumps : json → string) (message : json) (mty : string)
    (sender : option string) (uuid4 ts now : nat → string) (i : nat)
    (ws : list string) (st : State) : State :=
  match ws with
  | [] => st
  | w :: ws' =>
      send_each json_dumps message mty sender uuid4 ts now (S i) ws'
        (send_message json_dumps st w message mty sender (uuid4 i) (ts i) (now i)).2
  end.

(** [pool.get(w)], dereferenced. *)
Definition lookup_conn (st : State) (w : string) : option Connection :=
  r ← get st w; heap st !! r.

(** What the calls may do to an object: raise [message_count], write
    [last_heartbeat] and [db_id]; nothing else. *)
Definition grown (c c' : Connection) : Prop :=
  ws_id c' = ws_id c ∧ agent c' = agent c ∧ metadata c' = metadata c ∧
  connected_at c' = connected_at c ∧ status c' = status c ∧
  counter_le (message_count c) (message_count c').

(** The sum of the counts of an [agents] dictionary. *)
Definition total (agents : list (string * Z)) : Z := foldr Z.add 0 agents.*2.

(** The calls that write message rows. *)
Definition messaging (o : op) : Prop :=
  match o with
  | Broadcast _ _ _ _ _ _ | SendMessage _ _ _ _ _ _ _ => True
  | _ => False
  end.

(** What a call other than [add] does to the rows of [connections]: each
    keeps its place, its [ws_id] and its [metadata], and none becomes
    active. *)
Definition kept (rows rows' : list Connections.row) : Prop :=
  Forall2 (λ x y, Connections.ws_id y = Connections.ws_id x ∧
                  Connections.metadata y = Connections.metadata x ∧
                  (Connections.status y = "active" →
                   Connections.status x = "active"))
          rows rows'.

(** What [add] needs of the metadata it stores: [json.loads] reads back
    what [json.dumps] wrote. *)
Definition stores (json_dumps : json → string) (json_loads : string → option json)
    (st : State) (o : op) : Prop :=
  match o with
  | Add r =>
      match heap st !! r with
      | Some c => json_loads (json_dumps (metadata c)) = Some (metadata c)
      | None => True
      end
  | AddConnection _ _ meta _ _ =>
      let m := match meta with
               | Some m => if truthy m then m else JDict []
               | None => JDict []
               end in
      json_loads (json_dumps m) = Some m
  | _ => True
  end.

Fixpoint storable (json_dumps : json → string) (json_loads : string → option json)
    (fromisoformat : string → option datetime) (st : State) (ops : list op) : Prop :=
  match ops with
  | [] => True
  | o :: ops' =>
      stores json_dumps json_loads st o ∧
      storable json_dumps json_loads fromisoformat
        (run_op json_dumps fromisoformat st o) ops'
  end.

(** What the store holds of a count: the count itself up to [2**63 - 1],
    the float [2.0**63] beyond. *)
Definition stored_count (c : counter) : counter :=
  match c with
  | Int n => if decide (n ≤ max_int64) then Int n else Float63
  | Float63 => Float63
  end.

(** The object as the store has it. *)
Definition as_stored (c : Connection) : Connection :=
  mkConnection (ws_id c) (agent c) (metadata c) (connected_at c)
               (last_heartbeat c) (status c) (stored_count (message_count c))
               (db_id c).

(** The pool is in step with the [connections] table: [ws_id] is unique in
    the table (the UNIQUE column), every object of the pool is, as the
    store has it, what [_row_to_connection] makes of a row, and every row
    with [status = active] has its [ws_id] in the pool. *)
Definition synced (json_loads : string → option json) (st : State) : Prop :=
  wf st ∧
  NoDup (Connections.ws_id <$> connections (_conn st)) ∧
  (∀ k r, (k, r) ∈ _pool st →
     ∃ row, row ∈ connections (_conn st) ∧
            _row_to_connection json_loads row = as_stored <$> heap st !! r) ∧
  (∀ row, row ∈ connections (_conn st) → Connections.status row = "active" →
     Connections.ws_id row ∈ dict_keys (_pool st)).

(** ** The command line: [main] *)

(** [args], the namespace [build_parser().parse_args(argv)] returns, by
    subcommand; an option left out on the command line is [None] where the
    parser gives it no default.  [type=int] gives a Python [int]. *)
Inductive command : Type :=
  | CmdConnect (agent : string) (ws_id : option string) (metadata : string)
  | CmdDisconnect (ws_id : string)
  | CmdList
  | CmdBroadcast (message : string) (agent : option string) (msg_type : string)
  | CmdSend (ws_id message : string)
  | CmdHeartbeat (ws_id : string) (latency : option Z)
  | CmdHeartbeatCheck (timeout : Z)
  | CmdHistory (ws_id : option string) (limit : Z)
  | CmdStats.

(** What one run of [main] reads from its environment: the values of
    [uuid.uuid4()], of [datetime.utcnow().isoformat()] and of SQLite's
    [datetime('now')], by order of the call, and [datetime.utcnow()]. *)
Record Env : Type := mkEnv {
  env_uuid4 : nat → string;
  env_isoformat : nat → string;
  env_utcnow : Z;
  env_sql_now : nat → string
}.

(** What a run of [main] leaves: how it ended, with the status of
    [sys.exit] ([0] when [main] returns) or with the exception that left
    it; the texts of its [print] calls to each stream, in order; and the
    store as committed.  (The interpreter writes the traceback of the
    exception to the error stream; it is not part of [stderr].) *)
Record Outcome : Type := mkOutcome {
  ending : result Z;
  stdout : list string;
  stderr : list string;
  store : DB
}.

(** The exit status of the process: an exception that leaves [main] ends
    the interpreter with status 1. *)
Definition exit_status (out : Outcome) : Z :=
  match ending out with
  | Ok n => n
  | Raise _ => 1
  end.

(** [print("Connection not found", file=sys.stderr); sys.exit(1)] *)
Definition not_found (d : DB) : Outcome :=
  mkOutcome (Ok 1) [] ["Connection not found"] d.

(** [f"{n:5d}"]: an [int] only. *)
Definition format_5d (c : counter) : result string :=
  match c with
  | Int n => Ok (rjust 5 (pretty n))
  | Float63 => Raise ValueError
  end.

(** The line [list] prints for a connection. *)
Definition connection_line (c : Connection) : result string :=
  match format_5d (message_count c) with
  | Ok msgs =>
      Ok ("  " +:+ str_take 16 (ws_id c) +:+ "... agent=" +:+
          ljust 20 (agent c) +:+ " msgs=" +:+ msgs +:+
          " hb=" +:+ str_take 19 (last_heartbeat c))
  | Raise e => Raise e
  end.

(** [for c in conns: print(...)]: the lines printed, and the exception
    that ended the loop, if any. *)
Fixpoint print_connections (conns : list Connection) : list string * option exn :=
  match conns with
  | [] => ([], None)
  | c :: rest =>
      match connection_line c with
      | Ok line => let '(lines, e) := print_connections rest in (line :: lines, e)
      | Raise e => ([], Some e)
      end
  end.

(** The line [history] prints for a message. *)
Definition history_line (r : Messages.row) : string :=
  "  [" +:+ str_take 19 (Messages.sent_at r) +:+ "] " +:+
  ljust 12 (Messages.msg_type r) +:+ " " +:+ str_take 60 (Messages.content r).

Section cli.
Variable json_dumps : json → string.
Variable json_loads : string → option json.
Variable fromisoformat : string → option datetime.
(** [json.dumps(stats, indent=2)] *)
Variable stats_dumps : Stats → string.

(** [main], on the store [get_db] opened.  An exception that leaves a
    call leaves [main]; what the call had not committed is lost with the
    process.  (The branch of [connect] for a reference without an object
    is there for totality.) *)
Definition main (env : Env) (args : command) (db : DB) : Outcome :=
  match ConnectionPool json_loads db with
  | None => mkOutcome (Raise JSONDecodeError) [] [] db
  | Some pool =>
      match args with
      | CmdConnect a ws text =>
          let w := match ws with
                   | Some w =>
                       if decide (w = String.EmptyString) then env_uuid4 env 0 else w
                   | None => env_uuid4 env 0
                   end in
          match json_loads text with
          | None => mkOutcome (Raise JSONDecodeError) [] [] (_conn pool)
          | Some metadata =>
              match add_connection json_dumps pool w a (Some metadata)
                      (env_isoformat env 0) (env_isoformat env 1) with
              | (Ok r, st) =>
                  mkOutcome (Ok 0)
                    match heap st !! r with
                    | Some c =>
                        ["Connected: " +:+ ws_id c +:+ " (agent=" +:+ agent c +:+ ")"]
                    | None => []
                    end [] (_conn st)
              | (Raise e, st) => mkOutcome (Raise e) [] [] (_conn st)
              end
          end
      | CmdDisconnect w =>
          let '(ok, st) := remove_connection pool w (env_sql_now env 0) in
          if ok then mkOutcome (Ok 0) ["Disconnected: " +:+ w] [] (_conn st)
          else not_found (_conn st)
      | CmdList =>
          let conns := omap (λ r, heap pool !! r) (get_active_connections pool) in
          let '(lines, e) := print_connections conns in
          mkOutcome (match e with None => Ok 0 | Some e => Raise e end)
            (match conns with
             | [] => ["No active connections."]
             | _ => []
             end ++ lines) [] (_conn pool)
      | CmdBroadcast message a mty =>
          let filt := match a with
                      | Some a' =>
                          if decide (a' = String.EmptyString) then None
                          else Some (λ c, bool_decide (agent c = a'))
                      | None => None
                      end in
          let '(delivered, st) :=
            broadcast json_dumps pool (JStr message) filt mty None
              (env_uuid4 env) (env_sql_now env) in
          mkOutcome (Ok 0)
            ["Broadcast to " +:+ pretty (length delivered) +:+ " connection(s)"] []
            (_conn st)
      | CmdSend w message =>
          let '(msg, st) :=
            send_message json_dumps pool w (JStr message) "data" None
              (env_uuid4 env 0) (env_isoformat env 0) (env_sql_now env 0) in
          match msg with
          | Some m =>
              mkOutcome (Ok 0)
                ["Sent message " +:+ Message.msg_id m +:+ " to " +:+ w] [] (_conn st)
          | None => not_found (_conn st)
          end
      | CmdHeartbeat w latency =>
          match update_heartbeat pool w latency (env_isoformat env 0)
                  (env_sql_now env 0) with
          | (Ok true, st) =>
              mkOutcome (Ok 0) ["Heartbeat updated for " +:+ w] [] (_conn st)
          | (Ok false, st) => not_found (_conn st)
          | (Raise e, _) => mkOutcome (Raise e) [] [] (_conn pool)
          end
      | CmdHeartbeatCheck timeout =>
          match heartbeat_check fromisoformat pool (env_utcnow env) timeout
                  (env_sql_now env) with
          | (Ok result, st) =>
              mkOutcome (Ok 0)
                (("Active: " +:+ pretty (length (active result)) +:+
                  "  Timed out: " +:+ pretty (length (timed_out result)))
                 :: ((λ w, "  Removed: " +:+ w) <$> timed_out result)) []
                (_conn st)
          | (Raise e, st) => mkOutcome (Raise e) [] [] (_conn st)
          end
      | CmdHistory ws limit =>
          match get_message_history (_conn pool) ws limit with
          | Ok rows => mkOutcome (Ok 0) (history_line <$> rows) [] (_conn pool)
          | Raise e => mkOutcome (Raise e) [] [] (_conn pool)
          end
      | CmdStats =>
          mkOutcome (Ok 0) [stats_dumps (connection_stats pool)] [] (_conn pool)
      end
  end.

(** The commands a run of the command line is made of, each a process of
    its own on the store the one before left. *)
Fixpoint session (envs : list Env) (cmds : list command) (db : DB)
    : list Outcome * DB :=
  match cmds, envs with
  | args :: cmds', env :: envs' =>
      let out := main env args db in
      let '(outs, db') := session envs' cmds' (store out) in
      (out :: outs, db')
  | _, _ => ([], db)
  end.
End cli.

(** What the store must satisfy for a pool to be built on it: the UNIQUE
    constraint on [ws_id], and metadata that is JSON in the rows [__init__]
    reads. *)
Definition loadable (json_loads : string → option json) (d : DB) : Prop :=
  NoDup (Connections.ws_id <$> connections d) ∧
  Forall (λ row, Connections.status row = "active" →
                 is_Some (json_loads (Connections.metadata row)))
         (connections d).

#[local] Instance loadable_dec json_loads d : Decision (loadable json_loads d) :=
  decide (NoDup (Connections.ws_id <$> connections d) ∧
          Forall (λ row, Connections.status row = "active" →
                         is_Some (json_loads (Connections.metadata row)))
                 (connections d)).

(** When the [--metadata] of a [connect] is JSON, [json.loads] reads back
    what [json.dumps] makes of it. *)
Definition keeps (json_dumps : json → string) (json_loads : string → option json)
    (args : command) : Prop :=
  match args with
  | CmdConnect _ _ text =>
      match json_loads text with
      | Some m =>
          let m' := if truthy m then m else JDict [] in
          json_loads (json_dumps m') = Some m'
      | None => True
      end
  | _ => True
  end.

(** The store holds a row for [w] with [status = active]. *)
Definition connected (d : DB) (w : string) : Prop :=
  Exists (λ row, Connections.ws_id row = w ∧ Connections.status row = "active")
         (connections d).

#[local] Instance connected_dec d w : Decision (connected d w) :=
  decide (Exists (λ row, Connections.ws_id row = w ∧
                         Connections.status row = "active") (connections d)).

(** [json.dumps(stats, indent=2)]. *)
Definition newline : string := String.String "010"%char String.EmptyString.

Fixpoint agent_items (l : list (string * Z)) : string :=
  match l with
  | [] => String.EmptyString
  | [(k, v)] => "    " +:+ quoted k +:+ ": " +:+ pretty v +:+ newline
  | (k, v) :: l' =>
      "    " +:+ quoted k +:+ ": " +:+ pretty v +:+ "," +:+ newline +:+ agent_items l'
  end.

Definition plain_stats (s : Stats) : string :=
  "{" +:+ newline +:+
  "  " +:+ quoted "active_connections" +:+ ": " +:+
    pretty (active_connections s) +:+ "," +:+ newline +:+
  "  " +:+ quoted "total_ever_connected" +:+ ": " +:+
    pretty (total_ever_connected s) +:+ "," +:+ newline +:+
  "  " +:+ quoted "total_messages" +:+ ": " +:+
    pretty (total_messages s) +:+ "," +:+ newline +:+
  "  " +:+ quoted "agents" +:+ ": " +:+
    match agents s with
    | [] => "{}"
    | l => "{" +:+ newline +:+ agent_items l +:+ "  }"
    end +:+ newline +:+ "}".

(** An environment: the clock reads 11:59:50, 11:59:51, ... on the calls
    to [isoformat], noon on [utcnow()] and in SQLite. *)
Definition env0 : Env :=
  mkEnv uuids (λ i, "2024-01-01T11:59:5" +:+ pretty i +:+ ".000001") noon at_noon.

(** ws-1 connects as alice, gets a message, is listed and disconnects; the
    second [disconnect] finds nothing. *)
Definition evening : list command :=
  [CmdConnect "alice" (Some "ws-1") "{}";
   CmdSend "ws-1" "hello";
   CmdList;
   CmdDisconnect "ws-1";
   CmdDisconnect "ws-1";
   CmdStats].

(** A connection whose [ws_id] and agent are not ASCII connects and gets
    a message. *)
Definition bistro : list command :=
  [CmdConnect "zoë" (Some "café-crème-brûlée-0001") "{}";
   CmdSend "café-crème-brûlée-0001" "hello"].
Definition bistro_db : DB :=
  (session plain_dumps plain_loads iso_parse plain_stats (replicate 2 env0)
     bistro empty_db).2.

(** A connection is added with a count of [2**63 - 1] and gets two
    messages. *)
Definition brim : list op :=
  [NewConnection brimful; Add 0%nat;
   SendMessage "ws-1" (JStr "one") "data" None "uuid-1"
     "2024-01-01T12:00:00.000001" "2024-01-01 12:00:00";
   SendMessage "ws-1" (JStr "two") "data" None "uuid-2"
     "2024-01-01T12:00:01.000001" "2024-01-01 12:00:01"].

(** * Properties *)

(** ** The dictionary *)

Section dict_facts.
Context {V : Type}.
Implicit Types (d : list (string * V)) (k : string) (v : V).

Lemma dict_get_set_eq d k v : dict_get (dict_set d k v) k = Some v.
Proof.
  induction d as [|[k' v'] d IH]; simpl.
  - by rewrite decide_True.
  - destruct (decide (k' = k)) as [->|Hne]; simpl.
    + by rewrite decide_True.
    + by rewrite decide_False.
Qed.

Lemma dict_get_set_ne d k k' v :
  k ≠ k' → dict_get (dict_set d k v) k' = dict_get d k'.
Proof.
  intros Hne. induction d as [|[k0 v0] d IH]; simpl.
  - by rewrite decide_False.
  - destruct (decide (k0 = k)) as [->|Hk]; simpl.
    + by rewrite !decide_False.
    + destruct (decide (k0 = k')); [done | apply IH].
Qed.

Lemma dict_del_elem d k k' v' :
  (k', v') ∈ dict_del d k ↔ k' ≠ k ∧ (k', v') ∈ d.
Proof. unfold dict_del. by rewrite list_elem_of_filter. Qed.

Lemma dict_get_Some_elem d k v : dict_get d k = Some v → (k, v) ∈ d.
Proof.
  induction d as [|[k' v'] d IH]; simpl; [done|].
  destruct (decide (k' = k)) as [->|Hne].
  - intros [= ->]. apply list_elem_of_here.
  - intros H. apply list_elem_of_further. by apply IH.
Qed.

Lemma dict_get_None d k : dict_get d k = None ↔ k ∉ dict_keys d.
Proof.
  unfold dict_keys. induction d as [|[k' v'] d IH]; simpl.
  - split; [intros _; apply not_elem_of_nil | done].
  - rewrite not_elem_of_cons. destruct (decide (k' = k)) as [->|Hne].
    + split; [done | by intros [? _]].
    + rewrite IH. split; [by intros ?; split | by intros [_ ?]].
Qed.

Lemma dict_get_is_Some d k : is_Some (dict_get d k) ↔ k ∈ dict_keys d.
Proof.
  rewrite <-not_eq_None_Some, dict_get_None.
  split; [apply dec_stable | by intros ? ?].
Qed.

Lemma dict_elem_get d k v :
  NoDup (dict_keys d) → (k, v) ∈ d → dict_get d k = Some v.
Proof.
  unfold dict_keys. induction d as [|[k' v'] d IH]; simpl.
  - by intros _ ?%elem_of_nil.
  - rewrite NoDup_cons. intros [Hk' Hnd] [[= -> ->]|Hin]%elem_of_cons.
    + by rewrite decide_True.
    + destruct (decide (k' = k)) as [->|Hne]; [|by apply IH].
      destruct Hk'. apply list_elem_of_fmap. by exists (k, v).
Qed.

Lemma dict_get_del_eq d k : dict_get (dict_del d k) k = None.
Proof.
  apply dict_get_None. unfold dict_keys.
  intros ([k' v'] & -> & [? _]%dict_del_elem)%list_elem_of_fmap. done.
Qed.

Lemma dict_get_del_ne d k k' :
  k ≠ k' → dict_get (dict_del d k) k' = dict_get d k'.
Proof.
  intros Hne. unfold dict_del. induction d as [|[k0 v0] d IH]; [done|].
  rewrite filter_cons. simpl. destruct (decide (k0 ≠ k)) as [Hk|Hk]; simpl.
  - destruct (decide (k0 = k')); [done | apply IH].
  - apply dec_stable in Hk as ->. by rewrite decide_False.
Qed.

Lemma dict_del_absent d k : dict_get d k = None → dict_del d k = d.
Proof.
  unfold dict_del. induction d as [|[k' v'] d IH]; simpl; [done|].
  destruct (decide (k' = k)) as [->|Hne]; [done|].
  intros H. rewrite filter_cons_True by done. by rewrite IH.
Qed.

Lemma dict_del_keys d k :
  dict_keys (dict_del d k) = filter (λ k', k' ≠ k) (dict_keys d).
Proof.
  unfold dict_keys, dict_del. induction d as [|[k' v'] d IH]; [done|].
  rewrite fmap_cons, !filter_cons. simpl.
  destruct (decide (k' ≠ k)); [rewrite fmap_cons; simpl|]; by rewrite IH.
Qed.

Lemma dict_del_NoDup d k : NoDup (dict_keys d) → NoDup (dict_keys (dict_del d k)).
Proof. rewrite dict_del_keys. apply NoDup_filter. Qed.

Lemma dict_set_keys d k v :
  dict_keys (dict_set d k v) =
    if decide (k ∈ dict_keys d) then dict_keys d else dict_keys d ++ [k].
Proof.
  unfold dict_keys. induction d as [|[k0 v0] d IH].
  - cbn [dict_set fmap list_fmap]. rewrite decide_False; [done | apply not_elem_of_nil].
  - cbn [dict_set]. destruct (decide (k0 = k)) as [->|Hne].
    + rewrite !fmap_cons. cbn [fst]. rewrite decide_True; [done | apply list_elem_of_here].
    + rewrite !fmap_cons. cbn [fst]. rewrite IH.
      destruct (decide (k ∈ d.*1)) as [Hin|Hin].
      * rewrite decide_True; [done | by apply list_elem_of_further].
      * rewrite decide_False; [done|].
        rewrite not_elem_of_cons. by split.
Qed.

Lemma dict_set_NoDup d k v :
  NoDup (dict_keys d) → NoDup (dict_keys (dict_set d k v)).
Proof.
  intros Hnd. rewrite dict_set_keys. case_decide; [done|].
  apply NoDup_app. split_and!; [done | | apply NoDup_singleton].
  intros x Hx ->%list_elem_of_singleton. done.
Qed.

Lemma dict_set_elem d k v k' v' :
  NoDup (dict_keys d) → (k', v') ∈ dict_set d k v →
  (k' = k ∧ v' = v) ∨ (k' ≠ k ∧ (k', v') ∈ d).
Proof.
  unfold dict_keys. induction d as [|[k0 v0] d IH]; simpl.
  - intros _ [= -> ->]%list_elem_of_singleton. by left.
  - rewrite NoDup_cons. intros [Hk0 Hnd].
    destruct (decide (k0 = k)) as [->|Hne].
    + intros [[= -> ->]|Hin]%elem_of_cons; [by left|].
      right. split; [|by apply list_elem_of_further].
      intros ->. destruct Hk0. apply list_elem_of_fmap. by exists (k, v').
    + intros [[= -> ->]|Hin]%elem_of_cons.
      * right. split; [done | apply list_elem_of_here].
      * destruct (IH Hnd Hin) as [?|[? ?]]; [by left|].
        right. split; [done|]. by apply list_elem_of_further.
Qed.

Lemma dict_set_length d k v :
  length (dict_set d k v) =
    match dict_get d k with Some _ => length d | None => S (length d) end.
Proof.
  induction d as [|[k0 v0] d IH]; simpl; [done|].
  destruct (decide (k0 = k)); simpl; [done|].
  rewrite IH. by destruct (dict_get d k).
Qed.

End dict_facts.

(** ** The invariant is established and kept *)

Section invariant.
Variable json_dumps : json → string.
Variable json_loads : string → option json.
Variable fromisoformat : string → option datetime.

Lemma wf_spec st :
  wf st ↔
  NoDup (dict_keys (_pool st)) ∧
  ∀ k r, (k, r) ∈ _pool st → ∃ c, heap st !! r = Some c ∧ ws_id c = k.
Proof.
  unfold wf. rewrite Forall_forall. split; intros [Hnd Hobj]; (split; [done|]).
  - intros k r Hin. specialize (Hobj _ Hin). simpl in Hobj.
    destruct (heap st !! r) as [c|]; [|done]. exists c. split; [done|].
    by injection Hobj.
  - intros [k r] Hin. destruct (Hobj k r Hin) as (c & Hc & <-).
    simpl. by rewrite Hc.
Qed.

Lemma wf_empty d h : wf (mkState d [] h).
Proof.
  apply wf_spec. split; simpl.
  - apply NoDup_nil_2.
  - by intros k r ?%elem_of_nil.
Qed.

Lemma wf_with_conn d st : wf st → wf (with_conn d st).
Proof. done. Qed.

(** Changing fields other than [ws_id] of one object keeps the invariant. *)
Lemma wf_alter d f r st :
  (∀ c, ws_id (f c) = ws_id c) →
  wf st → wf (mkState d (_pool st) (alter f r (heap st))).
Proof.
  intros Hf [Hnd Hobj]%wf_spec. apply wf_spec. split; [done|]. simpl.
  intros k r' Hin.
  destruct (Hobj k r' Hin) as (c & Hc & Hk).
  destruct (decide (r = r')) as [->|Hne].
  - exists (f c). rewrite lookup_alter_eq, Hc. by rewrite Hf.
  - exists c. by rewrite lookup_alter_ne.
Qed.

Lemma new_connection_fresh st c : heap st !! (new_connection st c).1 = None.
Proof. simpl. apply not_elem_of_dom, is_fresh. Qed.

Lemma wf_new_connection st c : wf st → wf (new_connection st c).2.
Proof.
  intros [Hnd Hobj]%wf_spec. apply wf_spec. split; [done|]. simpl.
  intros k r Hin.
  destruct (Hobj k r Hin) as (c' & Hc' & Hk). exists c'. split; [|done].
  rewrite lookup_insert_ne; [done|]. intros <-.
  pose proof (new_connection_fresh st c) as Hfr. simpl in Hfr. congruence.
Qed.

(** Storing object [r] under its own [ws_id]. *)
Lemma wf_store d st r c c' :
  heap st !! r = Some c → ws_id c' = ws_id c →
  wf st →
  wf (mkState d (dict_set (_pool st) (ws_id c) r) (<[r := c']> (heap st))).
Proof.
  intros Hr Hws [Hnd Hobj]%wf_spec. apply wf_spec. split; simpl.
  - by apply dict_set_NoDup.
  - intros k r' Hin. apply dict_set_elem in Hin as [[-> ->]|[Hk Hin]]; [| |done].
    + exists c'. by rewrite lookup_insert_eq.
    + destruct (Hobj k r' Hin) as (c0 & Hc0 & Hk0). exists c0. split; [|done].
      rewrite lookup_insert_ne; [done|]. intros ->. congruence.
Qed.

(** [add], unfolded: the two ways it ends. *)
Lemma add_Ok st r c :
  heap st !! r = Some c → bindable (message_count c) →
  add json_dumps st r =
    (Ok r,
     mkState
       (mkDB (filter (λ row, Connections.ws_id row ≠ ws_id c) (connections (_conn st))
              ++ [Connections.mk
                    (next_rowid (seq_connections (_conn st))
                       (Connections.id <$> connections (_conn st)))
                    (ws_id c) (agent c) (json_dumps (metadata c)) (connected_at c)
                    (last_heartbeat c) (status c) (message_count c) None])
             (messages (_conn st)) (heartbeat_log (_conn st))
             (next_rowid (seq_connections (_conn st))
                (Connections.id <$> connections (_conn st)))
             (seq_messages (_conn st)) (seq_heartbeat_log (_conn st)))
       (dict_set (_pool st) (ws_id c) r)
       (<[r := set_db_id
                 (Some (next_rowid (seq_connections (_conn st))
                          (Connections.id <$> connections (_conn st)))) c]>
          (heap st))).
Proof.
  intros Hr Hb. unfold add, sql_insert_or_replace_connection.
  by rewrite Hr, decide_True.
Qed.

Lemma add_Raise st r c :
  heap st !! r = Some c → ¬ bindable (message_count c) →
  add json_dumps st r = (Raise OverflowError, st).
Proof.
  intros Hr Hb. unfold add, sql_insert_or_replace_connection.
  by rewrite Hr, decide_False.
Qed.

Lemma wf_add st r : wf st → wf (add json_dumps st r).2.
Proof.
  intros Hwf. destruct (heap st !! r) as [c|] eqn:Hr.
  - destruct (decide (bindable (message_count c))) as [Hb|Hb].
    + rewrite (add_Ok st r c Hr Hb). simpl. by eapply wf_store.
    + by rewrite (add_Raise st r c Hr Hb).
  - unfold add. by rewrite Hr.
Qed.

Lemma wf_remove st w now : wf st → wf (remove st w now).2.
Proof.
  intros Hwf. unfold remove. destruct (dict_get _ _); [|done].
  apply wf_spec in Hwf as [Hnd Hobj]. apply wf_spec. split; simpl.
  - by apply dict_del_NoDup.
  - intros k r [_ Hin]%dict_del_elem. by apply Hobj.
Qed.

Lemma wf_update_heartbeat st w lat ts now :
  wf st → wf (update_heartbeat st w lat ts now).2.
Proof.
  intros Hwf. unfold update_heartbeat. destruct (dict_get _ _); [|done].
  destruct (sql_insert_heartbeat_log _ _ _ _); by apply wf_alter.
Qed.

Lemma wf_increment_message_count st w : wf st → wf (increment_message_count st w).
Proof.
  intros Hwf. unfold increment_message_count. destruct (dict_get _ _); [|done].
  by apply wf_alter.
Qed.

Lemma wf_add_connection st w a meta ts1 ts2 :
  wf st → wf (add_connection json_dumps st w a meta ts1 ts2).2.
Proof.
  intros Hwf. unfold add_connection.
  destruct (new_connection st _) as [r st1] eqn:Hnew.
  apply wf_add. replace st1 with (new_connection st
    (mkConnection w a match meta with
                       | Some m => if truthy m then m else JDict []
                       | None => JDict []
                       end ts1 ts2 "active" 0 None)).2 by by rewrite Hnew.
  by apply wf_new_connection.
Qed.

Lemma wf_broadcast_loop body mty sender uuid4 now targets :
  ∀ i st acc, wf st → wf (broadcast_loop body mty sender uuid4 now i targets st acc).2.
Proof.
  induction targets as [|r targets IH]; intros i st acc Hwf; simpl; [done|].
  destruct (heap st !! r) as [c|]; [|by apply IH].
  apply IH. by apply wf_increment_message_count, wf_with_conn.
Qed.

Lemma wf_broadcast st m f mty sender uuid4 now :
  wf st → wf (broadcast json_dumps st m f mty sender uuid4 now).2.
Proof. apply wf_broadcast_loop. Qed.

Lemma wf_heartbeat_loop now cutoff sql_now snapshot :
  ∀ i st res, wf st →
    wf (heartbeat_loop fromisoformat now cutoff sql_now i snapshot st res).2.
Proof.
  induction snapshot as [|r snapshot IH]; intros i st res Hwf; simpl; [done|].
  destruct (heap st !! r) as [c|]; [|by apply IH].
  destruct (fromisoformat (last_heartbeat c)) as [[t|t o]|]; [|done|];
    case_decide; apply IH; try done; by apply wf_remove.
Qed.

(** The state [heartbeat_check] leaves is the state its sweep leaves. *)
Lemma heartbeat_check_state st now timeout sql_now :
  (heartbeat_check fromisoformat st now timeout sql_now).2
  = (sweep fromisoformat st now timeout sql_now).2.
Proof.
  unfold heartbeat_check.
  by destruct (sweep fromisoformat st now timeout sql_now) as [[res [e|]] st'].
Qed.

Lemma wf_sweep st now timeout sql_now :
  wf st → wf (sweep fromisoformat st now timeout sql_now).2.
Proof.
  intros Hwf. unfold sweep. case_decide; [|done]. by apply wf_heartbeat_loop.
Qed.

Lemma wf_heartbeat_check st now timeout sql_now :
  wf st → wf (heartbeat_check fromisoformat st now timeout sql_now).2.
Proof. rewrite heartbeat_check_state. apply wf_sweep. Qed.

Lemma wf_send_message st w m mty sender uuid ts now :
  wf st → wf (send_message json_dumps st w m mty sender uuid ts now).2.
Proof.
  intros Hwf. unfold send_message. destruct (get st w); [|done].
  simpl. by apply wf_increment_message_count, wf_with_conn.
Qed.

Lemma wf_run_op st o : wf st → wf (run_op json_dumps fromisoformat st o).
Proof.
  intros Hwf. destruct o; simpl.
  - by apply wf_new_connection.
  - by apply wf_add.
  - by apply wf_add_connection.
  - by apply wf_remove.
  - by apply wf_update_heartbeat.
  - by apply wf_increment_message_count.
  - by apply wf_broadcast.
  - by apply wf_heartbeat_check.
  - by apply wf_send_message.
Qed.

Lemma wf_run ops : ∀ st, wf st → wf (run json_dumps fromisoformat st ops).
Proof.
  induction ops as [|o ops IH]; intros st Hwf; simpl; [done|].
  by apply IH, wf_run_op.
Qed.

Lemma wf_load_active rows :
  ∀ st st', wf st → _load_active json_loads rows st = Some st' → wf st'.
Proof.
  induction rows as [|row rows IH]; intros st st' Hwf; simpl.
  - by intros [= <-].
  - destruct (_row_to_connection json_loads row) as [c|] eqn:Hc; [|done].
    simpl. apply IH.
    pose proof (new_connection_fresh st c) as Hfr. simpl in Hfr.
    apply wf_spec in Hwf as [Hnd Hobj]. apply wf_spec. split; simpl.
    + by apply dict_set_NoDup.
    + intros k r Hin. apply dict_set_elem in Hin as [[-> ->]|[Hk Hin]]; [| |done].
      * exists c. by rewrite lookup_insert_eq.
      * destruct (Hobj k r Hin) as (c0 & Hc0 & Hk0). exists c0. split; [|done].
        rewrite lookup_insert_ne; [done|]. intros Heq. rewrite Heq in Hfr.
        congruence.
Qed.

(** X15.  Every state the program reaches from a pool that [ConnectionPool]
    built, on whatever store, satisfies the invariant [wf]: the keys of the
    pool are unique and the object under a key carries that key as its
    [ws_id]. *)
Lemma wf_ConnectionPool conn st ops :
  ConnectionPool json_loads conn = Some st →
  wf (run json_dumps fromisoformat st ops).
Proof.
  intros Hinit. apply wf_run. eapply wf_load_active; [|done]. apply wf_empty.
Qed.

End invariant.

(** ** Single calls *)

Section calls.
Variable json_dumps : json → string.
Variable fromisoformat : string → option datetime.

Lemma remove_absent st w now : get st w = None → remove st w now = (false, st).
Proof. unfold get, remove. by intros ->. Qed.

Lemma remove_pool st w now : _pool (remove st w now).2 = dict_del (_pool st) w.
Proof.
  unfold remove. destruct (dict_get _ _) eqn:Hw; [done|].
  simpl. by rewrite dict_del_absent.
Qed.

Lemma remove_present_rows st w r now :
  get st w = Some r →
  connections (_conn (remove st w now).2) =
    where_ws_id w (mark_disconnected now) <$> connections (_conn st).
Proof. unfold get, remove. by intros ->. Qed.

Lemma remove_heap st w now : heap (remove st w now).2 = heap st.
Proof. unfold remove. by destruct (dict_get _ _). Qed.

Lemma get_remove_eq st w now : get (remove st w now).2 w = None.
Proof. unfold get. rewrite remove_pool. apply dict_get_del_eq. Qed.

(** In a state with the invariant, a key names one object and an object
    sits under one key. *)
Lemma wf_elem_get st w r : wf st → (w, r) ∈ _pool st → get st w = Some r.
Proof. intros [Hnd _]%wf_spec Hin. by apply dict_elem_get. Qed.

Lemma wf_get_ws_id st w r c :
  wf st → get st w = Some r → heap st !! r = Some c → ws_id c = w.
Proof.
  intros [_ Hobj]%wf_spec Hget%dict_get_Some_elem Hr.
  destruct (Hobj _ _ Hget) as (c' & Hc' & <-). congruence.
Qed.

Lemma wf_get_inj st w w' r :
  wf st → get st w = Some r → get st w' = Some r → w = w'.
Proof.
  intros Hwf Hw Hw'.
  apply wf_spec in Hwf as [Hnd Hobj].
  destruct (Hobj _ _ (dict_get_Some_elem _ _ _ Hw)) as (c & Hc & <-).
  destruct (Hobj _ _ (dict_get_Some_elem _ _ _ Hw')) as (c' & Hc' & <-).
  congruence.
Qed.

(** C4.  [send_message] to a [ws_id] with no entry in the pool returns
    [None] and leaves the whole state as it was: the store (no message
    row, no counter), the pool and every [Connection] object. *)
Theorem send_message_absent st w message mty sender uuid ts now :
  get st w = None →
  send_message json_dumps st w message mty sender uuid ts now = (None, st).
Proof. unfold send_message. by intros ->. Qed.

(** C7.  [remove] of a [ws_id] that is not in the pool, because it was
    never added or because it has been removed, returns [False] and
    changes nothing, however often it is repeated. *)
Theorem remove_absent_idempotent st w :
  (get st w = None ∨ ∃ st0 now0, st = (remove st0 w now0).2) →
  ∀ nows, remove_repeatedly st w nows = (replicate (length nows) false, st).
Proof.
  intros Habs.
  assert (get st w = None) as Hget.
  { destruct Habs as [?|(st0 & now0 & ->)]; [done | apply get_remove_eq]. }
  induction nows as [|now nows IH]; simpl; [done|].
  rewrite remove_absent by done. by rewrite IH.
Qed.

(** [update_heartbeat] of a [ws_id] in the pool, unfolded. *)
Lemma update_heartbeat_present st w r latency_ms ts now :
  get st w = Some r →
  update_heartbeat st w latency_ms ts now =
    if decide (bindable_opt latency_ms) then
      (Ok true,
       mkState
         (mkDB (where_ws_id w (row_set_last_heartbeat ts) <$> connections (_conn st))
               (messages (_conn st))
               (heartbeat_log (_conn st) ++
                [HeartbeatLog.mk
                   (next_rowid (seq_heartbeat_log (_conn st))
                      (HeartbeatLog.id <$> heartbeat_log (_conn st)))
                   w now latency_ms])
               (seq_connections (_conn st)) (seq_messages (_conn st))
               (next_rowid (seq_heartbeat_log (_conn st))
                  (HeartbeatLog.id <$> heartbeat_log (_conn st))))
         (_pool st) (alter (set_last_heartbeat ts) r (heap st)))
    else
      (Raise OverflowError,
       mkState (sql_update_last_heartbeat (_conn st) ts w) (_pool st)
               (alter (set_last_heartbeat ts) r (heap st))).
Proof.
  unfold get, update_heartbeat, sql_insert_heartbeat_log. intros ->.
  by case_decide.
Qed.

Lemma update_heartbeat_memory st w r latency_ms ts now :
  get st w = Some r →
  _pool (update_heartbeat st w latency_ms ts now).2 = _pool st ∧
  heap (update_heartbeat st w latency_ms ts now).2
    = alter (set_last_heartbeat ts) r (heap st).
Proof.
  intros Hget. rewrite (update_heartbeat_present _ _ _ _ _ _ Hget).
  by case_decide.
Qed.

Lemma update_heartbeat_absent st w latency_ms ts now :
  get st w = None → update_heartbeat st w latency_ms ts now = (Ok false, st).
Proof. unfold get, update_heartbeat. by intros ->. Qed.

Lemma Forall2_fmap_where {A} (P : A → Prop) `{!∀ x, Decision (P x)}
    (R : A → A → Prop) (f : A → A) (l : list A) :
  (∀ x, R x (f x)) →
  Forall2 (λ x y, if decide (P x) then R x y else y = x) l
          ((λ x, if decide (P x) then f x else x) <$> l).
Proof.
  intros Hf. induction l as [|x l IH]; simpl; constructor; [|done].
  by case_decide.
Qed.

Lemma refreshed_row ts row : refreshed ts row (row_set_last_heartbeat ts row).
Proof. unfold refreshed. simpl. split_and!; done. Qed.

Lemma bindable_opt_spec lat :
  bindable_opt lat ↔ ∀ n, lat = Some n → - 2 ^ 63 ≤ n ≤ 2 ^ 63 - 1.
Proof.
  destruct lat as [n|]; simpl.
  - split; [by intros Hn ? [= <-] | intros Hn; by apply Hn].
  - split; [done|]. by intros _.
Qed.

Lemma not_bindable_opt_spec lat :
  ¬ bindable_opt lat ↔ ∃ n, lat = Some n ∧ ¬ (- 2 ^ 63 ≤ n ≤ 2 ^ 63 - 1).
Proof.
  destruct lat as [n|]; simpl.
  - split; [intros Hn; by exists n | by intros (? & [= <-] & ?)].
  - split; [by intros [] | by intros (? & ? & _)].
Qed.

(** C10, as amended.  [update_heartbeat] of a [ws_id] in the pool returns
    [True] when the latency is absent or a signed 64-bit integer, and
    appends one row
    to [heartbeat_log]; with any other latency it raises [OverflowError]
    and appends none.  Either way the object under that [ws_id] changes in
    [last_heartbeat] only, the pool holds the same keys and objects, every
    other object is as before, no message is written, and in the store
    only [last_heartbeat] of the rows of that [ws_id] is written. *)
Theorem update_heartbeat_frame st w r c latency_ms ts now :
  wf st → get st w = Some r → heap st !! r = Some c →
  ∃ res st' c',
    update_heartbeat st w latency_ms ts now = (res, st') ∧
    ((∀ n, latency_ms = Some n → - 2 ^ 63 ≤ n ≤ 2 ^ 63 - 1) →
       res = Ok true ∧
       ∃ hb, heartbeat_log (_conn st') = heartbeat_log (_conn st) ++ [hb] ∧
             HeartbeatLog.ws_id hb = w ∧ HeartbeatLog.ts hb = now ∧
             HeartbeatLog.latency_ms hb = latency_ms) ∧
    ((∃ n, latency_ms = Some n ∧ ¬ (- 2 ^ 63 ≤ n ≤ 2 ^ 63 - 1)) →
       res = Raise OverflowError ∧
       heartbeat_log (_conn st') = heartbeat_log (_conn st)) ∧
    heap st' !! r = Some c' ∧
    last_heartbeat c' = ts ∧
    ws_id c' = ws_id c ∧ agent c' = agent c ∧ metadata c' = metadata c ∧
    status c' = status c ∧ message_count c' = message_count c ∧
    connected_at c' = connected_at c ∧ db_id c' = db_id c ∧
    _pool st' = _pool st ∧
    (∀ r', r' ≠ r → heap st' !! r' = heap st !! r') ∧
    (∀ w' r', w' ≠ w → get st w' = Some r' →
       get st' w' = Some r' ∧ heap st' !! r' = heap st !! r') ∧
    messages (_conn st') = messages (_conn st) ∧
    Forall2 (λ row row',
               if decide (Connections.ws_id row = w) then refreshed ts row row'
               else row' = row)
            (connections (_conn st)) (connections (_conn st')).
Proof.
  intros Hwf Hget Hr. rewrite (update_heartbeat_present st w r) by done.
  assert (∀ st', heap st' = alter (set_last_heartbeat ts) r (heap st) →
                 _pool st' = _pool st →
            heap st' !! r = Some (set_last_heartbeat ts c) ∧
            (∀ r', r' ≠ r → heap st' !! r' = heap st !! r') ∧
            (∀ w' r', w' ≠ w → get st w' = Some r' →
               get st' w' = Some r' ∧ heap st' !! r' = heap st !! r')) as Hmem.
  { intros st' -> Hpool. rewrite lookup_alter_eq, Hr. split_and!; [done| |].
    - intros r' Hne. by rewrite lookup_alter_ne.
    - intros w' r' Hne Hget'. unfold get in *. rewrite Hpool. split; [done|].
      rewrite lookup_alter_ne; [done|]. intros <-.
      apply Hne. by eapply wf_get_inj. }
  case_decide as Hb.
  - set (st' := mkState _ _ _).
    destruct (Hmem st' eq_refl eq_refl) as (Hc' & Hothers & Hkeys).
    exists (Ok true), st', (set_last_heartbeat ts c). split; [done|].
    split_and!; try done.
    + intros _. split; [done|]. by eexists.
    + by intros ?%not_bindable_opt_spec.
    + simpl. apply (Forall2_fmap_where (λ x, Connections.ws_id x = w)).
      apply refreshed_row.
  - set (st' := mkState _ _ _).
    destruct (Hmem st' eq_refl eq_refl) as (Hc' & Hothers & Hkeys).
    exists (Raise OverflowError), st', (set_last_heartbeat ts c). split; [done|].
    split_and!; try done.
    + by intros ?%bindable_opt_spec.
    + simpl. apply (Forall2_fmap_where (λ x, Connections.ws_id x = w)).
      apply refreshed_row.
Qed.

End calls.

(** ** The heartbeat sweep *)

Section sweep.
Variable fromisoformat : string → option datetime.

Lemma dict_get_foldl_del {V} (d : list (string * V)) (ws : list string) w :
  dict_get (foldl dict_del d ws) w =
    if decide (w ∈ ws) then None else dict_get d w.
Proof.
  revert d. induction ws as [|k ws IH]; intros d; cbn [foldl].
  - rewrite decide_False; [done | apply not_elem_of_nil].
  - rewrite IH. destruct (decide (w ∈ ws)) as [Hin|Hin].
    + rewrite decide_True; [done | by apply list_elem_of_further].
    + destruct (decide (k = w)) as [->|Hne].
      * rewrite decide_True; [apply dict_get_del_eq | apply list_elem_of_here].
      * rewrite decide_False; [by apply dict_get_del_ne|].
        rewrite not_elem_of_cons. by split.
Qed.

Section loop.
Variables (now cutoff : Z) (sql_now : nat → string).

Local Abbreviation loop := (heartbeat_loop fromisoformat now cutoff sql_now).
Local Abbreviation old := (stale fromisoformat now cutoff).
Local Abbreviation reached := (reached fromisoformat).

(** One round of the loop. *)
Lemma heartbeat_loop_skip i r snapshot st res :
  heap st !! r = None → loop i (r :: snapshot) st res = loop (S i) snapshot st res.
Proof. intros Hr. simpl. by rewrite Hr. Qed.

Lemma heartbeat_loop_step i r snapshot st res c :
  heap st !! r = Some c →
  loop i (r :: snapshot) st res =
    if decide (aware fromisoformat c) then (res, Some TypeError, st)
    else if decide (old c) then
      loop (S i) snapshot (remove st (ws_id c) (sql_now i)).2
           (mkSweep (active res) (timed_out res ++ [ws_id c]))
    else
      loop (S i) snapshot st (mkSweep (active res ++ [ws_id c]) (timed_out res)).
Proof.
  intros Hr. simpl. rewrite Hr.
  destruct (decide (aware fromisoformat c)) as [(t & o & ->)|Ha]; [done|].
  destruct (decide (old c)) as [Ho|Ho]; unfold stale, heartbeat_of in Ho;
    destruct (fromisoformat (last_heartbeat c)) as [[t|t o]|] eqn:Hf;
    try (by destruct Ha; unfold aware; eauto); try done; by case_decide.
Qed.

Lemma heartbeat_loop_heap snapshot :
  ∀ i st res, heap (loop i snapshot st res).2 = heap st.
Proof.
  induction snapshot as [|r snapshot IH]; intros i st res; [done|].
  destruct (heap st !! r) as [c|] eqn:Hr.
  - rewrite (heartbeat_loop_step _ _ _ _ _ c) by done.
    repeat case_decide; [done| |apply IH]. rewrite IH. apply remove_heap.
  - rewrite heartbeat_loop_skip by done. apply IH.
Qed.

(** The two lists: the [ws_id]s of the objects the loop reaches, split by
    staleness, in snapshot order; [TypeError] when it meets an aware
    heartbeat. *)
Lemma heartbeat_loop_lists snapshot :
  ∀ i st res,
    let objs := omap (λ r, heap st !! r) snapshot in
    (loop i snapshot st res).1 =
      (mkSweep (active res ++ (ws_id <$> filter (λ c, ¬ old c) (reached objs)))
               (timed_out res ++ (ws_id <$> filter old (reached objs))),
       if decide (Forall (λ c, ¬ aware fromisoformat c) objs) then None
       else Some TypeError).
Proof.
  induction snapshot as [|r snapshot IH]; intros i st res; cbn zeta.
  - simpl. rewrite !app_nil_r. by destruct res.
  - destruct (heap st !! r) as [c|] eqn:Hr.
    + rewrite (heartbeat_loop_step _ _ _ _ _ c) by done.
      cbn [omap list_omap]. rewrite Hr. simpl.
      destruct (decide (aware fromisoformat c)) as [Ha|Ha].
      * rewrite decide_False by (rewrite Forall_cons; tauto).
        simpl. rewrite !app_nil_r. by destruct res.
      * rewrite !filter_cons.
        destruct (decide (old c)) as [Hold|Hold].
        -- rewrite (decide_False (P := ¬ old c)) by tauto.
           rewrite IH, remove_heap. cbn zeta. simpl active. simpl timed_out.
           rewrite fmap_cons, <-!app_assoc. f_equal.
           apply decide_ext. rewrite Forall_cons. tauto.
        -- rewrite (decide_True (P := ¬ old c)) by done.
           rewrite IH. cbn zeta. simpl active. simpl timed_out.
           rewrite fmap_cons, <-!app_assoc. f_equal.
           apply decide_ext. rewrite Forall_cons. tauto.
    + rewrite heartbeat_loop_skip by done. cbn [omap list_omap]. rewrite Hr.
      apply IH.
Qed.

Lemma heartbeat_loop_pool snapshot :
  ∀ i st res,
    _pool (loop i snapshot st res).2 =
      foldl dict_del (_pool st)
            (ws_id <$> filter old (reached (omap (λ r, heap st !! r) snapshot))).
Proof.
  induction snapshot as [|r snapshot IH]; intros i st res; [done|].
  destruct (heap st !! r) as [c|] eqn:Hr.
  - rewrite (heartbeat_loop_step _ _ _ _ _ c) by done.
    cbn [omap list_omap]. rewrite Hr. simpl.
    destruct (decide (aware fromisoformat c)) as [Ha|Ha]; [done|].
    rewrite filter_cons.
    destruct (decide (old c)) as [Hold|Hold].
    + rewrite IH, remove_heap, remove_pool. done.
    + apply IH.
  - rewrite heartbeat_loop_skip by done. cbn [omap list_omap]. rewrite Hr.
    apply IH.
Qed.

Lemma stamped_if_nil l : Forall2 (stamped_if []) l l.
Proof.
  apply Forall2_same_length_lookup_2; [done|].
  intros i x y Hx Hy. unfold stamped_if.
  rewrite decide_False; [congruence | apply not_elem_of_nil].
Qed.

Lemma stamped_if_step k ts ws row row' :
  stamped_if ws (where_ws_id k (mark_disconnected ts) row) row' →
  stamped_if (k :: ws) row row'.
Proof.
  unfold stamped_if, where_ws_id.
  destruct (decide (Connections.ws_id row = k)) as [Hk|Hk]; simpl.
  - rewrite (decide_True (P := _ ∈ k :: ws)) by (rewrite Hk; apply list_elem_of_here).
    case_decide.
    + intros [ts' Hs]. exists ts'. unfold stamped in *. simpl in Hs.
      by destruct_and!.
    + intros ->. exists ts. by unfold stamped.
  - destruct (decide (Connections.ws_id row ∈ ws)) as [Hin|Hin].
    + by rewrite decide_True by by apply list_elem_of_further.
    + rewrite decide_False; [done|]. rewrite not_elem_of_cons. by split.
Qed.

Lemma in_pool_tail st r rs : in_pool st (r :: rs) → in_pool st rs.
Proof.
  intros [[_ Hnd]%NoDup_cons Hin]. split; [done|].
  intros r' Hr'. apply Hin. by apply list_elem_of_further.
Qed.

Lemma in_pool_remove st r c rs ts :
  wf st → heap st !! r = Some c → in_pool st (r :: rs) →
  in_pool (remove st (ws_id c) ts).2 rs.
Proof.
  intros Hwf Hr [[Hr' Hnd]%NoDup_cons Hin]. split; [done|].
  intros r' Hr''. rewrite remove_pool.
  destruct (Hin r') as [k Hk]; [by apply list_elem_of_further|].
  exists k. apply dict_del_elem. split; [|done].
  intros ->. destruct (Hin r) as [k' Hk']; [apply list_elem_of_here|].
  apply wf_spec in Hwf as [Hnd' Hobj].
  assert (k' = ws_id c) as ->.
  { destruct (Hobj _ _ Hk') as (c' & ? & <-). congruence. }
  pose proof (dict_elem_get _ _ _ Hnd' Hk) as H1.
  pose proof (dict_elem_get _ _ _ Hnd' Hk') as H2.
  congruence.
Qed.

(** The store after a sweep: the rows of the timed-out ids are stamped
    [disconnected], every other row is as before, no row is dropped. *)
Lemma heartbeat_loop_store snapshot :
  ∀ i st res, wf st → in_pool st snapshot →
    Forall2 (stamped_if (ws_id <$> filter old
                           (reached (omap (λ r, heap st !! r) snapshot))))
            (connections (_conn st))
            (connections (_conn (loop i snapshot st res).2)).
Proof.
  induction snapshot as [|r snapshot IH]; intros i st res Hwf Hin.
  - apply stamped_if_nil.
  - destruct Hin as [Hnd Hall].
    destruct (Hall r) as [k Hk]; [apply list_elem_of_here|].
    pose proof (proj1 (wf_spec _) Hwf) as [Hkeys Hobj].
    destruct (Hobj _ _ Hk) as (c & Hr & <-).
    rewrite (heartbeat_loop_step _ _ _ _ _ c) by done.
    cbn [omap list_omap]. rewrite Hr. simpl.
    destruct (decide (aware fromisoformat c)) as [Ha|Ha]; [apply stamped_if_nil|].
    rewrite filter_cons.
    destruct (decide (old c)) as [Hold|Hold].
    + specialize (IH (S i) (remove st (ws_id c) (sql_now i)).2
                    (mkSweep (active res) (timed_out res ++ [ws_id c]))
                    (wf_remove _ _ _ Hwf)
                    (in_pool_remove _ _ _ _ _ Hwf Hr (conj Hnd Hall))).
      rewrite remove_heap in IH.
      rewrite (remove_present_rows _ _ _ _ (dict_elem_get _ _ _ Hkeys Hk)) in IH.
      rewrite Forall2_fmap_l in IH.
      eapply Forall2_impl; [exact IH|].
      intros row row'. apply stamped_if_step.
    + apply IH; [done|]. by eapply in_pool_tail.
Qed.
End loop.

Lemma wf_in_pool st : wf st → in_pool st (get_all st).
Proof.
  intros [Hnd Hobj]%wf_spec. unfold get_all, dict_values, dict_keys in *. split.
  - revert Hnd Hobj. induction (_pool st) as [|[k r] l IH]; intros Hnd Hobj.
    + apply NoDup_nil_2.
    + rewrite fmap_cons in *. apply NoDup_cons in Hnd as [Hk Hnd].
      apply NoDup_cons. split.
      * intros ([k' r'] & Heq & Hin)%list_elem_of_fmap. simpl in Heq. subst r'.
        destruct (Hobj k r) as (c & Hc & Hkc); [apply list_elem_of_here|].
        destruct (Hobj k' r) as (c' & Hc' & Hkc'); [by apply list_elem_of_further|].
        apply Hk. apply list_elem_of_fmap. exists (k', r). split; [|done].
        simpl. congruence.
      * apply IH; [done|]. intros k' r' Hin. apply Hobj.
        by apply list_elem_of_further.
  - intros r ([k r'] & -> & Hin)%list_elem_of_fmap. by exists k.
Qed.

(** In a state with the invariant the only object of the pool with
    [ws_id] [w] is the one stored under [w]. *)
Lemma wf_pool_object st w r c c' :
  wf st → get st w = Some r → heap st !! r = Some c →
  c' ∈ pool_objects st → ws_id c' = w → c' = c.
Proof.
  intros Hwf Hget Hr (r' & Hr' & Hc')%list_elem_of_omap Hws.
  apply list_elem_of_fmap in Hr' as ([k r''] & -> & Hin). simpl in Hc'.
  pose proof (proj1 (wf_spec _) Hwf) as [_ Hobj].
  destruct (Hobj _ _ Hin) as (c'' & Hc'' & <-).
  assert (c'' = c') as -> by congruence.
  apply (wf_elem_get _ _ _ Hwf) in Hin. rewrite Hws in Hin. congruence.
Qed.

Lemma pool_object_get st w r c :
  get st w = Some r → heap st !! r = Some c → c ∈ pool_objects st.
Proof.
  intros Hget%dict_get_Some_elem Hr. apply list_elem_of_omap.
  exists r. split; [|done]. apply list_elem_of_fmap. by exists (w, r).
Qed.

Lemma pool_object_inv st c :
  wf st → c ∈ pool_objects st →
  ∃ r, get st (ws_id c) = Some r ∧ heap st !! r = Some c.
Proof.
  intros Hwf (r & Hr & Hc)%list_elem_of_omap.
  apply list_elem_of_fmap in Hr as ([k r'] & -> & Hin). simpl in Hc.
  pose proof (proj1 (wf_spec _) Hwf) as [_ Hobj].
  destruct (Hobj _ _ Hin) as (c' & Hc' & <-).
  assert (c' = c) as -> by congruence.
  exists r'. split; [|done]. by apply wf_elem_get.
Qed.

Lemma reached_all objs :
  Forall (λ c, ¬ aware fromisoformat c) objs → reached fromisoformat objs = objs.
Proof.
  induction 1 as [|c objs Hc _ IH]; [done|]. simpl.
  by rewrite decide_False, IH by done.
Qed.

Lemma reached_sublist objs c : c ∈ reached fromisoformat objs → c ∈ objs.
Proof.
  induction objs as [|c' objs IH]; simpl; [done|].
  case_decide; [by intros ?%elem_of_nil|].
  intros [->|Hin]%elem_of_cons; [apply list_elem_of_here|].
  apply list_elem_of_further. by apply IH.
Qed.

(** A sweep whose cutoff is no [datetime] stops before it looks at the
    pool. *)
Lemma sweep_overflow st now timeout sql_now :
  ¬ (0 ≤ now - timeout * 1000000 ≤ max_datetime) →
  sweep fromisoformat st now timeout sql_now = (mkSweep [] [], Some OverflowError, st).
Proof. intros Hr. unfold sweep. cbn zeta. by rewrite decide_False. Qed.

(** A sweep whose cutoff is a [datetime]: what it returns or raises, and
    the state it leaves. *)
Lemma sweep_facts st now timeout sql_now :
  wf st → 0 ≤ now - timeout * 1000000 ≤ max_datetime →
  ∃ st',
    let objs := reached fromisoformat (pool_objects st) in
    let old := stale fromisoformat now (now - timeout * 1000000) in
    sweep fromisoformat st now timeout sql_now =
      (mkSweep (ws_id <$> filter (λ c, ¬ old c) objs) (ws_id <$> filter old objs),
       if decide (Forall (λ c, ¬ aware fromisoformat c) (pool_objects st))
       then None else Some TypeError,
       st') ∧
    heap st' = heap st ∧
    _pool st' = foldl dict_del (_pool st) (ws_id <$> filter old objs) ∧
    Forall2 (stamped_if (ws_id <$> filter old objs))
            (connections (_conn st)) (connections (_conn st')).
Proof.
  intros Hwf Hrange. unfold sweep. cbn zeta. rewrite decide_True by done.
  set (cutoff := now - timeout * 1000000).
  pose proof (heartbeat_loop_store now cutoff sql_now
                (get_all st) 0 st (mkSweep [] []) Hwf (wf_in_pool st Hwf)) as Hstore.
  pose proof (heartbeat_loop_lists now cutoff sql_now
                (get_all st) 0 st (mkSweep [] [])) as Hlists.
  pose proof (heartbeat_loop_pool now cutoff sql_now
                (get_all st) 0 st (mkSweep [] [])) as Hpool.
  pose proof (heartbeat_loop_heap now cutoff sql_now
                (get_all st) 0 st (mkSweep [] [])) as Hheap.
  destruct (heartbeat_loop fromisoformat now cutoff sql_now 0 (get_all st) st
              (mkSweep [] [])) as [[res e] st'].
  cbn zeta in Hlists. simpl in Hlists, Hpool, Hheap, Hstore.
  fold (pool_objects st) in Hlists, Hpool, Hstore.
  exists st'. injection Hlists as -> ->. done.
Qed.

(** The sweep and [heartbeat_check] agree on the outcome. *)
Lemma heartbeat_check_sweep st now timeout sql_now res e st' :
  sweep fromisoformat st now timeout sql_now = (res, e, st') →
  heartbeat_check fromisoformat st now timeout sql_now =
    (match e with None => Ok res | Some x => Raise x end, st').
Proof. unfold heartbeat_check. intros ->. by destruct e. Qed.

(** No object of the pool carries an offset-aware heartbeat. *)
Lemma no_aware_objects st :
  wf st →
  (∀ w r c t o, get st w = Some r → heap st !! r = Some c →
                fromisoformat (last_heartbeat c) ≠ Some (Aware t o)) →
  Forall (λ c, ¬ aware fromisoformat c) (pool_objects st).
Proof.
  intros Hwf Hno. apply Forall_forall. intros c Hc (t & o & Ht).
  destruct (pool_object_inv st c Hwf Hc) as (r & Hget & Hr).
  by eapply Hno.
Qed.

Lemma aware_free st :
  Forall (λ c, ¬ aware fromisoformat c) (pool_objects st) →
  ∀ w r c t o, get st w = Some r → heap st !! r = Some c →
               fromisoformat (last_heartbeat c) ≠ Some (Aware t o).
Proof.
  intros Hno w r c t o Hget Hr Ha. rewrite Forall_forall in Hno.
  apply (Hno c); [by eapply pool_object_get | by exists t, o].
Qed.

(** The verdict of a sweep that returns on the connection stored under
    [w]. *)
Lemma heartbeat_check_verdict st w r c now timeout sql_now :
  wf st → get st w = Some r → heap st !! r = Some c →
  0 ≤ now - timeout * 1000000 ≤ max_datetime →
  Forall (λ c, ¬ aware fromisoformat c) (pool_objects st) →
  ∃ res st',
    heartbeat_check fromisoformat st now timeout sql_now = (Ok res, st') ∧
    Forall2 (stamped_if (timed_out res))
            (connections (_conn st)) (connections (_conn st')) ∧
    (stale fromisoformat now (now - timeout * 1000000) c →
       w ∈ timed_out res ∧ (w ∉ active res) ∧ get st' w = None) ∧
    (¬ stale fromisoformat now (now - timeout * 1000000) c →
       w ∈ active res ∧ (w ∉ timed_out res) ∧
       get st' w = Some r ∧ heap st' !! r = Some c).
Proof.
  intros Hwf Hget Hr Hrange Hno.
  destruct (sweep_facts st now timeout sql_now Hwf Hrange)
    as (st' & Hrun & Hheap & Hpool & Hstore).
  cbn zeta in Hrun, Hpool, Hstore.
  rewrite reached_all in Hrun, Hpool, Hstore by done.
  rewrite decide_True in Hrun by done.
  eexists _, st'. split; [exact (heartbeat_check_sweep _ _ _ _ _ _ _ Hrun)|]. simpl.
  split; [done|].
  assert (ws_id c = w) as Hw by by eapply wf_get_ws_id.
  assert (c ∈ pool_objects st) as Hc by by eapply pool_object_get.
  assert (∀ (P : Connection → Prop) `{!∀ x, Decision (P x)},
            w ∈ ws_id <$> filter P (pool_objects st) ↔ P c) as Hmem.
  { intros P HP. split.
    - intros (c' & Hws & [HP' Hin]%list_elem_of_filter)%list_elem_of_fmap.
      by rewrite <-(wf_pool_object _ _ _ _ _ Hwf Hget Hr Hin (eq_sym Hws)).
    - intros HPc. apply list_elem_of_fmap. exists c. split; [done|].
      by apply list_elem_of_filter. }
  unfold get. rewrite Hpool, dict_get_foldl_del, Hheap.
  split; intros Hold.
  - rewrite decide_True by by apply Hmem.
    split_and!; [by apply Hmem | | done].
    rewrite Hmem. by intros Hn.
  - rewrite decide_False by by rewrite Hmem.
    split_and!; [by apply Hmem | by rewrite Hmem | done | done].
Qed.

(** Whatever its outcome, a sweep deletes no row: it stamps the rows of
    the ids it evicted and leaves the others; when it returns, the ids it
    evicted are those it lists as timed out. *)
Lemma heartbeat_check_store st now timeout sql_now :
  wf st →
  ∃ evicted,
    Forall2 (stamped_if evicted) (connections (_conn st))
      (connections (_conn (heartbeat_check fromisoformat st now timeout sql_now).2)) ∧
    ∀ res, (heartbeat_check fromisoformat st now timeout sql_now).1 = Ok res →
           evicted = timed_out res.
Proof.
  intros Hwf.
  destruct (decide (0 ≤ now - timeout * 1000000 ≤ max_datetime)) as [Hrange|Hout].
  - destruct (sweep_facts st now timeout sql_now Hwf Hrange)
      as (st' & Hrun & _ & _ & Hstore).
    cbn zeta in Hrun, Hstore.
    rewrite (heartbeat_check_sweep _ _ _ _ _ _ _ Hrun).
    eexists. split; [exact Hstore|]. simpl.
    intros res. case_decide; [by intros [= <-] | done].
  - rewrite (heartbeat_check_sweep _ _ _ _ _ _ _ (sweep_overflow _ _ _ _ Hout)).
    exists []. split; [apply stamped_if_nil | done].
Qed.

(** C3, as amended.  A sweep whose cutoff [now - timeout] (seconds, on
    the microsecond time line) is a [datetime], over a pool in which no
    connection carries an offset-aware heartbeat, classifies every
    connection of the pool by its parsed heartbeat [t] against the
    cutoff: when [t] is older it is evicted as [remove] does it (its rows
    are stamped [disconnected], its pool entry goes), listed as timed
    out, and [get] no longer finds it; otherwise it is listed as active
    and [get] still returns the same object, untouched.  Both lists come
    back in the result.  When the cutoff is no [datetime] the sweep
    raises [OverflowError] and changes nothing; when a connection of the
    pool carries an offset-aware heartbeat it raises [TypeError]; in
    both cases no list comes back. *)
Theorem heartbeat_check_classifies st w r c t now timeout sql_now :
  wf st → get st w = Some r → heap st !! r = Some c →
  fromisoformat (last_heartbeat c) = Some (Naive t) →
  (¬ (0 ≤ now - timeout * 1000000 ≤ max_datetime) →
   heartbeat_check fromisoformat st now timeout sql_now = (Raise OverflowError, st)) ∧
  (0 ≤ now - timeout * 1000000 ≤ max_datetime →
   ∀ w' r' c' t' o,
     get st w' = Some r' → heap st !! r' = Some c' →
     fromisoformat (last_heartbeat c') = Some (Aware t' o) →
     (heartbeat_check fromisoformat st now timeout sql_now).1 = Raise TypeError) ∧
  (0 ≤ now - timeout * 1000000 ≤ max_datetime →
   (∀ w' r' c' t' o,
      get st w' = Some r' → heap st !! r' = Some c' →
      fromisoformat (last_heartbeat c') ≠ Some (Aware t' o)) →
   ∃ res st',
     heartbeat_check fromisoformat st now timeout sql_now = (Ok res, st') ∧
     Forall2 (stamped_if (timed_out res))
             (connections (_conn st)) (connections (_conn st')) ∧
     (t < now - timeout * 1000000 →
        w ∈ timed_out res ∧ (w ∉ active res) ∧ get st' w = None) ∧
     (¬ (t < now - timeout * 1000000) →
        w ∈ active res ∧ (w ∉ timed_out res) ∧
        get st' w = Some r ∧ heap st' !! r = Some c)).
Proof.
  intros Hwf Hget Hr Ht. split_and!.
  - intros Hout.
    by rewrite (heartbeat_check_sweep _ _ _ _ _ _ _ (sweep_overflow _ _ _ _ Hout)).
  - intros Hrange w' r' c' t' o Hget' Hr' Ha.
    destruct (sweep_facts st now timeout sql_now Hwf Hrange) as (st' & Hrun & _).
    cbn zeta in Hrun. rewrite (heartbeat_check_sweep _ _ _ _ _ _ _ Hrun).
    rewrite decide_False; [done|].
    rewrite Forall_forall. intros Hno.
    apply (Hno c'); [by eapply pool_object_get | by exists t', o].
  - intros Hrange Hno.
    destruct (heartbeat_check_verdict st w r c now timeout sql_now Hwf Hget Hr
                Hrange (no_aware_objects st Hwf Hno))
      as (res & st' & Hrun & Hstore & Hold & Hfresh).
    exists res, st'. split_and!; [done|done| |].
    + intros Hlt. apply Hold. unfold stale, heartbeat_of. by rewrite Ht.
    + intros Hge. apply Hfresh. unfold stale, heartbeat_of. by rewrite Ht.
Qed.

(** C5, as amended.  A connection whose [last_heartbeat] does not parse
    is compared as if its heartbeat were [now], and no error reaches the
    caller: for every timeout that is not negative and whose cutoff
    [now - timeout] is still a [datetime], over a pool in which no
    connection carries an offset-aware heartbeat, the sweep returns,
    lists it as active, does not list it as timed out, and leaves it in
    the pool. *)
Theorem heartbeat_check_malformed st w r c now timeout sql_now :
  wf st → get st w = Some r → heap st !! r = Some c →
  fromisoformat (last_heartbeat c) = None →
  0 ≤ timeout →
  0 ≤ now - timeout * 1000000 → now ≤ max_datetime →
  (∀ w' r' c' t' o,
     get st w' = Some r' → heap st !! r' = Some c' →
     fromisoformat (last_heartbeat c') ≠ Some (Aware t' o)) →
  ∃ res st',
    heartbeat_check fromisoformat st now timeout sql_now = (Ok res, st') ∧
    w ∈ active res ∧ (w ∉ timed_out res) ∧
    get st' w = Some r ∧ heap st' !! r = Some c.
Proof.
  intros Hwf Hget Hr Hbad Hpos Hlo Hhi Hno.
  destruct (heartbeat_check_verdict st w r c now timeout sql_now Hwf Hget Hr)
    as (res & st' & Hrun & _ & _ & Hfresh); [lia|by apply no_aware_objects|].
  exists res, st'. split; [done|].
  apply Hfresh. unfold stale, heartbeat_of. rewrite Hbad. lia.
Qed.

End sweep.

(** ** Broadcast *)

Section fanout.
Variable json_dumps : json → string.

Lemma increment_message_count_present st w r :
  get st w = Some r →
  increment_message_count st w =
    mkState (sql_update_message_count (_conn st) w) (_pool st)
            (alter incr_message_count r (heap st)).
Proof. unfold get, increment_message_count. by intros ->. Qed.

Lemma increment_message_count_pool st w :
  _pool (increment_message_count st w) = _pool st.
Proof. unfold increment_message_count. by destruct (dict_get _ _). Qed.

Lemma in_pool_object st r rs :
  wf st → in_pool st (r :: rs) →
  ∃ c, heap st !! r = Some c ∧ get st (ws_id c) = Some r.
Proof.
  intros Hwf [_ Hin]. destruct (Hin r) as [k Hk]; [apply list_elem_of_here|].
  pose proof (proj1 (wf_spec _) Hwf) as [_ Hobj]. destruct (Hobj _ _ Hk) as (c & Hc & <-).
  exists c. split; [done|]. by apply wf_elem_get.
Qed.

(** Distinct references of the pool hold distinct [ws_id]s. *)
Lemma in_pool_ws_id_fresh st r c rs :
  wf st → in_pool st (r :: rs) → heap st !! r = Some c →
  ws_id c ∉ ws_id <$> omap (λ r', heap st !! r') rs.
Proof.
  intros Hwf [[Hr Hnd]%NoDup_cons Hin] Hc.
  intros (c' & Hws & (r' & Hr' & Hc')%list_elem_of_omap)%list_elem_of_fmap.
  destruct (in_pool_object st r rs Hwf) as (c0 & Hc0 & Hget).
  { split; [by apply NoDup_cons|done]. }
  assert (c0 = c) as -> by congruence.
  destruct (Hin r') as [k' Hk']; [by apply list_elem_of_further|].
  pose proof (proj1 (wf_spec _) Hwf) as [_ Hobj]. destruct (Hobj _ _ Hk') as (c'' & Hc'' & <-).
  assert (c'' = c') as -> by congruence.
  apply (wf_elem_get _ _ _ Hwf) in Hk'. rewrite <-Hws in Hk'.
  assert (r = r') as -> by congruence. done.
Qed.

Lemma bump_if_step k ws row :
  k ∉ ws →
  bump_if ws (where_ws_id k row_incr_message_count row) = bump_if (k :: ws) row.
Proof.
  intros Hk. unfold bump_if, where_ws_id.
  destruct (decide (Connections.ws_id row = k)) as [Heq|Hne]; simpl.
  - rewrite decide_False by by rewrite Heq.
    rewrite decide_True; [done|]. rewrite Heq. apply list_elem_of_here.
  - destruct (decide (Connections.ws_id row ∈ ws)) as [Hin|Hin].
    + by rewrite decide_True by by apply list_elem_of_further.
    + rewrite decide_False; [done|]. rewrite not_elem_of_cons. by split.
Qed.

Lemma counted_bump row : counted row (row_incr_message_count row).
Proof.
  unfold counted. simpl. split_and!; try done.
  - intros n -> Hn. simpl. by rewrite decide_True.
  - intros n -> Hn. simpl. by rewrite decide_False by lia.
  - by intros ->.
Qed.

Lemma counted_if_bump ws rows : Forall2 (counted_if ws) rows (bump_if ws <$> rows).
Proof.
  apply Forall2_fmap_r, Forall_Forall2_diag, Forall_forall. intros row _.
  unfold counted_if, bump_if, compose.
  destruct (decide (Connections.ws_id row ∈ ws)); [apply counted_bump | done].
Qed.

Lemma received_incr c : received c (incr_message_count c).
Proof.
  unfold received. simpl. split_and!; try done.
  - by intros n ->.
  - by intros ->.
Qed.

Section loop.
Variables (body mty : string) (sender : option string)
          (uuid4 now : nat → string).

Local Abbreviation loop := (broadcast_loop body mty sender uuid4 now).

(** The loop of [broadcast] over references of the pool: the ids it
    returns, and the state it leaves. *)
Lemma broadcast_loop_spec targets :
  ∀ i st acc, wf st → in_pool st targets →
    let objs := omap (λ r, heap st !! r) targets in
    let ids := ws_id <$> objs in
    ∃ st' new,
      loop i targets st acc = (acc ++ ids, st') ∧
      _pool st' = _pool st ∧
      (∀ r, heap st' !! r =
              if decide (r ∈ targets) then incr_message_count <$> heap st !! r
              else heap st !! r) ∧
      messages (_conn st') = messages (_conn st) ++ new ∧
      Forall2 (delivered_to body mty sender) objs new ∧
      connections (_conn st') = bump_if ids <$> connections (_conn st) ∧
      heartbeat_log (_conn st') = heartbeat_log (_conn st).
Proof.
  induction targets as [|r targets IH]; intros i st acc Hwf Hin; simpl.
  - exists st, []. rewrite !app_nil_r. split_and!; try done.
    unfold bump_if. symmetry. etrans; [|apply list_fmap_id].
    apply list_fmap_ext. intros j row _. cbv beta.
    rewrite decide_False; [done | apply not_elem_of_nil].
  - destruct (in_pool_object st r targets Hwf Hin) as (c & Hc & Hget).
    pose proof (in_pool_ws_id_fresh st r c targets Hwf Hin Hc) as Hfresh.
    rewrite Hc. simpl.
    set (st1 := with_conn _ st).
    rewrite (increment_message_count_present st1 (ws_id c) r Hget).
    set (st2 := mkState _ _ _).
    assert (wf st2) as Hwf2 by by apply (wf_alter _ _ _ st1).
    assert (in_pool st2 targets) as Hin2 by by eapply in_pool_tail.
    assert (r ∉ targets) as Hr by (by destruct Hin as [[? ?]%NoDup_cons _]).
    assert (omap (λ r', heap st2 !! r') targets
            = omap (λ r', heap st !! r') targets) as Hobjs.
    { apply list_omap_ext. apply Forall_Forall2_diag, Forall_forall.
      intros r' Hr'. simpl. rewrite lookup_alter_ne; [done|]. by intros ->. }
    destruct (IH (S i) st2 (acc ++ [ws_id c]) Hwf2 Hin2)
      as (st' & new & Hrun & Hpool & Hheap & Hmsgs & Hnew & Hrows & Hlog).
    rewrite Hobjs in Hrun, Hnew, Hrows.
    eexists st', (_ :: new). rewrite Hrun, <-app_assoc. split_and!; try done.
    + intros r'. rewrite Hheap. simpl.
      destruct (decide (r' = r)) as [->|Hne].
      * rewrite decide_False by done. rewrite lookup_alter_eq.
        by rewrite decide_True by apply list_elem_of_here.
      * rewrite lookup_alter_ne by done.
        destruct (decide (r' ∈ targets)) as [Hr'|Hr'].
        -- by rewrite decide_True by by apply list_elem_of_further.
        -- rewrite decide_False; [done|]. rewrite not_elem_of_cons. by split.
    + rewrite Hmsgs. simpl. by rewrite <-app_assoc.
    + apply Forall2_cons. split; [|done]. by repeat split.
    + rewrite Hrows. simpl. rewrite <-list_fmap_compose.
      apply list_fmap_ext. intros j row _. simpl. by apply bump_if_step.
Qed.
End loop.

Lemma in_pool_ids_NoDup st rs :
  wf st → in_pool st rs → NoDup (ws_id <$> omap (λ r, heap st !! r) rs).
Proof.
  intros Hwf. induction rs as [|r rs IH]; intros Hin; simpl.
  - apply NoDup_nil_2.
  - destruct (in_pool_object st r rs Hwf Hin) as (c & Hc & _).
    rewrite Hc. simpl. apply NoDup_cons. split.
    + by eapply in_pool_ws_id_fresh.
    + apply IH. by eapply in_pool_tail.
Qed.

Lemma in_pool_filter st (P : loc → Prop) `{!∀ r, Decision (P r)} (rs : list loc) :
  in_pool st rs → in_pool st (filter P rs).
Proof.
  intros [Hnd Hin]. split; [by apply NoDup_filter|].
  intros r [_ Hr]%list_elem_of_filter. by apply Hin.
Qed.

(** Filtering the references by [filter_fn] selects the objects that
    satisfy it. *)
Lemma omap_filter_passes st (f : Connection → bool) (rs : list loc) :
  omap (λ r, heap st !! r) (filter (λ r, passes st f r) rs)
  = filter (λ c, f c) (omap (λ r, heap st !! r) rs).
Proof.
  induction rs as [|r rs IH]; [done|].
  rewrite filter_cons.
  destruct (decide (passes st f r)) as [Hp|Hp]; unfold passes in Hp;
    cbn [omap list_omap]; destruct (heap st !! r) as [c|] eqn:Hc;
    rewrite ?Hc, ?filter_cons; try done.
  - rewrite decide_True by done. f_equal. apply IH.
  - rewrite decide_False by done. apply IH.
Qed.

Lemma pool_objects_length st : wf st → length (pool_objects st) = length (_pool st).
Proof.
  intros [_ Hobj]%wf_spec. unfold pool_objects, dict_values.
  induction (_pool st) as [|[k r] l IH]; [done|].
  rewrite fmap_cons. simpl.
  destruct (Hobj k r) as (c & -> & _); [apply list_elem_of_here|].
  simpl. f_equal. apply IH. intros k' r' Hin. apply Hobj.
  by apply list_elem_of_further.
Qed.

Lemma pool_objects_keys st : wf st → ws_id <$> pool_objects st = dict_keys (_pool st).
Proof.
  intros [_ Hobj]%wf_spec. unfold pool_objects, dict_values, dict_keys.
  induction (_pool st) as [|[k r] l IH]; [done|].
  rewrite !fmap_cons. simpl.
  destruct (Hobj k r) as (c & -> & <-); [apply list_elem_of_here|].
  simpl. f_equal. apply IH. intros k' r' Hin. apply Hobj.
  by apply list_elem_of_further.
Qed.

(** The targets of a broadcast, as references. *)
Lemma broadcast_unfold st message filter_fn mty sender uuid4 now :
  wf st →
  ∃ targets,
    in_pool st targets ∧
    omap (λ r, heap st !! r) targets = chosen st filter_fn ∧
    (∀ r, r ∈ targets ↔
          r ∈ get_all st ∧ ∀ f, filter_fn = Some f → passes st f r) ∧
    broadcast json_dumps st message filter_fn mty sender uuid4 now =
      broadcast_loop (content_str json_dumps message) mty sender uuid4 now
                     0 targets st [].
Proof.
  intros Hwf. pose proof (wf_in_pool st Hwf) as Hall.
  destruct filter_fn as [f|]; simpl.
  - exists (filter (λ r, passes st f r) (get_all st)). split_and!; [| |  |done].
    + by apply in_pool_filter.
    + apply omap_filter_passes.
    + intros r. rewrite list_elem_of_filter. split.
      * intros [Hp Hr]. split; [done|]. by intros f' [= <-].
      * intros [Hr Hp]. split; [|done]. by apply Hp.
  - exists (get_all st). split_and!; [done|done| |done].
    intros r. split; [|by intros [? _]]. intros Hr. split; [done|]. by intros f [=].
Qed.

(** C2, as amended.  [broadcast] returns the [ws_id]s of the connections
    of the pool that satisfy the filter: all [N] of them, in pool order,
    when there is no filter.  Each targeted connection has its
    [message_count] raised by exactly one in memory when it is an [int]
    (a count that is the float [2.0**63] stays as it is), and in its row
    when the stored count is below [2**63 - 1] (from there on the stored
    count is the float [2.0**63]); its other fields and columns, and
    every other connection, are untouched; one message row per target is
    appended, addressed to it, with [delivered = 1]. *)
Theorem broadcast_targets st message filter_fn mty sender uuid4 now :
  wf st →
  let ids := ws_id <$> chosen st filter_fn in
  ∃ st' new,
    broadcast json_dumps st message filter_fn mty sender uuid4 now = (ids, st') ∧
    (filter_fn = None →
       Z.of_nat (length ids) = count st ∧ ids = dict_keys (_pool st)) ∧
    NoDup ids ∧
    (∀ w, w ∈ ids ↔
          ∃ r c, get st w = Some r ∧ heap st !! r = Some c ∧
                 ∀ f, filter_fn = Some f → f c = true) ∧
    (∀ w r c, get st w = Some r → heap st !! r = Some c →
       get st' w = Some r ∧
       ∃ c', heap st' !! r = Some c' ∧
             (w ∈ ids → received c c') ∧ (w ∉ ids → c' = c)) ∧
    messages (_conn st') = messages (_conn st) ++ new ∧
    Forall2 (delivered_to (content_str json_dumps message) mty sender)
            (chosen st filter_fn) new ∧
    Forall2 (counted_if ids) (connections (_conn st)) (connections (_conn st')).
Proof.
  intros Hwf ids.
  destruct (broadcast_unfold st message filter_fn mty sender uuid4 now Hwf)
    as (targets & Hin & Hobjs & Htargets & ->).
  destruct (broadcast_loop_spec (content_str json_dumps message) mty sender
              uuid4 now targets 0 st [] Hwf Hin)
    as (st' & new & Hrun & Hpool & Hheap & Hmsgs & Hnew & Hrows & _).
  rewrite Hobjs in Hrun, Hnew, Hrows. fold ids in Hrun, Hrows.
  assert (∀ w, w ∈ ids ↔
            ∃ r c, get st w = Some r ∧ heap st !! r = Some c ∧ r ∈ targets)
    as Hids.
  { intros w. unfold ids. rewrite <-Hobjs. split.
    - intros (c & -> & (r & Hr & Hc)%list_elem_of_omap)%list_elem_of_fmap.
      exists r, c. split_and!; [|done|done].
      destruct Hin as [_ Hin]. destruct (Hin r Hr) as [k Hk].
      pose proof (proj1 (wf_spec _) Hwf) as [_ Hobj]. destruct (Hobj _ _ Hk) as (c' & Hc' & <-).
      assert (c' = c) as -> by congruence. by apply wf_elem_get.
    - intros (r & c & Hget & Hc & Hr). apply list_elem_of_fmap.
      exists c. split; [symmetry; by eapply wf_get_ws_id|].
      apply list_elem_of_omap. by exists r. }
  exists st', new. split_and!; try done.
  - intros ->. simpl in ids. unfold ids, count.
    rewrite length_fmap, pool_objects_length by done.
    split; [done | by apply pool_objects_keys].
  - unfold ids. rewrite <-Hobjs. by apply in_pool_ids_NoDup.
  - intros w. rewrite Hids. split.
    + intros (r & c & Hget & Hc & [_ Hp]%Htargets). exists r, c.
      split_and!; [done|done|]. intros f Hf. specialize (Hp f Hf).
      unfold passes in Hp. rewrite Hc in Hp. by apply Is_true_true.
    + intros (r & c & Hget & Hc & Hp). exists r, c. split_and!; [done|done|].
      apply Htargets. split.
      * apply list_elem_of_fmap. exists (w, r). split; [done|].
        by apply dict_get_Some_elem.
      * intros f Hf. unfold passes. rewrite Hc. apply Is_true_true. by apply Hp.
  - intros w r c Hget Hc. unfold get. rewrite Hpool. split; [done|].
    rewrite Hheap, Hc. simpl.
    destruct (decide (r ∈ targets)) as [Hr|Hr].
    + exists (incr_message_count c). split_and!; [done| |].
      * intros _. apply received_incr.
      * intros Hn. destruct Hn. apply Hids. by exists r, c.
    + exists c. split_and!; [done| |done].
      intros (r' & c' & Hget' & _ & Hr')%Hids.
      unfold get in *. congruence.
  - rewrite Hrows. apply counted_if_bump.
Qed.

End fanout.

(** ** A connection between its [add] and its removal *)

Section lifetime.
Variable json_dumps : json → string.
Variable fromisoformat : string → option datetime.

Local Abbreviation run_op := (run_op json_dumps fromisoformat).
Local Abbreviation run := (run json_dumps fromisoformat).
Local Abbreviation detaches := (detaches fromisoformat).
Local Abbreviation undisturbed := (undisturbed json_dumps fromisoformat).

Lemma next_rowid_above seq ids x : x ∈ ids → x < next_rowid seq ids.
Proof.
  unfold next_rowid. induction ids as [|y ids IH]; simpl.
  - by intros ?%elem_of_nil.
  - intros [->|Hin]%elem_of_cons; [lia|]. specialize (IH Hin). lia.
Qed.

Lemma bindable_spec c : bindable c ↔ ∀ n, c = Int n → in_int64 n.
Proof.
  destruct c as [n|]; simpl.
  - split; [by intros Hn ? [= <-] | intros Hn; by apply Hn].
  - split; [done|]. by intros _.
Qed.

Lemma not_bindable_spec c : ¬ bindable c ↔ ∃ n, c = Int n ∧ ¬ in_int64 n.
Proof.
  destruct c as [n|]; simpl.
  - split; [intros Hn; by exists n | by intros (? & [= <-] & ?)].
  - split; [by intros [] | by intros (? & ? & _)].
Qed.

(** Once the rows of [w] are taken out, none is left. *)
Lemma filter_replaced w (rows : list Connections.row) :
  filter (λ x, Connections.ws_id x = w)
         (filter (λ x, Connections.ws_id x ≠ w) rows) = [].
Proof.
  induction rows as [|x rows IH]; [done|].
  rewrite filter_cons. case_decide; [|done].
  rewrite filter_cons. by rewrite decide_False.
Qed.

(** What a returning [add] leaves. *)
Lemma add_present st r c :
  heap st !! r = Some c → bindable (message_count c) →
  ∃ st1 rid c1 row,
    add json_dumps st r = (Ok r, st1) ∧
    _pool st1 = dict_set (_pool st) (ws_id c) r ∧
    heap st1 = <[r := c1]> (heap st) ∧ registered rid c c1 ∧
    connections (_conn st1) =
      filter (λ x, Connections.ws_id x ≠ ws_id c) (connections (_conn st)) ++ [row] ∧
    row_of json_dumps c rid row ∧
    (∀ x, x ∈ connections (_conn st) → Connections.id x < rid) ∧
    messages (_conn st1) = messages (_conn st) ∧
    heartbeat_log (_conn st1) = heartbeat_log (_conn st).
Proof.
  intros Hr Hb. rewrite (add_Ok _ st r c Hr Hb).
  eexists _, _, _, _. split_and!; try done.
  intros x Hx. apply next_rowid_above. apply list_elem_of_fmap. by exists x.
Qed.

Lemma add_pool st r :
  _pool (add json_dumps st r).2 = _pool st ∨
  ∃ c, heap st !! r = Some c ∧ bindable (message_count c) ∧
       _pool (add json_dumps st r).2 = dict_set (_pool st) (ws_id c) r.
Proof.
  destruct (heap st !! r) as [c|] eqn:Hr.
  - destruct (decide (bindable (message_count c))) as [Hb|Hb].
    + right. exists c. by rewrite (add_Ok _ st r c Hr Hb).
    + left. by rewrite (add_Raise _ st r c Hr Hb).
  - left. unfold add. by rewrite Hr.
Qed.

Lemma add_heap st r r' k :
  ws_id <$> heap st !! r' = Some k → ws_id <$> heap (add json_dumps st r).2 !! r' = Some k.
Proof.
  intros Hk. destruct (heap st !! r) as [c|] eqn:Hr.
  - destruct (decide (bindable (message_count c))) as [Hb|Hb].
    + rewrite (add_Ok _ st r c Hr Hb). simpl.
      destruct (decide (r = r')) as [->|Hne].
      * rewrite lookup_insert_eq. rewrite Hr in Hk. done.
      * by rewrite lookup_insert_ne.
    + by rewrite (add_Raise _ st r c Hr Hb).
  - unfold add. by rewrite Hr.
Qed.

Lemma bindable_zero : bindable 0.
Proof. simpl. unfold in_int64, min_int64, max_int64. lia. Qed.

(** [add_connection] always returns: the count it stores is 0. *)
Lemma add_connection_Ok st w a meta ts1 ts2 :
  (add_connection json_dumps st w a meta ts1 ts2).1 = Ok (fresh (dom (heap st))).
Proof.
  unfold add_connection. cbn [new_connection].
  set (c := mkConnection _ _ _ _ _ _ _ _).
  erewrite (add_Ok _ _ _ c); [done|by apply lookup_insert_eq|apply bindable_zero].
Qed.

Lemma broadcast_loop_pool body mty sender uuid4 now targets :
  ∀ i st acc,
    _pool (broadcast_loop body mty sender uuid4 now i targets st acc).2 = _pool st.
Proof.
  induction targets as [|r targets IH]; intros i st acc; simpl; [done|].
  destruct (heap st !! r); rewrite IH; [|done].
  by rewrite increment_message_count_pool.
Qed.

Lemma add_connection_pool st w a meta ts1 ts2 :
  _pool (add_connection json_dumps st w a meta ts1 ts2).2 =
    dict_set (_pool st) w (fresh (dom (heap st))).
Proof.
  unfold add_connection. cbn [new_connection].
  set (c := mkConnection _ _ _ _ _ _ _ _).
  erewrite (add_Ok _ _ _ c); [done|by apply lookup_insert_eq|apply bindable_zero].
Qed.

(** A call that does not detach [w] leaves [get w] as it is. *)
Lemma get_run_op st o w : ¬ detaches w st o → get (run_op st o) w = get st w.
Proof.
  unfold get.
  destruct o as [c|connection|w' a meta ts1 ts2|w' now|w' lat ts now|w'
                |m f mty sender uuid4 now|now timeout sql_now
                |w' m mty sender uuid ts now]; simpl; intros Hkeep.
  - done.
  - destruct (add_pool st connection) as [->|(c & Hc & Hb & ->)]; [done|].
    apply dict_get_set_ne. intros Heq. apply Hkeep. by rewrite Hc.
  - rewrite add_connection_pool. by apply dict_get_set_ne.
  - rewrite remove_pool. by apply dict_get_del_ne.
  - unfold update_heartbeat. destruct (dict_get (_pool st) w'); [|done].
    by destruct (sql_insert_heartbeat_log _ _ _ _).
  - by rewrite increment_message_count_pool.
  - unfold broadcast. by rewrite broadcast_loop_pool.
  - rewrite heartbeat_check_state. unfold sweep in *. cbn zeta in *.
    case_decide; [|done].
    rewrite heartbeat_loop_lists in Hkeep. simpl in Hkeep.
    rewrite heartbeat_loop_pool, dict_get_foldl_del.
    by rewrite decide_False.
  - unfold send_message. destruct (get st w'); [|done].
    simpl. by rewrite increment_message_count_pool.
Qed.

Lemma get_run ops :
  ∀ st w, undisturbed w st ops → get (run st ops) w = get st w.
Proof.
  induction ops as [|o ops IH]; intros st w; simpl; [done|].
  intros [Hkeep Hrest]. rewrite IH by done. by apply get_run_op.
Qed.

(** No call rewrites the [ws_id] of an object. *)
Lemma ws_id_increment_message_count st w r :
  ws_id <$> heap (increment_message_count st w) !! r = ws_id <$> heap st !! r.
Proof.
  unfold increment_message_count. destruct (dict_get _ _) as [r'|]; [|done].
  simpl. rewrite lookup_alter. case_decide; [subst|done].
  by destruct (heap st !! r).
Qed.

Lemma ws_id_broadcast_loop body mty sender uuid4 now targets r :
  ∀ i st acc,
    ws_id <$> heap (broadcast_loop body mty sender uuid4 now i targets st acc).2 !! r
    = ws_id <$> heap st !! r.
Proof.
  induction targets as [|r' targets IH]; intros i st acc; simpl; [done|].
  destruct (heap st !! r'); rewrite IH; [|done].
  by rewrite ws_id_increment_message_count.
Qed.

Lemma ws_id_run_op st o r k :
  ws_id <$> heap st !! r = Some k → ws_id <$> heap (run_op st o) !! r = Some k.
Proof.
  intros Hr. destruct o; simpl.
  - rewrite lookup_insert_ne; [done|]. intros <-.
    pose proof (new_connection_fresh st c) as Hfr. simpl in Hfr.
    rewrite Hfr in Hr. done.
  - by apply add_heap.
  - unfold add_connection. cbn [new_connection]. apply add_heap. cbn [heap].
    assert (fresh (dom (heap st)) ≠ r) as Hne.
    { intros <-. pose proof (is_fresh (dom (heap st))) as Hfr.
      apply not_elem_of_dom in Hfr. rewrite Hfr in Hr. done. }
    by rewrite lookup_insert_ne.
  - by rewrite remove_heap.
  - unfold update_heartbeat. destruct (dict_get _ _) as [r'|]; [|done].
    assert (ws_id <$> alter (set_last_heartbeat ts) r' (heap st) !! r = Some k).
    { rewrite lookup_alter. case_decide; [subst|done].
      by destruct (heap st !! r). }
    by destruct (sql_insert_heartbeat_log _ _ _ _).
  - by rewrite ws_id_increment_message_count.
  - unfold broadcast. by rewrite ws_id_broadcast_loop.
  - rewrite heartbeat_check_state. unfold sweep. cbn zeta.
    case_decide; [|done]. by rewrite heartbeat_loop_heap.
  - unfold send_message. destruct (get st w); [|done].
    simpl. by rewrite ws_id_increment_message_count.
Qed.

Lemma ws_id_run ops :
  ∀ st r k,
    ws_id <$> heap st !! r = Some k → ws_id <$> heap (run st ops) !! r = Some k.
Proof.
  induction ops as [|o ops IH]; intros st r k Hr; simpl; [done|].
  by apply IH, ws_id_run_op.
Qed.

(** C6, as amended.  An [add] whose [message_count] SQLite can bind (an
    [int] of 64 bits, or a float) returns the object it was given,
    writes its row in the place of any row of the same [ws_id], under a
    rowid above every rowid of the table, writes that rowid into the
    object and stores the object under its [ws_id]; from then on [get]
    of that [ws_id] returns this very object (hence a value equal to it,
    whatever later calls wrote into it) until a [remove] of the [ws_id],
    a sweep that times it out, or another returning [add] under the same
    [ws_id].  Such a second [add] does not fail: it puts the new object
    in the place of the old one, the pool keeps its keys, and the store
    holds one row for the [ws_id], the new one.  An [add] whose
    [message_count] is an [int] outside 64 bits raises [OverflowError]
    and changes nothing. *)
Theorem get_after_add st connection c :
  heap st !! connection = Some c →
  ((∃ n, message_count c = Int n ∧ ¬ (- 2 ^ 63 ≤ n ≤ 2 ^ 63 - 1)) →
   add json_dumps st connection = (Raise OverflowError, st)) ∧
  ((∀ n, message_count c = Int n → - 2 ^ 63 ≤ n ≤ 2 ^ 63 - 1) →
   ∃ st1 rid c1 row,
     add json_dumps st connection = (Ok connection, st1) ∧
     get st1 (ws_id c) = Some connection ∧
     heap st1 !! connection = Some c1 ∧ registered rid c c1 ∧
     connections (_conn st1) =
       filter (λ x, Connections.ws_id x ≠ ws_id c) (connections (_conn st))
       ++ [row] ∧
     row_of json_dumps c rid row ∧
     (∀ x, x ∈ connections (_conn st) → Connections.id x < rid) ∧
     (∀ ops, undisturbed (ws_id c) st1 ops →
        get (run st1 ops) (ws_id c) = Some connection ∧
        ws_id <$> heap (run st1 ops) !! connection = Some (ws_id c)) ∧
     (∀ ops other c2,
        undisturbed (ws_id c) st1 ops →
        heap (run st1 ops) !! other = Some c2 → ws_id c2 = ws_id c →
        (∀ n, message_count c2 = Int n → - 2 ^ 63 ≤ n ≤ 2 ^ 63 - 1) →
        ∃ st2 rid2 row2,
          add json_dumps (run st1 ops) other = (Ok other, st2) ∧
          get st2 (ws_id c) = Some other ∧
          dict_keys (_pool st2) = dict_keys (_pool (run st1 ops)) ∧
          count st2 = count (run st1 ops) ∧
          filter (λ x, Connections.ws_id x = ws_id c) (connections (_conn st2))
            = [row2] ∧
          row_of json_dumps c2 rid2 row2)).
Proof.
  intros Hc. split.
  - intros Hn. apply (add_Raise _ st connection c Hc).
    by apply not_bindable_spec.
  - intros Hb%bindable_spec.
    destruct (add_present st connection c Hc Hb)
      as (st1 & rid & c1 & row & Hadd & Hpool & Hheap & Hreg & Hrows & Hrow & Hrid & _).
    exists st1, rid, c1, row.
    assert (get st1 (ws_id c) = Some connection) as Hget
      by (unfold get; rewrite Hpool; apply dict_get_set_eq).
    assert (heap st1 !! connection = Some c1) as Hobj
      by (rewrite Hheap; apply lookup_insert_eq).
    split_and!; try done.
    + intros ops Hops. split.
      * by rewrite get_run.
      * apply ws_id_run. rewrite Hobj. simpl. f_equal. apply Hreg.
    + intros ops other c2 Hops Hother Hws Hb2%bindable_spec.
      destruct (add_present (run st1 ops) other c2 Hother Hb2)
        as (st2 & rid2 & c2' & row2 & Hadd2 & Hpool2 & _ & _ & Hrows2 & Hrow2 & _).
      exists st2, rid2, row2. split; [exact Hadd2|].
      assert (get (run st1 ops) (ws_id c) = Some connection) as Hget'
        by by rewrite get_run.
      unfold get, count in *. rewrite Hpool2, Hws. split_and!.
      * apply dict_get_set_eq.
      * rewrite dict_set_keys. rewrite decide_True; [done|].
        apply dict_get_is_Some. by rewrite Hget'.
      * rewrite dict_set_length. by rewrite Hget'.
      * rewrite Hrows2, Hws, filter_app, filter_replaced. simpl.
        rewrite filter_cons, decide_True; [done|].
        rewrite <-Hws. apply Hrow2.
      * done.
Qed.

End lifetime.

(** ** Rows of the [connections] table *)

Section rows.
Variable json_dumps : json → string.
Variable fromisoformat : string → option datetime.


Lemma stamped_row now row : stamped now row (mark_disconnected now row).
Proof. unfold stamped. simpl. split_and!; done. Qed.

(** C1, as amended.  A disconnect, by [remove] or by a sweep, deletes no
    row of [connections]: every row stays where it is, the rows of the
    disconnected [ws_id]s get [status = disconnected] and a disconnect
    timestamp, and nothing else is written to them; this holds of a
    sweep whatever its outcome.  A later [add] under a [ws_id] that
    returns replaces the row of that [ws_id]: the old row is deleted and
    one row with a new, larger id, the status of the added connection
    and no disconnect timestamp is appended, the only row of that [ws_id]
    from then on; an [add] that raises writes nothing. *)
Theorem disconnect_keeps_rows_add_replaces
    st w r now_d now timeout sql_now connection c :
  wf st → get st w = Some r → heap st !! connection = Some c →
  (Forall2 (λ row row',
              if decide (Connections.ws_id row = w) then
                Connections.status row' = "disconnected" ∧
                Connections.disconnected_at row' = Some now_d ∧
                Connections.id row' = Connections.id row ∧
                Connections.ws_id row' = Connections.ws_id row ∧
                Connections.agent row' = Connections.agent row ∧
                Connections.metadata row' = Connections.metadata row ∧
                Connections.connected_at row' = Connections.connected_at row ∧
                Connections.last_heartbeat row' = Connections.last_heartbeat row ∧
                Connections.message_count row' = Connections.message_count row
              else row' = row)
     (connections (_conn st)) (connections (_conn (remove st w now_d).2))) ∧
  (∃ evicted,
     Forall2 (stamped_if evicted) (connections (_conn st))
       (connections (_conn (heartbeat_check fromisoformat st now timeout sql_now).2)) ∧
     ∀ res, (heartbeat_check fromisoformat st now timeout sql_now).1 = Ok res →
            evicted = timed_out res) ∧
  ((∀ n, message_count c = Int n → - 2 ^ 63 ≤ n ≤ 2 ^ 63 - 1) →
   ∃ rid row c1,
     (add json_dumps st connection).1 = Ok connection ∧
     connections (_conn (add json_dumps st connection).2) =
       filter (λ x, Connections.ws_id x ≠ ws_id c) (connections (_conn st))
       ++ [row] ∧
     row_of json_dumps c rid row ∧
     (∀ x, x ∈ connections (_conn st) → Connections.id x < rid) ∧
     filter (λ x, Connections.ws_id x = ws_id c)
       (connections (_conn (add json_dumps st connection).2)) = [row] ∧
     heap (add json_dumps st connection).2 !! connection = Some c1 ∧
     registered rid c c1 ∧
     get (add json_dumps st connection).2 (ws_id c) = Some connection) ∧
  ((∃ n, message_count c = Int n ∧ ¬ (- 2 ^ 63 ≤ n ≤ 2 ^ 63 - 1)) →
   add json_dumps st connection = (Raise OverflowError, st)).
Proof.
  intros Hwf Hget Hc. split_and!.
  - rewrite (remove_present_rows _ _ _ _ Hget).
    apply (Forall2_fmap_where (λ row, Connections.ws_id row = w) (stamped now_d)).
    apply stamped_row.
  - by apply heartbeat_check_store.
  - intros Hb%bindable_spec.
    rewrite (add_Ok _ st connection c Hc Hb). simpl.
    eexists _, _, _. split_and!; try done.
    + intros row Hrow. apply next_rowid_above.
      apply list_elem_of_fmap. by exists row.
    + rewrite filter_app, filter_replaced. simpl.
      by rewrite filter_cons, decide_True.
    + apply lookup_insert_eq.
    + done.
    + apply dict_get_set_eq.
  - intros Hn. apply (add_Raise _ st connection c Hc).
    by apply not_bindable_spec.
Qed.

Lemma foldl_tally_refs (h : gmap loc Connection) (rs : list loc) :
  ∀ acc,
    foldl (λ agents r, match h !! r with
                       | Some c => tally agents (agent c)
                       | None => agents
                       end) acc rs
    = foldl tally acc (agent <$> omap (λ r, h !! r) rs).
Proof.
  induction rs as [|r rs IH]; intros acc; simpl; [done|].
  destruct (h !! r); simpl; apply IH.
Qed.

Lemma dict_get_tally acc x a :
  dict_get (tally acc x) a =
    if decide (x = a) then Some (default 0 (dict_get acc a) + 1)
    else dict_get acc a.
Proof.
  unfold tally. case_decide as Hx.
  - subst. apply dict_get_set_eq.
  - by apply dict_get_set_ne.
Qed.

Lemma filter_eq_absent (a : string) (names : list string) :
  a ∉ names → filter (λ x, x = a) names = [].
Proof.
  induction names as [|x names IH]; [done|].
  rewrite not_elem_of_cons. intros [Hne Hin].
  rewrite filter_cons_False by done. by apply IH.
Qed.

Lemma dict_get_foldl_tally names :
  ∀ acc a,
    dict_get (foldl tally acc names) a =
      if decide (a ∈ names)
      then Some (default 0 (dict_get acc a)
                 + Z.of_nat (length (filter (λ x, x = a) names)))
      else dict_get acc a.
Proof.
  induction names as [|x names IH]; intros acc a; cbn [foldl].
  - rewrite decide_False; [done | apply not_elem_of_nil].
  - rewrite IH, dict_get_tally.
    destruct (decide (x = a)) as [->|Hne].
    + rewrite (decide_True (P := a ∈ a :: names)) by apply list_elem_of_here.
      rewrite filter_cons_True by done.
      destruct (decide (a ∈ names)) as [Hin|Hin]; simpl; f_equal; [lia|].
      rewrite filter_eq_absent by done. simpl. lia.
    + rewrite filter_cons_False by done.
      destruct (decide (a ∈ names)) as [Hin|Hin].
      * by rewrite decide_True by by apply list_elem_of_further.
      * rewrite decide_False; [done|]. rewrite not_elem_of_cons.
        split; [by intros ->|done].
Qed.

Lemma length_filter_others w (rows : list Connections.row) :
  NoDup (Connections.ws_id <$> rows) →
  Z.of_nat (length (filter (λ x, Connections.ws_id x ≠ w) rows)) + 1 =
    Z.of_nat (length rows)
    + (if decide (w ∈ Connections.ws_id <$> rows) then 0 else 1).
Proof.
  induction rows as [|x rows IH]; [done|].
  rewrite fmap_cons. intros [Hx Hnd]%NoDup_cons. specialize (IH Hnd).
  rewrite filter_cons.
  destruct (decide (Connections.ws_id x = w)) as [<-|Hne].
  - rewrite decide_False by tauto.
    rewrite decide_True by apply list_elem_of_here.
    rewrite decide_False in IH by done. simpl length. lia.
  - rewrite decide_True by done. simpl length.
    destruct (decide (w ∈ Connections.ws_id <$> rows)) as [Hin|Hin].
    + rewrite decide_True by by apply list_elem_of_further. lia.
    + rewrite decide_False; [lia|]. rewrite not_elem_of_cons. by split.
Qed.

(** C9, as amended.  [connection_stats] reports the size of the pool as
    the active count, the number of rows of [connections] and of
    [messages] as the two lifetime counts, and for each agent the number
    of connections of the pool with that agent (agents with none are
    absent); so after connecting a1 and a2 as alice and b1 as bob on a
    new store it reports 3 active connections and the agents alice: 2,
    bob: 1.  The number of rows of [connections] is the number of
    [ws_id]s ever stored, not of connects: a [remove] keeps it, an [add]
    that returns makes it the number of rows of the other [ws_id]s plus
    one, so it grows by one under a [ws_id] the table has not held and
    stays as it is under one it holds; an [add] that raises keeps it. *)
Theorem connection_stats_reports st :
  let s := connection_stats st in
  active_connections s = count st ∧
  active_connections s = Z.of_nat (length (get_all st)) ∧
  total_ever_connected s = Z.of_nat (length (connections (_conn st))) ∧
  total_messages s = Z.of_nat (length (messages (_conn st))) ∧
  (∀ w now,
     total_ever_connected (connection_stats (remove st w now).2)
     = total_ever_connected s) ∧
  (∀ connection c, heap st !! connection = Some c →
     (∀ n, message_count c = Int n → - 2 ^ 63 ≤ n ≤ 2 ^ 63 - 1) →
     total_ever_connected (connection_stats (add json_dumps st connection).2)
     = Z.of_nat (length (filter (λ row, Connections.ws_id row ≠ ws_id c)
                           (connections (_conn st)))) + 1 ∧
     (NoDup (Connections.ws_id <$> connections (_conn st)) →
      total_ever_connected (connection_stats (add json_dumps st connection).2)
      = total_ever_connected s
        + (if decide (ws_id c ∈ Connections.ws_id <$> connections (_conn st))
           then 0 else 1))) ∧
  (∀ connection c, heap st !! connection = Some c →
     (∃ n, message_count c = Int n ∧ ¬ (- 2 ^ 63 ≤ n ≤ 2 ^ 63 - 1)) →
     total_ever_connected (connection_stats (add json_dumps st connection).2)
     = total_ever_connected s) ∧
  (∀ a, dict_get (agents s) a =
          if decide (a ∈ agent <$> pool_objects st)
          then Some (Z.of_nat (length (filter (λ c, agent c = a) (pool_objects st))))
          else None) ∧
  (∀ t1 t2 t3 t4 t5 t6,
     let st1 := (add_connection json_dumps fresh_pool "a1" "alice" None t1 t2).2 in
     let st2 := (add_connection json_dumps st1 "a2" "alice" None t3 t4).2 in
     let st3 := (add_connection json_dumps st2 "b1" "bob" None t5 t6).2 in
     agents (connection_stats st3) = [("alice", 2); ("bob", 1)] ∧
     active_connections (connection_stats st3) = 3).
Proof.
  simpl. split_and!; try done.
  - unfold count, get_all, dict_values. by rewrite length_fmap.
  - intros w now. unfold sql_count_connections, remove.
    destruct (dict_get _ _); [|done]. simpl. by rewrite length_fmap.
  - intros connection c Hc Hb%bindable_spec.
    rewrite (add_Ok _ st connection c Hc Hb). unfold sql_count_connections.
    simpl. rewrite length_app. simpl. split; [lia|].
    intros Hnd. rewrite <-(length_filter_others (ws_id c)) by done. lia.
  - intros connection c Hc Hn%not_bindable_spec.
    by rewrite (add_Raise _ st connection c Hc Hn).
  - intros a. rewrite foldl_tally_refs.
    change (omap _ (get_all st)) with (pool_objects st).
    rewrite dict_get_foldl_tally. cbn [dict_get default].
    case_decide; [|done].
    rewrite Z.add_0_l. do 2 f_equal. clear.
    induction (pool_objects st) as [|c l IH]; [done|].
    rewrite fmap_cons, !filter_cons.
    destruct (decide (agent c = a)); simpl; by rewrite IH.
Qed.

End rows.

(** ** Message history *)

Section history.
Variable json_dumps : json → string.

Lemma string_leb_trans s1 s2 s3 :
  String.leb s1 s2 = true → String.leb s2 s3 = true → String.leb s1 s3 = true.
Proof.
  unfold String.leb. revert s2 s3.
  induction s1 as [|c1 s1 IH]; intros [|c2 s2] [|c3 s3]; simpl; try done.
  unfold Ascii.compare.
  destruct (N.compare_spec (Ascii.N_of_ascii c1) (Ascii.N_of_ascii c2)) as [H12|H12|H12];
    destruct (N.compare_spec (Ascii.N_of_ascii c2) (Ascii.N_of_ascii c3)) as [H23|H23|H23];
    try done.
  - rewrite H12, H23, N.compare_refl. apply IH.
  - intros _ _. rewrite H12. by rewrite (proj2 (N.compare_lt_iff _ _) H23).
  - intros _ _. rewrite <-H23. by rewrite (proj2 (N.compare_lt_iff _ _) H12).
  - intros _ _. by rewrite (proj2 (N.compare_lt_iff _ _) (N.lt_trans _ _ _ H12 H23)).
Qed.

Lemma string_leb_refl s : String.leb s s = true.
Proof. by destruct (String.leb_total s s). Qed.

#[local] Instance newer_first_total : Total newer_first.
Proof.
  intros a b. unfold newer_first.
  destruct (decide (Messages.sent_at a = Messages.sent_at b)) as [Heq|Hne].
  - rewrite Heq, string_leb_refl.
    destruct (Z.le_gt_cases (Messages.id b) (Messages.id a)); [by left|].
    right. split; [done|]. intros _. lia.
  - destruct (String.leb_total (Messages.sent_at a) (Messages.sent_at b)).
    + right. split; [done|]. by intros Heq.
    + left. split; [done|]. by intros Heq.
Qed.

#[local] Instance newer_first_trans : Transitive newer_first.
Proof.
  intros a b c [Hab Hab'] [Hbc Hbc']. split.
  - by eapply string_leb_trans.
  - intros Heq. rewrite Heq in Hab.
    pose proof (String.leb_antisym _ _ Hab Hbc) as Hcb.
    specialize (Hbc' Hcb). rewrite Hcb in Hab'.
    specialize (Hab' Heq). lia.
Qed.

(** The order of the query is the order [before]. *)
Lemma newer_first_before a b : newer_first a b → before a b.
Proof.
  intros [Hleb Hid]. unfold before.
  destruct (decide (Messages.sent_at a = Messages.sent_at b)) as [Heq|Hne].
  - right. split; [done | by apply Hid].
  - by left.
Qed.

Lemma StronglySorted_before l :
  StronglySorted newer_first l → StronglySorted before l.
Proof.
  induction 1 as [|x l _ IH Hx]; constructor; [done|].
  eapply Forall_impl; [exact Hx|]. intros y. apply newer_first_before.
Qed.

(** [ORDER BY sent_at DESC LIMIT ?] over [rows]. *)
Lemma sql_limit_order_newest rows limit :
  in_int64 limit →
  ∃ h, sql_limit limit (sql_order_by_sent_at_desc rows) = Ok h ∧
       newest_of rows limit h.
Proof.
  intros Hlimit. unfold sql_limit, sql_order_by_sent_at_desc.
  rewrite decide_True by done. eexists. split; [done|].
  pose proof (merge_sort_Permutation newer_first rows) as Hperm.
  pose proof (StronglySorted_before _ (StronglySorted_merge_sort newer_first rows))
    as Hsort.
  case_decide as Hneg.
  - exists []. rewrite app_nil_r. split_and!; [done|done|lia|done].
  - exists (drop (Z.to_nat limit) (merge_sort newer_first rows)).
    rewrite take_drop. split_and!; [done|done| |lia].
    intros _. by rewrite length_take, (Permutation_length Hperm).
Qed.

Lemma sql_limit_overflow {A} limit (rows : list A) :
  ¬ in_int64 limit → sql_limit limit rows = Raise OverflowError.
Proof. intros Hlimit. unfold sql_limit. by rewrite decide_False. Qed.

Lemma newest_of_subset rows limit h x : newest_of rows limit h → x ∈ h → x ∈ rows.
Proof.
  intros (rest & Hperm & _) Hx. rewrite <-Hperm. apply elem_of_app. by left.
Qed.

Lemma send_message_present st w r message mty sender uuid ts now :
  get st w = Some r →
  send_message json_dumps st w message mty sender uuid ts now =
    (Some (Message.mk (content_str json_dumps message) sender (Some w) mty uuid ts None),
     mkState
       (sql_update_message_count
          (mkDB (connections (_conn st))
                (messages (_conn st) ++
                   [Messages.mk
                      (next_rowid (seq_messages (_conn st))
                         (Messages.id <$> messages (_conn st)))
                      uuid mty sender (Some w)
                      (content_str json_dumps message) now 1])
                (heartbeat_log (_conn st))
                (seq_connections (_conn st))
                (next_rowid (seq_messages (_conn st))
                   (Messages.id <$> messages (_conn st)))
                (seq_heartbeat_log (_conn st)))
          w)
       (_pool st)
       (alter incr_message_count r (heap st))).
Proof.
  intros Hget. unfold send_message. rewrite Hget.
  unfold get in Hget. unfold increment_message_count. simpl. by rewrite Hget.
Qed.

Lemma next_rowid_seq seq ids : seq < next_rowid seq ids.
Proof. unfold next_rowid. lia. Qed.

(** Three rows of rising ids with a clock that does not go back, in the
    order of the query. *)
Lemma sorted_three a b e :
  Messages.id a < Messages.id b → Messages.id b < Messages.id e →
  String.leb (Messages.sent_at a) (Messages.sent_at b) = true →
  String.leb (Messages.sent_at b) (Messages.sent_at e) = true →
  sql_order_by_sent_at_desc [a; b; e] = [e; b; a].
Proof.
  intros Hab Hbe Lab Lbe. unfold sql_order_by_sent_at_desc.
  pose proof (string_leb_trans _ _ _ Lab Lbe) as Lae.
  apply StronglySorted_unique_strong with (R := newer_first).
  - intros x1 x2 Hx1 Hx2 [L12 I12] [L21 I21].
    pose proof (String.leb_antisym _ _ L12 L21) as Heq.
    specialize (I12 (eq_sym Heq)). specialize (I21 Heq).
    rewrite merge_sort_Permutation in Hx1. set_unfold in Hx1. set_unfold in Hx2.
    destruct Hx1 as [->|[->|[->|[]]]]; destruct Hx2 as [->|[->|[->|[]]]];
      first [done | lia].
  - apply StronglySorted_merge_sort; apply _.
  - repeat constructor; try done; intros; lia.
  - rewrite merge_sort_Permutation.
    exact (Permutation_rev [a; b; e]).
Qed.


End history.

(** ** The worked examples *)

(** A decidable statement about a closed term holds when its decision
    procedure evaluates to a proof. *)
Ltac evaluate := apply (bool_decide_unpack _); vm_compute; exact I.

(** The pool of the examples is the one the constructor builds on an
    empty store. *)
Lemma fresh_pool_init : ConnectionPool plain_loads empty_db = Some fresh_pool.
Proof. reflexivity. Qed.

(** Reconnecting under a disconnected [ws_id]: the row stamped
    [disconnected] (id 1) is gone from the store, which holds the new row
    (id 2) alone. *)
Lemma reconnect_deletes_disconnected_row :
  connections (_conn reconnect_2) =
    [Connections.mk 1 "ws-1" "alice" "{}" "2024-01-01T00:00:00.000001"
       "2024-01-01T00:00:00.000002" "disconnected" 0 (Some "2024-01-01 00:01:00")] ∧
  connections (_conn reconnect_3) =
    [Connections.mk 2 "ws-1" "alice" "{}" "2024-01-01T00:02:00.000001"
       "2024-01-01T00:02:00.000002" "active" 0 None] ∧
  ¬ ∃ row, row ∈ connections (_conn reconnect_3) ∧ Connections.id row = 1.
Proof.
  split_and!; [by vm_compute | by vm_compute |].
  intros (row & Hrow & Hid). revert Hrow. vm_compute. intros Hrow.
  apply list_elem_of_singleton in Hrow. subst row. simpl in Hid. lia.
Qed.

Lemma disconnect_keeps_rows_add_replaces_witness :
  wf reconnect_1 ∧ get reconnect_1 "ws-1" = Some 0%nat ∧
  (∃ row row',
     connections (_conn reconnect_1) = [row] ∧
     connections (_conn (remove reconnect_1 "ws-1" "2024-01-01 00:01:00").2) = [row'] ∧
     Connections.id row' = 1 ∧ Connections.status row' = "disconnected" ∧
     Connections.disconnected_at row' = Some "2024-01-01 00:01:00" ∧
     Connections.connected_at row' = Connections.connected_at row) ∧
  (∃ rid row,
     filter (λ x, Connections.ws_id x = "ws-1")
       (connections (_conn (add plain_dumps reconnect_1 0%nat).2)) = [row] ∧
     Connections.id row = rid ∧
     ∀ x, x ∈ connections (_conn reconnect_1) → Connections.id x < rid).
Proof.
  split_and!; [evaluate | reflexivity | |].
  - destruct (disconnect_keeps_rows_add_replaces plain_dumps iso_parse reconnect_1
                "ws-1" 0%nat "2024-01-01 00:01:00" noon 30 at_noon 0%nat
                (mkConnection "ws-1" "alice" (JDict []) "2024-01-01T00:00:00.000001"
                   "2024-01-01T00:00:00.000002" "active" 0 (Some 1)))
      as (Hrem & _); [evaluate | reflexivity | vm_compute; reflexivity |].
    destruct (connections (_conn reconnect_1)) as [|row [|]] eqn:Hrows;
      [discriminate | | discriminate].
    injection Hrows as <-.
    apply Forall2_cons_inv_l in Hrem as (row' & rest & Hrow' & ->%Forall2_nil_inv_l & ->).
    rewrite decide_True in Hrow' by reflexivity.
    destruct Hrow' as (Hst & Hdis & Hid & _ & _ & _ & Hca & _).
    eexists _, row'. split_and!; [reflexivity | reflexivity | by rewrite Hid | done | done | done].
  - destruct (disconnect_keeps_rows_add_replaces plain_dumps iso_parse reconnect_1
                "ws-1" 0%nat "2024-01-01 00:01:00" noon 30 at_noon 0%nat
                (mkConnection "ws-1" "alice" (JDict []) "2024-01-01T00:00:00.000001"
                   "2024-01-01T00:00:00.000002" "active" 0 (Some 1)))
      as (_ & _ & Hadd & _); [evaluate | reflexivity | vm_compute; reflexivity |].
    destruct Hadd as (rid & row & c1 & _ & _ & Hrow & Hrid & Hone & _).
    { intros n [= <-]. lia. }
    exists rid, row. split_and!; [exact Hone | apply Hrow | exact Hrid].
Defined.

(** The count of a connection that stands at the float [2.0**63], in the
    store after one broadcast at [2**63 - 1] and in memory once the pool
    is built anew, is not raised by a broadcast that targets it. *)
Lemma broadcast_at_the_brim :
  Connections.message_count <$> connections (_conn brim_1) = [Int (2 ^ 63 - 1)] ∧
  Connections.message_count <$> connections (_conn brim_2) = [Float63] ∧
  (broadcast plain_dumps brim_2 (JStr "hello") None "broadcast" None uuids at_noon).1
    = ["ws-1"] ∧
  Connections.message_count <$>
    connections (_conn (broadcast plain_dumps brim_2 (JStr "hello") None
                          "broadcast" None uuids at_noon).2) = [Float63] ∧
  ConnectionPool plain_loads (_conn brim_2) = Some brim_3 ∧
  message_count <$> pool_objects brim_3 = [Float63] ∧
  (broadcast plain_dumps brim_3 (JStr "hello") None "broadcast" None uuids at_noon).1
    = ["ws-1"] ∧
  message_count <$>
    pool_objects (broadcast plain_dumps brim_3 (JStr "hello") None
                    "broadcast" None uuids at_noon).2 = [Float63].
Proof. split_and!; vm_compute; reflexivity. Qed.

Lemma broadcast_targets_witness :
  wf trio ∧
  ∃ st' new,
    broadcast plain_dumps trio (JStr "hello") (Some is_alice) "broadcast" None
      uuids at_noon = (["a1"; "a2"], st') ∧
    length new = 2%nat ∧
    messages (_conn st') = messages (_conn trio) ++ new ∧
    Forall (λ m, Messages.delivered m = 1) new ∧
    (∃ c', heap st' !! 0%nat = Some c' ∧ message_count c' = Int 1) ∧
    (∃ c', heap st' !! 2%nat = Some c' ∧ message_count c' = Int 0).
Proof.
  split; [evaluate|].
  destruct (broadcast_targets plain_dumps trio (JStr "hello") (Some is_alice)
              "broadcast" None uuids at_noon)
    as (st' & new & Hrun & _ & _ & _ & Hobj & Hmsgs & Hnew & _); [evaluate|].
  exists st', new. split_and!.
  - rewrite Hrun. vm_compute. reflexivity.
  - apply Forall2_length in Hnew. rewrite <-Hnew. vm_compute. reflexivity.
  - done.
  - apply Forall_forall. intros m Hm.
    destruct (proj1 (list_elem_of_lookup _ _) Hm) as [i Hi].
    destruct (Forall2_lookup_r _ _ _ _ _ Hnew Hi) as (c & _ & Hd).
    apply Hd.
  - destruct (Hobj "a1" 0%nat
                (mkConnection "a1" "alice" (JDict []) "2024-01-01T00:00:00.000001"
                   "2024-01-01T00:00:00.000002" "active" 0 (Some 1)))
      as (_ & c' & Hc' & Hin & _); [reflexivity | vm_compute; reflexivity |].
    exists c'. split; [done|].
    destruct Hin as (Hn & _); [vm_compute; apply list_elem_of_here|].
    by apply (Hn 0).
  - destruct (Hobj "b1" 2%nat b1_object)
      as (_ & c' & Hc' & _ & Hout); [reflexivity | vm_compute; reflexivity |].
    exists c'. split; [done|]. rewrite Hout; [reflexivity|].
    vm_compute. intros Hin. set_unfold in Hin.
    destruct Hin as [[=]|[[=]|[]]].
Defined.

(** A sweep with a timeout that takes the cutoff before the year 1
    raises [OverflowError], and a sweep over a pool that holds a
    connection with an offset-aware heartbeat raises [TypeError]: no
    list comes back. *)
Lemma heartbeat_check_raises :
  get stale_pool "ws-stale" = Some 0%nat ∧
  heartbeat_check iso_parse stale_pool noon 63839707201 at_noon
    = (Raise OverflowError, stale_pool) ∧
  get aware_pool "ws-utc" = Some 0%nat ∧
  iso_parse "2024-01-01T11:59:59+00:00" = Some (Aware 63839707199000000 0) ∧
  heartbeat_check iso_parse aware_pool noon 30 at_noon
    = (Raise TypeError, aware_pool).
Proof. split_and!; vm_compute; reflexivity. Qed.

Lemma heartbeat_check_classifies_witness :
  wf stale_pool ∧ get stale_pool "ws-stale" = Some 0%nat ∧
  iso_parse "2020-01-01T00:00:00" = Some (Naive 63713433600000000) ∧
  63713433600000000 < noon - 30 * 1000000 ∧
  ∃ res st',
    heartbeat_check iso_parse stale_pool noon 30 at_noon = (Ok res, st') ∧
    "ws-stale" ∈ timed_out res ∧ ("ws-stale" ∉ active res) ∧
    get st' "ws-stale" = None.
Proof.
  split_and!; [evaluate | reflexivity | vm_compute; reflexivity | evaluate |].
  destruct (heartbeat_check_classifies iso_parse stale_pool "ws-stale" 0%nat
              (set_db_id (Some 1) stale_object) 63713433600000000 noon 30 at_noon)
    as (_ & _ & Hret); [evaluate | reflexivity | vm_compute; reflexivity
                       | vm_compute; reflexivity |].
  destruct Hret as (res & st' & Hrun & _ & Hold & _).
  - evaluate.
  - apply aware_free. evaluate.
  - exists res, st'. split; [done|]. apply Hold. evaluate.
Defined.

Lemma send_message_absent_witness :
  get fresh_pool "no-such-ws" = None ∧
  send_message plain_dumps fresh_pool "no-such-ws" (JStr "test") "data" None
    "uuid-0" "2024-01-01T12:00:00" "2024-01-01 12:00:00" = (None, fresh_pool).
Proof.
  split; [reflexivity|].
  apply (send_message_absent plain_dumps fresh_pool "no-such-ws"). reflexivity.
Defined.

(** A heartbeat that does not parse, swept with a negative timeout: the
    connection is listed as timed out and leaves the pool. *)
Lemma malformed_times_out_under_negative_timeout :
  iso_parse "garbage" = None ∧
  get garbled "c1" = Some 0%nat ∧
  (heartbeat_check iso_parse garbled noon (-1) at_noon).1
    = Ok (mkSweep [] ["c1"]) ∧
  get (heartbeat_check iso_parse garbled noon (-1) at_noon).2 "c1" = None.
Proof. split_and!; vm_compute; reflexivity. Qed.

Lemma heartbeat_check_malformed_witness :
  wf garbled ∧ get garbled "c1" = Some 0%nat ∧ iso_parse "garbage" = None ∧
  (0 ≤ 30) ∧ 0 ≤ noon - 30 * 1000000 ∧ noon ≤ max_datetime ∧
  ∃ res st',
    heartbeat_check iso_parse garbled noon 30 at_noon = (Ok res, st') ∧
    "c1" ∈ active res ∧ ("c1" ∉ timed_out res) ∧ get st' "c1" = Some 0%nat.
Proof.
  split_and!; [evaluate | reflexivity | vm_compute; reflexivity | lia
              | evaluate | evaluate |].
  destruct (heartbeat_check_malformed iso_parse garbled "c1" 0%nat
              (mkConnection "c1" "probe" (JDict []) "2024-01-01T00:00:00.000001"
                            "garbage" "active" 0 (Some 1))
              noon 30 at_noon)
    as (res & st' & Hrun & Hact & Hout & Hget & _).
  - evaluate.
  - reflexivity.
  - vm_compute. reflexivity.
  - vm_compute. reflexivity.
  - lia.
  - evaluate.
  - evaluate.
  - apply aware_free. evaluate.
  - exists res, st'. by split_and!.
Defined.

(** A second [add] under a [ws_id] of the pool, with a [message_count]
    of [2**63]: it raises, and the first object stays in its place. *)
Lemma repeat_add_raises :
  get crowded "ws-1" = Some 0%nat ∧
  heap crowded !! 1%nat = Some overfull ∧ ws_id overfull = "ws-1" ∧
  add plain_dumps crowded 1%nat = (Raise OverflowError, crowded).
Proof. split_and!; vm_compute; reflexivity. Qed.

Lemma get_after_add_witness :
  heap (new_connection fresh_pool stale_object).2 !! 0%nat = Some stale_object ∧
  ∃ st1,
    add plain_dumps (new_connection fresh_pool stale_object).2 0%nat = (Ok 0%nat, st1) ∧
    get st1 "ws-stale" = Some 0%nat ∧
    ∃ row, connections (_conn st1) = [row] ∧ Connections.id row = 1 ∧
           Connections.agent row = "stale-agent".
Proof.
  split; [vm_compute; reflexivity|].
  destruct (get_after_add plain_dumps iso_parse
              (new_connection fresh_pool stale_object).2 0%nat stale_object)
    as (_ & Hret); [vm_compute; reflexivity|].
  destruct Hret as (st1 & rid & c1 & row & Hadd & Hget & _ & _ & Hrows & Hrow & _).
  { intros n [= <-]. lia. }
  exists st1. split_and!; [exact Hadd | exact Hget |].
  exists row. split_and!; [exact Hrows | | apply Hrow].
  assert (st1 = (add plain_dumps (new_connection fresh_pool stale_object).2 0%nat).2)
    as -> by by rewrite Hadd.
  vm_compute in Hrows. injection Hrows as <-. reflexivity.
Defined.

Lemma remove_absent_idempotent_witness :
  get fresh_pool "ghost-ws" = None ∧
  remove_repeatedly fresh_pool "ghost-ws"
    ["2024-01-01 12:00:00"; "2024-01-01 12:00:01"; "2024-01-01 12:00:02"]
  = ([false; false; false], fresh_pool).
Proof.
  split; [reflexivity|].
  apply (remove_absent_idempotent fresh_pool "ghost-ws"). left. reflexivity.
Defined.



(** After connect, disconnect and connect again under one [ws_id], two
    connections have been connected and the count reported as
    [total_ever_connected] is 1. *)
Lemma reconnect_counts_once :
  (add_connection plain_dumps fresh_pool "ws-1" "alice" None
     "2024-01-01T00:00:00.000001" "2024-01-01T00:00:00.000002").1 = Ok 0%nat ∧
  (remove_connection reconnect_1 "ws-1" "2024-01-01 00:01:00").1 = true ∧
  (add_connection plain_dumps reconnect_2 "ws-1" "alice" None
     "2024-01-01T00:02:00.000001" "2024-01-01T00:02:00.000002").1 = Ok 1%nat ∧
  total_ever_connected (connection_stats reconnect_3) = 1.
Proof. split_and!; vm_compute; reflexivity. Qed.

(** A heartbeat with a latency of [2**63]: the call raises; the object
    carries the new [last_heartbeat] and no row is logged. *)
Lemma update_heartbeat_raises :
  get trio "a1" = Some 0%nat ∧
  (update_heartbeat trio "a1" (Some (2 ^ 63)) "2024-01-01T12:00:00.000001"
     "2024-01-01 12:00:00").1 = Raise OverflowError ∧
  heartbeat_log
    (_conn (update_heartbeat trio "a1" (Some (2 ^ 63)) "2024-01-01T12:00:00.000001"
              "2024-01-01 12:00:00").2) = [] ∧
  last_heartbeat <$>
    heap (update_heartbeat trio "a1" (Some (2 ^ 63)) "2024-01-01T12:00:00.000001"
            "2024-01-01 12:00:00").2 !! 0%nat
  = Some "2024-01-01T12:00:00.000001".
Proof. split_and!; vm_compute; reflexivity. Qed.

Lemma update_heartbeat_frame_witness :
  wf stale_pool ∧ get stale_pool "ws-stale" = Some 0%nat ∧
  ∃ st' hb,
    update_heartbeat stale_pool "ws-stale" (Some 5) "2024-01-01T12:00:00.000001"
      "2024-01-01 12:00:00" = (Ok true, st') ∧
    heartbeat_log (_conn st') = [hb] ∧ HeartbeatLog.latency_ms hb = Some 5 ∧
    last_heartbeat <$> heap st' !! 0%nat = Some "2024-01-01T12:00:00.000001".
Proof.
  split_and!; [evaluate | reflexivity |].
  destruct (update_heartbeat_frame stale_pool "ws-stale" 0%nat
              (set_db_id (Some 1) stale_object) (Some 5)
              "2024-01-01T12:00:00.000001" "2024-01-01 12:00:00")
    as (res & st' & c' & Hrun & Hok & _ & Hc' & Hts & _);
    [evaluate | reflexivity | vm_compute; reflexivity |].
  destruct Hok as (-> & hb & Hlog & _ & _ & Hlat).
  { intros n [= <-]. lia. }
  exists st', hb. split_and!; [exact Hrun | exact Hlog | exact Hlat |].
  etrans; [exact (f_equal (fmap last_heartbeat) Hc')|]. simpl. by rewrite Hts.
Defined.

(** ** The tests of the repository, run on the model *)

Example test_add_and_get_connection :
  let '(res, st) :=
    add_connection plain_dumps fresh_pool "ws-001" "octavia"
      (Some (JDict [("ip", JStr "127.0.0.1")]))
      "2024-01-01T11:59:59.000001" "2024-01-01T11:59:59.000002" in
  let c := 0%nat in
  res = Ok c ∧
  db_id <$> heap st !! c = Some (Some 1) ∧
  ws_id <$> heap st !! c = Some "ws-001" ∧
  agent <$> heap st !! c = Some "octavia" ∧
  metadata <$> heap st !! c = Some (JDict [("ip", JStr "127.0.0.1")]) ∧
  get st "ws-001" = Some c.
Proof. vm_compute. split_and!; reflexivity. Qed.

Example test_remove_connection :
  let st := connect fresh_pool "ws-remove" "alice" in
  is_Some (get st "ws-remove") ∧
  (remove_connection st "ws-remove" "2024-01-01 12:00:00").1 = true ∧
  get (remove_connection st "ws-remove" "2024-01-01 12:00:00").2 "ws-remove" = None.
Proof. vm_compute. split_and!; [by eexists | reflexivity | reflexivity]. Qed.

Example test_remove_nonexistent :
  (remove_connection fresh_pool "ghost-ws" "2024-01-01 12:00:00").1 = false.
Proof. reflexivity. Qed.

Example test_broadcast_all :
  let st := connect (connect (connect fresh_pool "ws-a" "alice") "ws-b" "octavia")
                    "ws-c" "lucidia" in
  length (broadcast plain_dumps st (JDict [("event", JStr "deploy")]) None
            "broadcast" None uuids at_noon).1 = 3%nat.
Proof. vm_compute. reflexivity. Qed.

Example test_broadcast_with_filter :
  let st := connect (connect (connect fresh_pool "ws-f1" "alice") "ws-f2" "alice")
                    "ws-f3" "octavia" in
  (broadcast plain_dumps st (JStr "hello") (Some is_alice)
     "broadcast" None uuids at_noon).1 = ["ws-f1"; "ws-f2"].
Proof. vm_compute. reflexivity. Qed.

Example test_send_direct_message :
  let st := connect fresh_pool "ws-direct" "aria" in
  (send_message plain_dumps st "ws-direct" (JDict [("text", JStr "ping")]) "ping"
     None "uuid-0" "2024-01-01T12:00:00.000001" "2024-01-01 12:00:00").1
  = Some (Message.mk (plain_dumps (JDict [("text", JStr "ping")])) None
            (Some "ws-direct") "ping" "uuid-0" "2024-01-01T12:00:00.000001" None).
Proof. vm_compute. reflexivity. Qed.

Example test_send_to_nonexistent :
  (send_message plain_dumps fresh_pool "no-such-ws" (JStr "test") "data" None
     "uuid-0" "2024-01-01T12:00:00.000001" "2024-01-01 12:00:00").1 = None.
Proof. reflexivity. Qed.

Example test_heartbeat_update :
  let st := connect fresh_pool "ws-hb" "cipher" in
  (update_heartbeat st "ws-hb" (Some 5) "2024-01-01T12:00:00.000001"
     "2024-01-01 12:00:00").1 = Ok true.
Proof. vm_compute. reflexivity. Qed.

Example test_heartbeat_check_timeout :
  let st := poke_last_heartbeat (connect fresh_pool "ws-stale" "stale-agent")
              "ws-stale" "2020-01-01T00:00:00" in
  ∃ res, (heartbeat_check iso_parse st noon 30 at_noon).1 = Ok res ∧
         "ws-stale" ∈ timed_out res ∧
         get (heartbeat_check iso_parse st noon 30 at_noon).2 "ws-stale" = None.
Proof.
  eexists. vm_compute. split_and!; [reflexivity | apply list_elem_of_here | reflexivity].
Qed.

Example test_heartbeat_check_active :
  let st := connect fresh_pool "ws-live" "live-agent" in
  ∃ res, (heartbeat_check iso_parse st noon 30 at_noon).1 = Ok res ∧
         "ws-live" ∈ active res.
Proof. eexists. vm_compute. split; [reflexivity | apply list_elem_of_here]. Qed.

Example test_message_history :
  let st := send (send (connect fresh_pool "ws-hist" "history-agent")
                       "ws-hist" "msg1") "ws-hist" "msg2" in
  ∃ h, get_message_history (_conn st) (Some "ws-hist") 10 = Ok h ∧
       length h = 2%nat.
Proof. eexists. vm_compute. split; reflexivity. Qed.

Example test_connection_stats :
  let st := connect (connect (connect fresh_pool "ws-s1" "agentA") "ws-s2" "agentA")
                    "ws-s3" "agentB" in
  active_connections (connection_stats st) = 3 ∧
  dict_get (agents (connection_stats st)) "agentA" = Some 2.
Proof. vm_compute. split; reflexivity. Qed.

Example test_message_count_increments :
  let st := send (send (send (connect fresh_pool "ws-cnt" "counter-agent")
                             "ws-cnt" "a") "ws-cnt" "b") "ws-cnt" "c" in
  ∃ r, get st "ws-cnt" = Some r ∧ message_count <$> heap st !! r = Some (Int 3).
Proof. exists 0%nat. vm_compute. split; reflexivity. Qed.

(** * Further properties of the code *)

(** ** Direct messages *)

Section direct.
Variable json_dumps : json → string.
Variable fromisoformat : string → option datetime.


Lemma broadcast_loop_send_each message mty sender uuid4 ts now targets :
  ∀ i st acc, wf st → in_pool st targets →
    (broadcast_loop (content_str json_dumps message) mty sender uuid4 now
       i targets st acc).2
    = send_each json_dumps message mty sender uuid4 ts now i
        (ws_id <$> omap (λ r, heap st !! r) targets) st.
Proof.
  induction targets as [|r targets IH]; intros i st acc Hwf Hin; [done|].
  destruct (in_pool_object st r targets Hwf Hin) as (c & Hc & Hget).
  cbn [broadcast_loop omap list_omap]. rewrite Hc. cbn [fmap list_fmap send_each].
  assert ((send_message json_dumps st (ws_id c) message mty sender
             (uuid4 i) (ts i) (now i)).2
          = increment_message_count
              (with_conn (sql_insert_message (_conn st) (uuid4 i) mty sender
                            (Some (ws_id c)) (content_str json_dumps message) (now i)) st)
              (ws_id c)) as ->.
  { unfold send_message. by rewrite Hget. }
  set (st1 := with_conn _ st).
  assert (wf (increment_message_count st1 (ws_id c))) as Hwf2
    by by apply wf_increment_message_count, wf_with_conn.
  assert (in_pool (increment_message_count st1 (ws_id c)) targets) as Hin2.
  { destruct (in_pool_tail _ _ _ Hin) as [Hnd Hall]. split; [done|].
    intros r' Hr'. rewrite increment_message_count_pool. by apply Hall. }
  rewrite (IH (S i) _ _ Hwf2 Hin2). f_equal. f_equal.
  apply list_omap_ext. apply Forall_Forall2_diag, Forall_forall.
  intros r' Hr'.
  rewrite (increment_message_count_present st1 (ws_id c) r Hget). simpl.
  rewrite lookup_alter_ne; [done|]. intros ->.
  by destruct Hin as [[? ?]%NoDup_cons _].
Qed.

(** X2.  The state a [broadcast] leaves is the state that [send_message] to
    each returned [ws_id], in the order returned, leaves. *)
Theorem broadcast_is_send_each st message filter_fn mty sender uuid4 ts now :
  wf st →
  (broadcast json_dumps st message filter_fn mty sender uuid4 now).2
  = send_each json_dumps message mty sender uuid4 ts now 0
      (broadcast json_dumps st message filter_fn mty sender uuid4 now).1 st.
Proof.
  intros Hwf.
  destruct (broadcast_unfold json_dumps st message filter_fn mty sender uuid4 now Hwf)
    as (targets & Hin & Hobjs & _ & Heq).
  destruct (broadcast_loop_spec (content_str json_dumps message) mty sender
              uuid4 now targets 0 st [] Hwf Hin) as (st' & new & Hrun & _).
  rewrite Heq, (broadcast_loop_send_each message mty sender uuid4 ts now) by done.
  by rewrite Hrun.
Qed.

(** X6.  A connection whose heartbeat has just been refreshed with a
    timestamp inside the timeout survives the sweep that follows, when
    that sweep returns: its cutoff is a [datetime] and no connection of
    the pool carries an offset-aware heartbeat. *)
Theorem heartbeat_then_sweep st w r latency_ms ts now_hb t now timeout sql_now :
  wf st → get st w = Some r →
  fromisoformat ts = Some (Naive t) → ¬ (t < now - timeout * 1000000) →
  0 ≤ now - timeout * 1000000 ≤ max_datetime →
  (∀ w' r' c' t' o,
     get st w' = Some r' → heap st !! r' = Some c' →
     fromisoformat (last_heartbeat c') ≠ Some (Aware t' o)) →
  let st1 := (update_heartbeat st w latency_ms ts now_hb).2 in
  ∃ res,
    (heartbeat_check fromisoformat st1 now timeout sql_now).1 = Ok res ∧
    w ∈ active res ∧ (w ∉ timed_out res) ∧
    get (heartbeat_check fromisoformat st1 now timeout sql_now).2 w = Some r.
Proof.
  intros Hwf Hget Ht Hin Hrange Hno st1.
  assert (wf st1) as Hwf1 by by apply wf_update_heartbeat.
  pose proof (proj1 (wf_spec _) Hwf) as [_ Hobj].
  destruct (Hobj _ _ (dict_get_Some_elem _ _ _ Hget)) as (c & Hc & _).
  destruct (update_heartbeat_memory st w r latency_ms ts now_hb Hget)
    as [Hpool1 Hheap1]. fold st1 in Hpool1, Hheap1.
  assert (get st1 w = Some r ∧ heap st1 !! r = Some (set_last_heartbeat ts c))
    as [Hget1 Hc1].
  { unfold get in *. rewrite Hpool1, Hheap1. split; [done|].
    by rewrite lookup_alter_eq, Hc. }
  assert (∀ w' r' c' t' o,
            get st1 w' = Some r' → heap st1 !! r' = Some c' →
            fromisoformat (last_heartbeat c') ≠ Some (Aware t' o)) as Hno1.
  { intros w' r' c' t' o Hget' Hc'. unfold get in Hget'.
    rewrite Hpool1 in Hget'. rewrite Hheap1 in Hc'.
    destruct (decide (r' = r)) as [->|Hne].
    - rewrite lookup_alter_eq, Hc in Hc'.
      injection Hc' as <-. simpl. by rewrite Ht.
    - rewrite lookup_alter_ne in Hc' by done. by eapply Hno. }
  destruct (heartbeat_check_verdict fromisoformat st1 w r _ now timeout sql_now
              Hwf1 Hget1 Hc1 Hrange (no_aware_objects fromisoformat st1 Hwf1 Hno1))
    as (res & st' & -> & _ & _ & Hfresh).
  exists res. simpl. destruct Hfresh as (? & ? & ? & _); [|done].
  unfold stale, heartbeat_of. simpl. by rewrite Ht.
Qed.

End direct.

(** ** More on the sweep *)

Section sweeps.
Variable json_dumps : json → string.
Variable fromisoformat : string → option datetime.

Lemma foldl_dict_del_filter {V} (ws : list string) :
  ∀ d : list (string * V), foldl dict_del d ws = filter (λ kv, kv.1 ∉ ws) d.
Proof.
  induction ws as [|k ws IH]; intros d; cbn [foldl].
  - symmetry. induction d as [|kv d IHd]; [done|].
    rewrite filter_cons_True by apply not_elem_of_nil. by f_equal.
  - rewrite IH. unfold dict_del. rewrite list_filter_filter.
    apply list_filter_iff. intros kv. rewrite not_elem_of_cons. tauto.
Qed.

(** Membership of a pool key among the [ws_id]s of the pool objects that
    satisfy [P]. *)
Lemma pool_object_mem st w r c (P : Connection → Prop) `{!∀ x, Decision (P x)} :
  wf st → get st w = Some r → heap st !! r = Some c →
  w ∈ ws_id <$> filter P (pool_objects st) ↔ P c.
Proof.
  intros Hwf Hget Hr. split.
  - intros (c' & Hws & [HP' Hin]%list_elem_of_filter)%list_elem_of_fmap.
    by rewrite <-(wf_pool_object _ _ _ _ _ Hwf Hget Hr Hin (eq_sym Hws)).
  - intros HPc. apply list_elem_of_fmap. exists c. split.
    + symmetry. by eapply wf_get_ws_id.
    + apply list_elem_of_filter. split; [done|]. by eapply pool_object_get.
Qed.

Section instant.
Variables (now cutoff : Z) (sql_now : nat → string).

Local Abbreviation loop := (heartbeat_loop fromisoformat now cutoff sql_now).
Local Abbreviation old := (stale fromisoformat now cutoff).

(** The keys the sweep leaves in the pool are the ids it reports active. *)
Lemma survivors_keys st (l : list (string * loc)) :
  wf st → (∀ kv, kv ∈ l → kv ∈ _pool st) →
  (filter (λ kv, kv.1 ∉ ws_id <$> filter old (pool_objects st)) l).*1
  = ws_id <$> filter (λ c, ¬ old c) (omap (λ r, heap st !! r) l.*2).
Proof.
  intros Hwf. induction l as [|[k r] l IH]; intros Hsub; [done|].
  pose proof (proj1 (wf_spec _) Hwf) as [_ Hobj].
  destruct (Hobj k r) as (c & Hc & Hk); [apply Hsub, list_elem_of_here|].
  assert (get st k = Some r) as Hget
    by (apply wf_elem_get; [done | apply Hsub, list_elem_of_here]).
  rewrite filter_cons, fmap_cons. cbn [omap list_omap snd fst]. rewrite Hc.
  rewrite filter_cons.
  specialize (IH (λ kv Hkv, Hsub kv (list_elem_of_further _ _ _ Hkv))).
  pose proof (pool_object_mem st k r c old Hwf Hget Hc) as Hmem.
  destruct (decide (old c)) as [Hold|Hold].
  - rewrite (decide_False (P := ¬ old c)) by (intros Hn; by apply Hn).
    rewrite decide_False by (intros Hn; apply Hn; by apply Hmem).
    apply IH.
  - rewrite (decide_True (P := ¬ old c)) by done.
    rewrite decide_True by by rewrite Hmem.
    rewrite !fmap_cons. simpl. rewrite Hk. f_equal. apply IH.
Qed.

(** A sweep over objects none of which is stale or carries an aware
    heartbeat lists them all as active and changes nothing. *)
Lemma heartbeat_loop_quiet snapshot :
  ∀ i st res,
    (∀ r c, r ∈ snapshot → heap st !! r = Some c →
            ¬ old c ∧ ¬ aware fromisoformat c) →
    loop i snapshot st res =
      (mkSweep (active res ++ (ws_id <$> omap (λ r, heap st !! r) snapshot))
               (timed_out res), None, st).
Proof.
  induction snapshot as [|r snapshot IH]; intros i st res Hall.
  - simpl. rewrite app_nil_r. by destruct res.
  - destruct (heap st !! r) as [c|] eqn:Hc.
    + rewrite (heartbeat_loop_step _ _ _ _ _ _ _ _ _ c) by done.
      destruct (Hall r c) as [Hold Haware]; [apply list_elem_of_here | done |].
      rewrite !decide_False by done.
      rewrite IH.
      * cbn [omap list_omap]. rewrite Hc. simpl. by rewrite <-app_assoc.
      * intros r' c' Hr'. apply Hall. by apply list_elem_of_further.
    + rewrite heartbeat_loop_skip by done. cbn [omap list_omap]. rewrite Hc.
      apply IH. intros r' c' Hr'. apply Hall. by apply list_elem_of_further.
Qed.

Lemma heartbeat_loop_messages snapshot :
  ∀ i st res,
    messages (_conn (loop i snapshot st res).2) = messages (_conn st) ∧
    heartbeat_log (_conn (loop i snapshot st res).2) = heartbeat_log (_conn st).
Proof.
  induction snapshot as [|r snapshot IH]; intros i st res; [done|].
  destruct (heap st !! r) as [c|] eqn:Hc.
  - rewrite (heartbeat_loop_step _ _ _ _ _ _ _ _ _ c) by done.
    repeat case_decide; [done| |apply IH].
    destruct (IH (S i) (remove st (ws_id c) (sql_now i)).2
                (mkSweep (active res) (timed_out res ++ [ws_id c]))) as [-> ->].
    unfold remove. by destruct (dict_get _ _).
  - rewrite heartbeat_loop_skip by done. apply IH.
Qed.
End instant.

Lemma sweep_messages st now timeout sql_now :
  messages (_conn (sweep fromisoformat st now timeout sql_now).2) = messages (_conn st) ∧
  heartbeat_log (_conn (sweep fromisoformat st now timeout sql_now).2)
    = heartbeat_log (_conn st).
Proof.
  unfold sweep. cbn zeta. case_decide; [apply heartbeat_loop_messages | done].
Qed.

(** The lists of a sweep, also of one that an exception ends. *)
Lemma sweep_lists st now timeout sql_now :
  0 ≤ now - timeout * 1000000 ≤ max_datetime →
  (sweep fromisoformat st now timeout sql_now).1 =
    (mkSweep
       (ws_id <$> filter (λ c, ¬ stale fromisoformat now (now - timeout * 1000000) c)
                    (reached fromisoformat (pool_objects st)))
       (ws_id <$> filter (stale fromisoformat now (now - timeout * 1000000))
                    (reached fromisoformat (pool_objects st))),
     if decide (Forall (λ c, ¬ aware fromisoformat c) (pool_objects st))
     then None else Some TypeError).
Proof.
  intros Hrange. unfold sweep. cbn zeta. rewrite decide_True by done.
  by rewrite heartbeat_loop_lists.
Qed.

(** What [heartbeat_check] returns or raises. *)
Lemma heartbeat_check_result st now timeout sql_now :
  (heartbeat_check fromisoformat st now timeout sql_now).1 =
    if decide (0 ≤ now - timeout * 1000000 ≤ max_datetime) then
      if decide (Forall (λ c, ¬ aware fromisoformat c) (pool_objects st)) then
        Ok (mkSweep
              (ws_id <$> filter (λ c, ¬ stale fromisoformat now
                                        (now - timeout * 1000000) c)
                           (pool_objects st))
              (ws_id <$> filter (stale fromisoformat now (now - timeout * 1000000))
                           (pool_objects st)))
      else Raise TypeError
    else Raise OverflowError.
Proof.
  unfold heartbeat_check.
  destruct (decide (0 ≤ now - timeout * 1000000 ≤ max_datetime)) as [Hrange|Hout].
  - pose proof (sweep_lists st now timeout sql_now Hrange) as Hl.
    destruct (sweep fromisoformat st now timeout sql_now) as [[res e] st'].
    simpl in Hl. injection Hl as -> ->.
    case_decide; [|done]. by rewrite reached_all.
  - by rewrite sweep_overflow.
Qed.

(** X7.  A sweep that returns (its cutoff is a [datetime] and no
    connection of the pool carries an offset-aware heartbeat) splits the
    keys of the pool between its two lists, leaves in the pool exactly
    the connections it lists as active, and a second sweep at the same
    instant with the same timeout returns the same active list and
    evicts nothing. *)
Theorem heartbeat_check_partition st now timeout sql_now :
  wf st →
  0 ≤ now - timeout * 1000000 ≤ max_datetime →
  (∀ w r c t o,
     get st w = Some r → heap st !! r = Some c →
     fromisoformat (last_heartbeat c) ≠ Some (Aware t o)) →
  ∃ res st',
    heartbeat_check fromisoformat st now timeout sql_now = (Ok res, st') ∧
    active res ++ timed_out res ≡ₚ dict_keys (_pool st) ∧
    Z.of_nat (length (active res)) + Z.of_nat (length (timed_out res)) = count st ∧
    dict_keys (_pool st') = active res ∧
    ∀ sql_now',
      heartbeat_check fromisoformat st' now timeout sql_now'
      = (Ok (mkSweep (active res) []), st').
Proof.
  intros Hwf Hrange Hno%no_aware_objects; [|done].
  destruct (sweep_facts fromisoformat st now timeout sql_now Hwf Hrange)
    as (st' & Hrun & Hheap & Hpool & _).
  cbn zeta in Hrun, Hpool.
  rewrite reached_all in Hrun, Hpool by done.
  rewrite decide_True in Hrun by done.
  set (cutoff := now - timeout * 1000000) in *.
  eexists _, st'. split; [exact (heartbeat_check_sweep _ _ _ _ _ _ _ _ Hrun)|].
  simpl.
  assert (wf st') as Hwf'.
  { replace st' with (sweep fromisoformat st now timeout sql_now).2
      by by rewrite Hrun.
    by apply wf_sweep. }
  assert (dict_keys (_pool st')
          = ws_id <$> filter (λ c, ¬ stale fromisoformat now cutoff c)
                        (pool_objects st)) as Hkeys.
  { rewrite Hpool, foldl_dict_del_filter.
    exact (survivors_keys now cutoff st (_pool st) Hwf (λ kv Hkv, Hkv)). }
  assert ((ws_id <$> filter (λ c, ¬ stale fromisoformat now cutoff c) (pool_objects st))
          ++ (ws_id <$> filter (stale fromisoformat now cutoff) (pool_objects st))
          ≡ₚ dict_keys (_pool st)) as Hperm.
  { rewrite <-pool_objects_keys by done.
    rewrite <-fmap_app. apply fmap_Permutation.
    rewrite (comm (++)). apply filter_app_complement. }
  split_and!; [done| |done|].
  - unfold count. rewrite <-Nat2Z.inj_add, <-length_app.
    rewrite (Permutation_length Hperm). unfold dict_keys. by rewrite length_fmap.
  - intros sql_now'.
    apply (heartbeat_check_sweep fromisoformat st' now timeout sql_now' _ None).
    unfold sweep. cbn zeta. rewrite decide_True by done. fold cutoff.
    rewrite heartbeat_loop_quiet.
    + change (omap _ (get_all st')) with (pool_objects st').
      rewrite pool_objects_keys by done. by rewrite Hkeys.
    + intros r c ([k r'] & -> & Hin)%list_elem_of_fmap Hc. simpl in Hc.
      rewrite Hpool, foldl_dict_del_filter in Hin.
      apply list_elem_of_filter in Hin as [Hk Hin]. simpl in Hk.
      rewrite Hheap in Hc. split.
      * intros Hold. apply Hk.
        apply (pool_object_mem st k r' c _ Hwf); [by apply wf_elem_get|done|done].
      * rewrite Forall_forall in Hno. apply Hno.
        eapply pool_object_get; [by apply wf_elem_get|done].
Qed.

(** X8.  A longer timeout evicts no connection that a shorter one spares:
    what a sweep that returns lists as timed out, the sweep with a
    shorter timeout at the same instant, whose cutoff is still a
    [datetime], returns and lists as timed out too. *)
Theorem heartbeat_check_timeout_monotone st now t1 t2 sql_now1 sql_now2 w res2 :
  t1 ≤ t2 →
  now - t1 * 1000000 ≤ max_datetime →
  (heartbeat_check fromisoformat st now t2 sql_now2).1 = Ok res2 →
  w ∈ timed_out res2 →
  ∃ res1,
    (heartbeat_check fromisoformat st now t1 sql_now1).1 = Ok res1 ∧
    w ∈ timed_out res1.
Proof.
  intros Hle Hmax. rewrite !heartbeat_check_result.
  destruct (decide (0 ≤ now - t2 * 1000000 ≤ max_datetime)) as [Hr2|]; [|done].
  destruct (decide (Forall _ _)); [|done].
  intros [= <-]. simpl.
  intros (c & -> & [Hold Hin]%list_elem_of_filter)%list_elem_of_fmap.
  rewrite decide_True by lia. eexists. split; [done|]. simpl.
  apply list_elem_of_fmap. exists c. split; [done|].
  apply list_elem_of_filter. split; [|done].
  unfold stale in *. destruct (heartbeat_of fromisoformat now c); [lia|done].
Qed.

(** X9.  Once removed, a [ws_id] is out of reach: [get], [send_message] and
    [update_heartbeat] fail on it without a change, and neither a broadcast
    nor a sweep names it, be it in the lists the sweep returns or in
    those it has built when an exception ends it. *)
Theorem removed_is_out_of_reach st w now_d :
  wf st →
  let st' := (remove st w now_d).2 in
  get st' w = None ∧
  (∀ m mty sender uuid ts now,
     send_message json_dumps st' w m mty sender uuid ts now = (None, st')) ∧
  (∀ lat ts now, update_heartbeat st' w lat ts now = (Ok false, st')) ∧
  (∀ m f mty sender uuid4 now,
     w ∉ (broadcast json_dumps st' m f mty sender uuid4 now).1) ∧
  (∀ now timeout sql_now,
     (w ∉ active (sweep fromisoformat st' now timeout sql_now).1.1) ∧
     (w ∉ timed_out (sweep fromisoformat st' now timeout sql_now).1.1) ∧
     ∀ res, (heartbeat_check fromisoformat st' now timeout sql_now).1 = Ok res →
            (w ∉ active res) ∧ (w ∉ timed_out res)).
Proof.
  intros Hwf st'.
  assert (get st' w = None) as Hget by apply get_remove_eq.
  assert (wf st') as Hwf' by by apply wf_remove.
  assert (∀ c, c ∈ pool_objects st' → ws_id c ≠ w) as Hobj.
  { intros c Hin <-.
    assert (ws_id c ∈ dict_keys (_pool st')) as Hk.
    { rewrite <-pool_objects_keys by done. by apply list_elem_of_fmap_2. }
    apply dict_get_is_Some in Hk as [r Hr]. unfold get in Hget. congruence. }
  assert (∀ (P : Connection → Prop) `{!∀ x, Decision (P x)},
            w ∉ ws_id <$> filter P (pool_objects st')) as Hout.
  { intros P HP (c & -> & [_ Hin]%list_elem_of_filter)%list_elem_of_fmap.
    by apply (Hobj c). }
  assert (∀ (P : Connection → Prop) `{!∀ x, Decision (P x)},
            w ∉ ws_id <$> filter P (reached fromisoformat (pool_objects st')))
    as Hout'.
  { intros P HP (c & -> & [_ Hin]%list_elem_of_filter)%list_elem_of_fmap.
    apply reached_sublist in Hin. by apply (Hobj c). }
  split_and!; [done| | | |].
  - intros. unfold send_message. by rewrite Hget.
  - intros. by apply update_heartbeat_absent.
  - intros m f mty sender uuid4 now.
    destruct (broadcast_unfold json_dumps st' m f mty sender uuid4 now Hwf')
      as (targets & Hin & Hobjs & _ & ->).
    destruct (broadcast_loop_spec (content_str json_dumps m) mty sender
                uuid4 now targets 0 st' [] Hwf' Hin) as (st2 & new & -> & _).
    simpl. rewrite Hobjs. unfold chosen. destruct f as [f|]; [apply Hout|].
    intros (c & -> & Hin')%list_elem_of_fmap. by apply (Hobj c).
  - intros now timeout sql_now.
    assert ((w ∉ active (sweep fromisoformat st' now timeout sql_now).1.1) ∧
            (w ∉ timed_out (sweep fromisoformat st' now timeout sql_now).1.1))
      as [Ha Ht].
    { destruct (decide (0 ≤ now - timeout * 1000000 ≤ max_datetime)) as [Hr|Hr].
      - rewrite sweep_lists by done. simpl. split; apply Hout'.
      - rewrite sweep_overflow by done. simpl. split; apply not_elem_of_nil. }
    split_and!; [done|done|].
    intros res. unfold heartbeat_check.
    destruct (sweep fromisoformat st' now timeout sql_now) as [[res' [e|]] st2];
      [done|]. by intros [= <-].
Qed.

Lemma add_tables st r :
  messages (_conn (add json_dumps st r).2) = messages (_conn st) ∧
  heartbeat_log (_conn (add json_dumps st r).2) = heartbeat_log (_conn st).
Proof.
  unfold add. destruct (heap st !! r); [|done].
  unfold sql_insert_or_replace_connection. by case_decide.
Qed.

Lemma add_connection_tables st w a meta ts1 ts2 :
  messages (_conn (add_connection json_dumps st w a meta ts1 ts2).2)
    = messages (_conn st) ∧
  heartbeat_log (_conn (add_connection json_dumps st w a meta ts1 ts2).2)
    = heartbeat_log (_conn st).
Proof.
  unfold add_connection. cbn [new_connection].
  by destruct (add_tables (mkState (_conn st) (_pool st)
                 (<[fresh (dom (heap st)) :=
                      mkConnection w a
                        match meta with
                        | Some m => if truthy m then m else JDict []
                        | None => JDict []
                        end ts1 ts2 "active" 0 None]> (heap st)))
                 (fresh (dom (heap st)))) as [-> ->].
Qed.

Lemma update_heartbeat_messages st w lat ts now :
  messages (_conn (update_heartbeat st w lat ts now).2) = messages (_conn st).
Proof.
  unfold update_heartbeat. destruct (dict_get _ _); [|done].
  unfold sql_insert_heartbeat_log. by case_decide.
Qed.

(** X4.  Only [send_message] and [broadcast] change what
    [get_message_history] returns: a disconnect, a sweep, an [add] or a
    heartbeat leave the history of every connection as it was. *)
Theorem history_kept_by_other_calls st o q limit :
  ¬ messaging o →
  get_message_history (_conn (run_op json_dumps fromisoformat st o)) q limit
  = get_message_history (_conn st) q limit.
Proof.
  intros Hquiet.
  assert (messages (_conn (run_op json_dumps fromisoformat st o))
          = messages (_conn st)) as Hsame; [|unfold get_message_history; by rewrite Hsame].
  destruct o as [c|connection|w' a meta ts1 ts2|w' now|w' lat ts now|w'
                |m f mty sender uuid4 now|now timeout sql_now
                |w' m mty sender uuid ts now]; simpl in *; try done.
  - apply add_tables.
  - apply add_connection_tables.
  - unfold remove. by destruct (dict_get _ _).
  - apply update_heartbeat_messages.
  - unfold increment_message_count. by destruct (dict_get _ _).
  - rewrite heartbeat_check_state. apply sweep_messages.
Qed.

End sweeps.

(** ** What no run of calls does *)

Section runs.
Variable json_dumps : json → string.
Variable json_loads : string → option json.
Variable fromisoformat : string → option datetime.

Local Abbreviation run_op := (run_op json_dumps fromisoformat).
Local Abbreviation run := (run json_dumps fromisoformat).

Lemma increment_message_count_tables st w :
  messages (_conn (increment_message_count st w)) = messages (_conn st) ∧
  heartbeat_log (_conn (increment_message_count st w)) = heartbeat_log (_conn st).
Proof. unfold increment_message_count. by destruct (dict_get _ _). Qed.

Lemma broadcast_loop_tables body mty sender uuid4 now targets :
  ∀ i st acc,
    messages (_conn st) `prefix_of`
      messages (_conn (broadcast_loop body mty sender uuid4 now i targets st acc).2) ∧
    heartbeat_log (_conn (broadcast_loop body mty sender uuid4 now i targets st acc).2)
      = heartbeat_log (_conn st).
Proof.
  induction targets as [|r targets IH]; intros i st acc; simpl; [done|].
  destruct (heap st !! r) as [c|]; [|apply IH].
  set (st1 := with_conn _ st).
  destruct (IH (S i) (increment_message_count st1 (ws_id c)) (acc ++ [ws_id c]))
    as [Hm Hh].
  destruct (increment_message_count_tables st1 (ws_id c)) as [Hm1 Hh1].
  rewrite Hm1 in Hm. rewrite Hh1 in Hh. split; [|done].
  etrans; [|exact Hm]. simpl. by apply prefix_app_r.
Qed.

Lemma tables_run_op st o :
  messages (_conn st) `prefix_of` messages (_conn (run_op st o)) ∧
  heartbeat_log (_conn st) `prefix_of` heartbeat_log (_conn (run_op st o)).
Proof.
  destruct o as [c|connection|w' a meta ts1 ts2|w' now|w' lat ts now|w'
                |m f mty sender uuid4 now|now timeout sql_now
                |w' m mty sender uuid ts now]; simpl.
  - done.
  - by destruct (add_tables json_dumps st connection) as [-> ->].
  - by destruct (add_connection_tables json_dumps st w' a meta ts1 ts2) as [-> ->].
  - unfold remove. by destruct (dict_get _ _).
  - rewrite update_heartbeat_messages. split; [done|].
    unfold update_heartbeat. destruct (dict_get _ _); [|done].
    unfold sql_insert_heartbeat_log. case_decide; simpl; [|done].
    by apply prefix_app_r.
  - by destruct (increment_message_count_tables st w') as [-> ->].
  - unfold broadcast.
    destruct (broadcast_loop_tables (content_str json_dumps m) mty sender uuid4 now
                match f with
                | Some f0 => filter (λ r, passes st f0 r) (get_all st)
                | None => get_all st
                end 0 st []) as [Hm ->]. done.
  - rewrite heartbeat_check_state.
    by destruct (sweep_messages fromisoformat st now timeout sql_now) as [-> ->].
  - unfold send_message. destruct (get st w'); [|done]. simpl.
    set (st1 := with_conn _ st).
    destruct (increment_message_count_tables st1 w') as [-> ->]. simpl.
    split; [by apply prefix_app_r | done].
Qed.

(** X5.  Message rows and heartbeat-log rows are only ever appended:
    whatever calls follow, the rows already stored stay, unchanged and in
    place, at the head of their table. *)
Theorem messages_append_only ops :
  ∀ st,
    messages (_conn st) `prefix_of` messages (_conn (run st ops)) ∧
    heartbeat_log (_conn st) `prefix_of` heartbeat_log (_conn (run st ops)).
Proof.
  induction ops as [|o ops IH]; intros st; simpl; [done|].
  destruct (tables_run_op st o) as [Hm Hh].
  destruct (IH (run_op st o)) as [Hm' Hh']. split; by etrans.
Qed.

#[local] Instance counter_le_refl : Reflexive counter_le.
Proof. intros [n|]; simpl; [lia|done]. Qed.

#[local] Instance counter_le_trans : Transitive counter_le.
Proof. intros [a|] [b|] [c|]; simpl; first [lia | done]. Qed.

Lemma counter_le_succ c : counter_le c (count_succ c).
Proof. destruct c as [n|]; simpl; [lia|done]. Qed.

#[local] Instance grown_refl : Reflexive grown.
Proof. intros c. unfold grown. split_and!; done. Qed.

#[local] Instance grown_trans : Transitive grown.
Proof.
  intros a b c (? & ? & ? & ? & ? & ?) (? & ? & ? & ? & ? & ?).
  unfold grown. split_and!; try congruence. by etrans.
Qed.

Lemma grown_alter (f : Connection → Connection) (h : gmap loc Connection) r r' c :
  (∀ x, grown x (f x)) → h !! r = Some c →
  ∃ c', alter f r' h !! r = Some c' ∧ grown c c'.
Proof.
  intros Hf Hc. destruct (decide (r' = r)) as [->|Hne].
  - exists (f c). by rewrite lookup_alter_eq, Hc.
  - exists c. by rewrite lookup_alter_ne.
Qed.

Lemma grown_incr x : grown x (incr_message_count x).
Proof. unfold grown. simpl. split_and!; try done. apply counter_le_succ. Qed.

Lemma grown_set_last_heartbeat ts x : grown x (set_last_heartbeat ts x).
Proof. unfold grown. simpl. split_and!; done. Qed.

Lemma grown_set_db_id v x : grown x (set_db_id v x).
Proof. unfold grown. simpl. split_and!; done. Qed.

Lemma grown_increment_message_count st w r c :
  heap st !! r = Some c →
  ∃ c', heap (increment_message_count st w) !! r = Some c' ∧ grown c c'.
Proof.
  intros Hc. unfold increment_message_count.
  destruct (dict_get _ _) as [r'|]; [|by exists c].
  simpl. by apply grown_alter; [apply grown_incr|].
Qed.

Lemma grown_broadcast_loop body mty sender uuid4 now targets r :
  ∀ i st acc c,
    heap st !! r = Some c →
    ∃ c', heap (broadcast_loop body mty sender uuid4 now i targets st acc).2 !! r
            = Some c' ∧ grown c c'.
Proof.
  induction targets as [|r0 targets IH]; intros i st acc c Hc; simpl.
  - by exists c.
  - destruct (heap st !! r0) as [c0|]; [|by apply IH].
    set (st1 := with_conn _ st).
    destruct (grown_increment_message_count st1 (ws_id c0) r c Hc) as (c1 & Hc1 & Hg1).
    destruct (IH (S i) _ (acc ++ [ws_id c0]) c1 Hc1) as (c' & Hc' & Hg').
    exists c'. split; [done | by etrans].
Qed.

Lemma grown_add st r0 r c :
  heap st !! r = Some c →
  ∃ c', heap (add json_dumps st r0).2 !! r = Some c' ∧ grown c c'.
Proof.
  intros Hc. unfold add. destruct (heap st !! r0) as [c0|] eqn:Hc0; [|by exists c].
  unfold sql_insert_or_replace_connection. case_decide; [|by exists c].
  simpl. destruct (decide (r0 = r)) as [->|Hne].
  - rewrite lookup_insert_eq. eexists. split; [done|].
    assert (c0 = c) as -> by congruence. apply grown_set_db_id.
  - exists c. by rewrite lookup_insert_ne.
Qed.

Lemma grown_run_op st o r c :
  heap st !! r = Some c → ∃ c', heap (run_op st o) !! r = Some c' ∧ grown c c'.
Proof.
  intros Hc.
  assert (fresh (dom (heap st)) ≠ r) as Hfresh.
  { intros <-. pose proof (is_fresh (dom (heap st))) as Hfr.
    apply not_elem_of_dom in Hfr. congruence. }
  destruct o as [c0|connection|w' a meta ts1 ts2|w' now|w' lat ts now|w'
                |m f mty sender uuid4 now|now timeout sql_now
                |w' m mty sender uuid ts now]; simpl.
  - exists c. by rewrite lookup_insert_ne.
  - by apply grown_add.
  - unfold add_connection. cbn [new_connection]. apply grown_add. cbn [heap].
    by rewrite lookup_insert_ne.
  - exists c. by rewrite remove_heap.
  - unfold update_heartbeat. destruct (dict_get _ _) as [r'|]; [|by exists c].
    destruct (grown_alter (set_last_heartbeat ts) (heap st) r r' c
                (grown_set_last_heartbeat ts) Hc) as (c' & Hc' & Hg).
    exists c'. by destruct (sql_insert_heartbeat_log _ _ _ _).
  - by apply grown_increment_message_count.
  - unfold broadcast. by apply grown_broadcast_loop.
  - exists c. rewrite heartbeat_check_state. unfold sweep. cbn zeta.
    case_decide; [|done]. by rewrite heartbeat_loop_heap.
  - unfold send_message. destruct (get st w'); [|by exists c].
    simpl. by apply grown_increment_message_count.
Qed.

(** X14.  No call takes a [Connection] object away or rewrites its [ws_id],
    [agent], [metadata], [connected_at] or [status], and none lowers its
    [message_count]; so the object of a connection keeps the [status] it was
    created with after its disconnect. *)
Theorem objects_only_grow ops :
  ∀ st r c,
    heap st !! r = Some c →
    ∃ c', heap (run st ops) !! r = Some c' ∧ grown c c'.
Proof.
  induction ops as [|o ops IH]; intros st r c Hc; simpl.
  - by exists c.
  - destruct (grown_run_op st o r c Hc) as (c1 & Hc1 & Hg1).
    destruct (IH _ r c1 Hc1) as (c' & Hc' & Hg'). exists c'.
    split; [done | by etrans].
Qed.

End runs.

(** ** The pool and the store across a restart *)

Section persistence.
Variable json_dumps : json → string.
Variable json_loads : string → option json.
Variable fromisoformat : string → option datetime.

Local Abbreviation run_op := (run_op json_dumps fromisoformat).
Local Abbreviation run := (run json_dumps fromisoformat).
Local Abbreviation synced := (synced json_loads).
Local Abbreviation of_row := (_row_to_connection json_loads).

Lemma of_row_fields row c :
  of_row row = Some c →
  Connections.ws_id row = ws_id c ∧ Connections.status row = status c.
Proof.
  unfold _row_to_connection. destruct (json_loads _); simpl; [|done].
  by intros [= <-].
Qed.

Lemma NoDup_fmap_inj_on {A B} (f : A → B) (l : list A) x y :
  NoDup (f <$> l) → x ∈ l → y ∈ l → f x = f y → x = y.
Proof.
  induction l as [|a l IH]; [by intros _ ?%elem_of_nil|].
  rewrite fmap_cons, NoDup_cons. intros [Hnot Hnd].
  intros [->|Hx]%elem_of_cons [->|Hy]%elem_of_cons Heq; [done| | |by apply IH].
  - exfalso. apply Hnot. rewrite Heq. by apply list_elem_of_fmap_2.
  - exfalso. apply Hnot. rewrite <-Heq. by apply list_elem_of_fmap_2.
Qed.

Lemma NoDup_fmap_filter {A B} (f : A → B) (P : A → Prop)
    `{!∀ x, Decision (P x)} (l : list A) :
  NoDup (f <$> l) → NoDup (f <$> filter P l).
Proof.
  intros Hnd. apply (NoDup_fmap_2_strong f (filter P l)).
  - intros x y [_ Hx]%list_elem_of_filter [_ Hy]%list_elem_of_filter.
    by apply (NoDup_fmap_inj_on f l).
  - by apply NoDup_filter, (NoDup_fmap_1 f).
Qed.

(** What the store holds of a count. *)
Lemma stored_succ x : stored_count (count_succ x) = sql_succ (stored_count x).
Proof.
  unfold max_int64. destruct x as [n|]; simpl; [|done].
  unfold max_int64. destruct (decide (n ≤ 2 ^ 63 - 1)); simpl.
  - unfold max_int64.
    destruct (decide (n < 2 ^ 63 - 1));
      [by rewrite decide_True by lia | by rewrite decide_False by lia].
  - by rewrite decide_False by lia.
Qed.

Lemma stored_bindable x : bindable x → stored_count x = x.
Proof.
  destruct x as [n|]; simpl; [|done].
  unfold in_int64. intros Hn. by rewrite decide_True by lia.
Qed.

Lemma stored_idem x : stored_count (stored_count x) = stored_count x.
Proof.
  destruct x as [n|]; simpl; [|done].
  destruct (decide (n ≤ max_int64)); simpl; [by rewrite decide_True | done].
Qed.

Lemma as_stored_idem c : as_stored (as_stored c) = as_stored c.
Proof. unfold as_stored. simpl. by rewrite stored_idem. Qed.

(** The row of a pool entry carries the key of the entry. *)
Lemma synced_row st k r :
  synced st → (k, r) ∈ _pool st →
  ∃ row c, row ∈ connections (_conn st) ∧ of_row row = Some (as_stored c) ∧
           heap st !! r = Some c ∧ Connections.ws_id row = k ∧ ws_id c = k.
Proof.
  intros (Hwf & _ & Hrow & _) Hin.
  destruct (Hrow k r Hin) as (row & Hr & Hof).
  apply wf_spec in Hwf as [_ Hobj]. destruct (Hobj k r Hin) as (c & Hc & Hk).
  exists row, c. rewrite Hc in Hof. split_and!; try done.
  destruct (of_row_fields row _ Hof) as [-> _]. done.
Qed.

Lemma fmap_where_ws_id w f (rows : list Connections.row) :
  (∀ row, Connections.ws_id (f row) = Connections.ws_id row) →
  Connections.ws_id <$> (where_ws_id w f <$> rows) = Connections.ws_id <$> rows.
Proof.
  intros Hf. rewrite <-list_fmap_compose. apply list_fmap_ext.
  intros _ row _. simpl. unfold where_ws_id. by case_decide.
Qed.

(** A call that writes the same field of an object and of its row. *)
Lemma synced_update st w r frow fobj d' :
  synced st → get st w = Some r →
  (∀ row, Connections.ws_id (frow row) = Connections.ws_id row) →
  (∀ row, Connections.status (frow row) = Connections.status row) →
  (∀ c, ws_id (fobj c) = ws_id c) →
  (∀ row c, of_row row = Some (as_stored c) →
            of_row (frow row) = Some (as_stored (fobj c))) →
  connections d' = where_ws_id w frow <$> connections (_conn st) →
  synced (mkState d' (_pool st) (alter fobj r (heap st))).
Proof.
  intros Hs Hget Hfw Hfs Hfo Hcomm Hd'.
  pose proof Hs as (Hwf & Hnd & Hrow & Hact).
  split_and!; simpl.
  - by apply wf_alter.
  - by rewrite Hd', fmap_where_ws_id.
  - intros k r' Hin.
    destruct (synced_row st k r' Hs Hin) as (row & c & Hr & Hof & Hc & Hk & _).
    exists (where_ws_id w frow row). split.
    + rewrite Hd'. by apply list_elem_of_fmap_2.
    + unfold where_ws_id. destruct (decide (k = w)) as [->|Hne].
      * rewrite decide_True by done.
        assert (r' = r) as ->.
        { pose proof (wf_elem_get _ _ _ Hwf Hin). congruence. }
        rewrite lookup_alter_eq, Hc. simpl. by apply Hcomm.
      * rewrite decide_False by congruence.
        rewrite lookup_alter_ne; [by rewrite Hc|].
        intros <-. apply Hne. symmetry.
        eapply wf_get_inj; [done|done|]. by apply wf_elem_get.
  - intros row'. rewrite Hd'.
    intros (row & -> & Hr)%list_elem_of_fmap. unfold where_ws_id.
    case_decide; [rewrite Hfw, Hfs|]; by apply Hact.
Qed.

Lemma synced_with_conn st d' :
  connections d' = connections (_conn st) → synced st → synced (with_conn d' st).
Proof.
  intros Hd' (Hwf & Hnd & Hrow & Hact).
  split_and!; simpl; rewrite ?Hd'; [by apply wf_with_conn|done..].
Qed.

Lemma synced_increment_message_count st w :
  synced st → synced (increment_message_count st w).
Proof.
  intros Hs. unfold increment_message_count.
  destruct (dict_get (_pool st) w) as [r|] eqn:Hget; [|done].
  apply (synced_update st w r row_incr_message_count incr_message_count);
    try done.
  intros row c. unfold _row_to_connection. simpl.
  destruct (json_loads _); simpl; [|done].
  intros [= H1 H2 H3 H4 H5 H6 H7 H8]. unfold as_stored. simpl.
  by rewrite H1, H2, H3, H4, H5, H6, H7, H8, stored_succ.
Qed.

Lemma synced_update_heartbeat st w lat ts now :
  synced st → synced (update_heartbeat st w lat ts now).2.
Proof.
  intros Hs. destruct (get st w) as [r|] eqn:Hget.
  - rewrite (update_heartbeat_present _ _ _ _ _ _ Hget).
    case_decide;
      (apply (synced_update st w r (row_set_last_heartbeat ts) (set_last_heartbeat ts));
       try done;
       intros row c; unfold _row_to_connection; simpl;
       destruct (json_loads _); simpl; [|done];
       intros [= H1 H2 H3 H4 H5 H6 H7 H8]; unfold as_stored; simpl;
       by rewrite H1, H2, H3, H4, H6, H7, H8).
  - by rewrite update_heartbeat_absent.
Qed.

Lemma synced_remove st w now : synced st → synced (remove st w now).2.
Proof.
  intros Hs. pose proof Hs as (Hwf & Hnd & Hrow & Hact).
  pose proof (wf_remove st w now Hwf) as Hwf'.
  unfold remove in *. destruct (dict_get (_pool st) w) as [r|] eqn:Hget; [|done].
  split_and!; simpl in *; [done| | |].
  - by rewrite fmap_where_ws_id.
  - intros k r' [Hne Hin]%dict_del_elem.
    destruct (synced_row st k r' Hs Hin) as (row & c & Hr & Hof & Hc & Hk & _).
    exists row. split; [|by rewrite Hc].
    apply list_elem_of_fmap. exists row. split; [|done].
    unfold where_ws_id. rewrite decide_False; [done | congruence].
  - intros row' (row & -> & Hr)%list_elem_of_fmap. unfold where_ws_id.
    case_decide as Hw; [done|]. intros Ha.
    rewrite dict_del_keys. apply list_elem_of_filter. split; [done|].
    by apply Hact.
Qed.

Lemma synced_new_connection st c : synced st → synced (new_connection st c).2.
Proof.
  intros Hs. pose proof Hs as (Hwf & Hnd & Hrow & Hact).
  split_and!; simpl; [by apply wf_new_connection|done| |done].
  intros k r Hin.
  destruct (synced_row st k r Hs Hin) as (row & c0 & Hr & Hof & Hc & _).
  exists row. split; [done|]. rewrite lookup_insert_ne; [by rewrite Hc|].
  intros <-. pose proof (new_connection_fresh st c) as Hfr. simpl in Hfr.
  congruence.
Qed.

Lemma synced_add st r :
  synced st → stores json_dumps json_loads st (Add r) →
  synced (add json_dumps st r).2.
Proof.
  intros Hs Hst. pose proof Hs as (Hwf & Hnd & Hrow & Hact).
  pose proof (wf_add json_dumps st r Hwf) as Hwf'.
  simpl in Hst.
  destruct (heap st !! r) as [c|] eqn:Hc; [|unfold add; by rewrite Hc].
  destruct (decide (bindable (message_count c))) as [Hb|Hb];
    [|by rewrite (add_Raise _ st r c Hc Hb)].
  rewrite (add_Ok _ st r c Hc Hb) in *.
  split_and!; simpl in *; [done| | |].
  - rewrite fmap_app, NoDup_app. split_and!.
    + by apply NoDup_fmap_filter.
    + intros w (row & -> & [Hne _]%list_elem_of_filter)%list_elem_of_fmap.
      simpl. rewrite list_elem_of_singleton. congruence.
    + apply NoDup_singleton.
  - intros k r' Hin.
    apply dict_set_elem in Hin as [[-> ->]|[Hne Hin]];
      [| |by apply wf_spec in Hwf as [? _]].
    + eexists. split; [apply elem_of_app; right; apply list_elem_of_singleton; done|].
      rewrite lookup_insert_eq. unfold _row_to_connection. simpl. rewrite Hst.
      simpl. unfold as_stored. simpl. by rewrite stored_bindable.
    + destruct (synced_row st k r' Hs Hin) as (row & c0 & Hr & Hof & Hc0 & Hk & Hk0).
      exists row. split.
      * apply elem_of_app. left. apply list_elem_of_filter. split; [congruence|done].
      * rewrite lookup_insert_ne; [by rewrite Hc0|]. intros <-. congruence.
  - intros row [[_ Hr]%list_elem_of_filter|Hr%list_elem_of_singleton]%elem_of_app Ha;
      [|subst row].
    + specialize (Hact row Hr Ha). rewrite dict_set_keys.
      case_decide; [done|]. apply elem_of_app. by left.
    + simpl. apply dict_get_is_Some. rewrite dict_get_set_eq. by eexists.
Qed.

Lemma synced_add_connection st w a meta ts1 ts2 :
  synced st → stores json_dumps json_loads st (AddConnection w a meta ts1 ts2) →
  synced (add_connection json_dumps st w a meta ts1 ts2).2.
Proof.
  intros Hs Hst. unfold add_connection. cbn [new_connection].
  match goal with
  | |- context [add _ ?s ?r] =>
      change s with (new_connection st
        (mkConnection w a
           match meta with
           | Some m => if truthy m then m else JDict []
           | None => JDict []
           end ts1 ts2 "active" 0 None)).2
  end.
  apply synced_add; [by apply synced_new_connection|].
  simpl. by rewrite lookup_insert_eq.
Qed.

Lemma synced_broadcast_loop body mty sender uuid4 now targets :
  ∀ i st acc, synced st →
    synced (broadcast_loop body mty sender uuid4 now i targets st acc).2.
Proof.
  induction targets as [|r targets IH]; intros i st acc Hs; simpl; [done|].
  destruct (heap st !! r) as [c|]; [|by apply IH].
  apply IH, synced_increment_message_count. by apply synced_with_conn.
Qed.

Lemma synced_heartbeat_loop now cutoff sql_now snapshot :
  ∀ i st res, synced st →
    synced (heartbeat_loop fromisoformat now cutoff sql_now i snapshot st res).2.
Proof.
  induction snapshot as [|r snapshot IH]; intros i st res Hs; [done|].
  destruct (heap st !! r) as [c|] eqn:Hc.
  - rewrite (heartbeat_loop_step _ _ _ _ _ _ _ _ _ c) by done.
    repeat case_decide; [done | by apply IH, synced_remove | by apply IH].
  - rewrite heartbeat_loop_skip by done. by apply IH.
Qed.

Lemma synced_run_op st o :
  synced st → stores json_dumps json_loads st o → synced (run_op st o).
Proof.
  intros Hs Hst.
  destruct o as [c|connection|w' a meta ts1 ts2|w' now|w' lat ts now|w'
                |m f mty sender uuid4 now|now timeout sql_now
                |w' m mty sender uuid ts now]; simpl.
  - by apply synced_new_connection.
  - by apply synced_add.
  - by apply synced_add_connection.
  - by apply synced_remove.
  - by apply synced_update_heartbeat.
  - by apply synced_increment_message_count.
  - by apply synced_broadcast_loop.
  - rewrite heartbeat_check_state. unfold sweep. cbn zeta.
    case_decide; [by apply synced_heartbeat_loop | done].
  - unfold send_message. destruct (get st w'); [|done]. simpl.
    apply synced_increment_message_count. by apply synced_with_conn.
Qed.

Lemma synced_run ops :
  ∀ st, synced st → storable json_dumps json_loads fromisoformat st ops →
        synced (run st ops).
Proof.
  induction ops as [|o ops IH]; intros st Hs Hst; simpl; [done|].
  destruct Hst as [Ho Hst]. apply IH; [by apply synced_run_op | done].
Qed.

(** What [_load_active] builds: the object of each row under the [ws_id]
    of the row; the other keys as they were. *)
Lemma load_active_spec rows :
  ∀ st, wf st →
    NoDup (Connections.ws_id <$> rows) →
    (∀ row, row ∈ rows → is_Some (of_row row)) →
    ∃ st', _load_active json_loads rows st = Some st' ∧
      _conn st' = _conn st ∧
      (∀ row, row ∈ rows → lookup_conn st' (Connections.ws_id row) = of_row row) ∧
      (∀ w, w ∉ Connections.ws_id <$> rows → lookup_conn st' w = lookup_conn st w).
Proof.
  induction rows as [|row rows IH]; intros st Hwf Hnd Hall.
  - exists st. split_and!; try done. by intros row ?%elem_of_nil.
  - rewrite fmap_cons, NoDup_cons in Hnd. destruct Hnd as [Hnot Hnd].
    destruct (Hall row) as [c Hc]; [apply list_elem_of_here|].
    destruct (of_row_fields row c Hc) as [Hw _].
    cbn [_load_active]. rewrite Hc. cbn [mbind option_bind new_connection].
    set (r := fresh (dom (heap st))).
    set (st1 := mkState _ _ _).
    assert (heap st !! r = None) as Hfr by apply (new_connection_fresh st c).
    assert (wf st1) as Hwf1.
    { apply wf_spec in Hwf as [Hkeys Hobj]. apply wf_spec. split; simpl.
      - by apply dict_set_NoDup.
      - intros k r' Hin.
        apply dict_set_elem in Hin as [[-> ->]|[Hk Hin]]; [| |done].
        + exists c. by rewrite lookup_insert_eq.
        + destruct (Hobj k r' Hin) as (c0 & Hc0 & Hk0). exists c0.
          split; [|done]. rewrite lookup_insert_ne; [done|]. intros <-. congruence. }
    destruct (IH st1 Hwf1 Hnd) as (st' & Hrun & Hconn & Hrows & Hrest).
    { intros row' Hr'. apply Hall. by apply list_elem_of_further. }
    exists st'. split_and!; [done|done| |].
    + intros row' [->|Hr']%elem_of_cons; [|by apply Hrows].
      rewrite Hrest by done. unfold lookup_conn, get. subst st1. simpl.
      rewrite <-Hw, dict_get_set_eq. simpl. by rewrite lookup_insert_eq.
    + intros w [Hne Hw']%not_elem_of_cons. rewrite Hrest by done.
      unfold lookup_conn, get. subst st1. simpl.
      rewrite dict_get_set_ne by congruence.
      destruct (dict_get (_pool st) w) as [r'|] eqn:Hget; [|done]. simpl.
      rewrite lookup_insert_ne; [done|]. intros <-.
      apply wf_spec in Hwf as [_ Hobj].
      destruct (Hobj w r (dict_get_Some_elem _ _ _ Hget)) as (c0 & Hc0 & _).
      congruence.
Qed.

Lemma lookup_conn_pool st w r c :
  wf st → (w, r) ∈ _pool st → heap st !! r = Some c → lookup_conn st w = Some c.
Proof.
  intros Hwf Hin Hc. unfold lookup_conn.
  by rewrite (wf_elem_get _ _ _ Hwf Hin).
Qed.

Lemma lookup_conn_Some st w c :
  lookup_conn st w = Some c →
  ∃ r, (w, r) ∈ _pool st ∧ get st w = Some r ∧ heap st !! r = Some c.
Proof.
  unfold lookup_conn. destruct (get st w) as [r|] eqn:Hget; [|done]. simpl.
  intros Hc. exists r. split_and!; try done. by apply dict_get_Some_elem.
Qed.

Lemma pool_objects_lookup st c :
  wf st → c ∈ pool_objects st ↔ lookup_conn st (ws_id c) = Some c.
Proof.
  intros Hwf. split.
  - unfold pool_objects, dict_values.
    intros (r & ([k r'] & -> & Hin)%list_elem_of_fmap & Hc)%list_elem_of_omap.
    simpl in Hc. pose proof Hwf as [_ Hobj]%wf_spec.
    destruct (Hobj k r' Hin) as (c0 & Hc0 & Hk).
    assert (c0 = c) as -> by congruence. rewrite Hk.
    by eapply lookup_conn_pool.
  - intros (r & _ & Hget & Hc)%lookup_conn_Some. by eapply pool_object_get.
Qed.

Lemma pool_objects_NoDup st : wf st → NoDup (pool_objects st).
Proof.
  intros Hwf. apply (NoDup_fmap_1 ws_id). rewrite pool_objects_keys by done.
  by apply wf_spec in Hwf as [? _].
Qed.


End persistence.

(** ** Connecting, disconnecting and counting *)

Section bookkeeping.
Variable json_dumps : json → string.

Lemma dict_del_set_absent {V} (d : list (string * V)) k v :
  dict_get d k = None → dict_del (dict_set d k v) k = d.
Proof.
  unfold dict_del. induction d as [|[k' v'] d IH]; simpl.
  - intros _. rewrite filter_cons_False; [done|]. simpl. by intros Hn.
  - case_decide; [done|]. intros Hd. rewrite filter_cons_True by done.
    f_equal. by apply IH.
Qed.

Lemma dict_del_length {V} (d : list (string * V)) k :
  NoDup (dict_keys d) →
  length (dict_del d k) =
    match dict_get d k with Some _ => pred (length d) | None => length d end.
Proof.
  induction d as [|[k' v'] d IH]; [done|].
  unfold dict_keys in *. rewrite fmap_cons, NoDup_cons. simpl. intros [Hnot Hnd].
  unfold dict_del in *. case_decide as Hk.
  - subst k'. rewrite filter_cons_False by (simpl; by intros Hn).
    assert (dict_get d k = None) as Hget by by apply dict_get_None.
    specialize (IH Hnd). rewrite Hget in IH. by rewrite IH.
  - rewrite filter_cons_True by done. simpl. rewrite (IH Hnd).
    destruct (dict_get d k) eqn:Hget; [|done].
    destruct d; [done|]. done.
Qed.

Lemma fmap_where_ws_id_other w f (rows : list Connections.row) :
  where_ws_id w f <$> filter (λ row, Connections.ws_id row ≠ w) rows
  = filter (λ row, Connections.ws_id row ≠ w) rows.
Proof.
  rewrite <-(list_fmap_id (filter _ rows)) at 2.
  apply list_fmap_ext. intros _ row [Hne _]%list_elem_of_lookup_2%list_elem_of_filter.
  unfold where_ws_id. by rewrite decide_False.
Qed.

Lemma add_connection_spec st w a meta ts1 ts2 :
  wf st →
  ∃ st' rid m,
    add_connection json_dumps st w a meta ts1 ts2
      = (Ok (fresh (dom (heap st))), st') ∧
    heap st !! fresh (dom (heap st)) = None ∧
    (∀ x, meta = Some x → m = if truthy x then x else JDict []) ∧
    (meta = None → m = JDict []) ∧
    get st' w = Some (fresh (dom (heap st))) ∧
    lookup_conn st' w = Some (mkConnection w a m ts1 ts2 "active" 0 (Some rid)) ∧
    (∀ w', w' ≠ w → lookup_conn st' w' = lookup_conn st w') ∧
    connections (_conn st') =
      filter (λ row, Connections.ws_id row ≠ w) (connections (_conn st))
      ++ [Connections.mk rid w a (json_dumps m) ts1 ts2 "active" 0 None] ∧
    Forall (λ row, Connections.id row < rid) (connections (_conn st)).
Proof.
  intros Hwf.
  assert (heap st !! fresh (dom (heap st)) = None) as Hfr
    by apply (new_connection_fresh st (mkConnection w a JNull ts1 ts2 "active" 0 None)).
  unfold add_connection. cbn [new_connection].
  set (m := match meta with
            | Some x => if truthy x then x else JDict []
            | None => JDict []
            end).
  erewrite (add_Ok _ _ _ (mkConnection w a m ts1 ts2 "active" 0 None));
    [|by apply lookup_insert_eq|apply bindable_zero].
  eexists _, _, m. split; [done|]. unfold lookup_conn, get. simpl.
  rewrite dict_get_set_eq. simpl. rewrite lookup_insert_eq.
  split_and!; try done.
  - intros x Hx. subst m. by rewrite Hx.
  - intros Hx. subst m. by rewrite Hx.
  - intros w' Hne. rewrite dict_get_set_ne by done.
    destruct (dict_get (_pool st) w') as [r'|] eqn:Hget; [|done]. simpl.
    rewrite !lookup_insert_ne; [done|..]; intros Heq;
      apply wf_spec in Hwf as [_ Hobj];
      destruct (Hobj w' r' (dict_get_Some_elem _ _ _ Hget)) as (c0 & Hc0 & _);
      congruence.
  - apply Forall_forall. intros row Hr. simpl.
    apply next_rowid_above. by apply list_elem_of_fmap_2.
Qed.

(** X10.  [add_connection] builds a new object, not an alias of an existing
    one, stores it under [w] with [status = active] and [message_count = 0],
    with its [db_id] set to the rowid of its row, a rowid above every rowid
    of the table; a metadata that is missing or falsy (an empty dictionary
    or list, [0], the empty string, [None], [False]) is stored as the empty
    dictionary; the row replaces the rows of [w] and comes last; the other
    connections are what they were. *)
Theorem add_connection_registers st w a meta ts1 ts2 :
  wf st →
  ∃ st' rid m,
    add_connection json_dumps st w a meta ts1 ts2
      = (Ok (fresh (dom (heap st))), st') ∧
    heap st !! fresh (dom (heap st)) = None ∧
    (∀ x, meta = Some x → m = if truthy x then x else JDict []) ∧
    (meta = None → m = JDict []) ∧
    get st' w = Some (fresh (dom (heap st))) ∧
    lookup_conn st' w = Some (mkConnection w a m ts1 ts2 "active" 0 (Some rid)) ∧
    (∀ w', w' ≠ w → lookup_conn st' w' = lookup_conn st w') ∧
    connections (_conn st') =
      filter (λ row, Connections.ws_id row ≠ w) (connections (_conn st))
      ++ [Connections.mk rid w a (json_dumps m) ts1 ts2 "active" 0 None] ∧
    Forall (λ row, Connections.id row < rid) (connections (_conn st)).
Proof. apply add_connection_spec. Qed.

(** X12.  The size of the pool: connecting under a [ws_id] that is in the
    pool leaves it, connecting under a new one adds one; a disconnect takes
    one off when the [ws_id] is in the pool and nothing otherwise. *)
Theorem count_tracks_pool st w :
  wf st →
  (∀ a meta ts1 ts2,
     count (add_connection json_dumps st w a meta ts1 ts2).2 =
       match get st w with Some _ => count st | None => count st + 1 end) ∧
  (∀ now,
     count (remove_connection st w now).2 =
       match get st w with Some _ => count st - 1 | None => count st end).
Proof.
  intros [Hnd _]%wf_spec. unfold count, get. split.
  - intros a meta ts1 ts2. rewrite add_connection_pool, dict_set_length.
    destruct (dict_get _ _); lia.
  - intros now. unfold remove_connection. rewrite remove_pool.
    rewrite dict_del_length by done.
    destruct (dict_get (_pool st) w) eqn:Hget; [|done].
    apply dict_get_Some_elem in Hget. destruct (_pool st); [by apply elem_of_nil in Hget|].
    simpl. lia.
Qed.

(** X11.  Connecting a new [ws_id] and disconnecting it again gives the pool
    back as it was; the store keeps the row of the visit, marked
    disconnected, after the rows of the other [ws_id]s, which are untouched. *)
Theorem connect_then_disconnect st w a meta ts1 ts2 now :
  get st w = None →
  ∃ st' row,
    remove_connection (add_connection json_dumps st w a meta ts1 ts2).2 w now
      = (true, st') ∧
    _pool st' = _pool st ∧
    connections (_conn st') =
      filter (λ r, Connections.ws_id r ≠ w) (connections (_conn st)) ++ [row] ∧
    Connections.ws_id row = w ∧ Connections.agent row = a ∧
    Connections.connected_at row = ts1 ∧
    Connections.status row = "disconnected" ∧
    Connections.disconnected_at row = Some now ∧
    messages (_conn st') = messages (_conn st) ∧
    heartbeat_log (_conn st') = heartbeat_log (_conn st).
Proof.
  intros Hget. unfold remove_connection, remove.
  rewrite add_connection_pool, dict_get_set_eq.
  eexists _, _. split; [done|]. cbn [_pool _conn].
  rewrite dict_del_set_absent by done.
  unfold add_connection. cbn [new_connection].
  erewrite (add_Ok _ _ _ (mkConnection w a _ ts1 ts2 "active" 0 None));
    [|by apply lookup_insert_eq|apply bindable_zero].
  simpl.
  rewrite fmap_app, fmap_where_ws_id_other. simpl.
  unfold where_ws_id at 1. simpl. rewrite decide_True by done.
  split_and!; done.
Qed.

Lemma total_tally acc a : total (tally acc a) = total acc + 1.
Proof.
  unfold tally, total. induction acc as [|[k v] acc IH]; [done|].
  cbn [dict_get dict_set]. destruct (decide (k = a)) as [->|Hne].
  - rewrite !fmap_cons. cbn [default foldr snd]. unfold id. lia.
  - rewrite !fmap_cons. cbn [foldr snd]. rewrite IH. lia.
Qed.

Lemma tally_keys acc a :
  NoDup acc.*1 → Forall (λ kv, 1 ≤ kv.2) acc →
  NoDup (tally acc a).*1 ∧ Forall (λ kv, 1 ≤ kv.2) (tally acc a).
Proof.
  intros Hnd Hpos. split; [by apply dict_set_NoDup|].
  apply Forall_forall. intros [k v] Hin.
  apply dict_set_elem in Hin as [[-> ->]|[_ Hin]]; [| |done]; simpl.
  - destruct (dict_get acc a) as [x|] eqn:Hget; simpl; [|lia].
    apply dict_get_Some_elem in Hget.
    rewrite Forall_forall in Hpos. specialize (Hpos _ Hget). simpl in Hpos. lia.
  - rewrite Forall_forall in Hpos. by apply (Hpos (k, v)).
Qed.

Lemma foldl_tally_total names :
  ∀ acc, NoDup acc.*1 → Forall (λ kv, 1 ≤ kv.2) acc →
    total (foldl tally acc names) = total acc + Z.of_nat (length names) ∧
    NoDup (foldl tally acc names).*1 ∧
    Forall (λ kv, 1 ≤ kv.2) (foldl tally acc names).
Proof.
  induction names as [|x names IH]; intros acc Hnd Hpos; cbn [foldl].
  - split_and!; [simpl; lia | done | done].
  - destruct (tally_keys acc x Hnd Hpos) as [Hnd' Hpos'].
    destruct (IH _ Hnd' Hpos') as (-> & ? & ?). rewrite total_tally.
    split_and!; [simpl length; lia | done | done].
Qed.

(** X13.  In the report of [connection_stats] every agent is listed once,
    with a count of at least one, and the counts add up to the number of
    active connections. *)
Theorem stats_agents_add_up st :
  wf st →
  total (agents (connection_stats st)) = active_connections (connection_stats st) ∧
  NoDup (dict_keys (agents (connection_stats st))) ∧
  Forall (λ kv, 1 ≤ kv.2) (agents (connection_stats st)).
Proof.
  intros Hwf. simpl. rewrite foldl_tally_refs.
  change (omap _ (get_all st)) with (pool_objects st).
  destruct (foldl_tally_total (agent <$> pool_objects st) [])
    as (-> & Hnd & Hpos); [constructor|constructor|].
  split_and!; [|done|done].
  rewrite length_fmap, pool_objects_length by done. unfold count, total. simpl. lia.
Qed.

(** X3.  A message sent to [w] is in the history of [w] and in the history
    of its sender, whenever the limit is an integer of 64 bits that does
    not cut it off; the history of every other connection is what it
    was. *)
Theorem send_message_history st w r message mty sender uuid ts now :
  get st w = Some r →
  ∃ st' row,
    (send_message json_dumps st w message mty sender uuid ts now).2 = st' ∧
    messages (_conn st') = messages (_conn st) ++ [row] ∧
    Messages.recipient_id row = Some w ∧ Messages.sender_id row = sender ∧
    (∀ q limit,
       q ≠ "" → q = w ∨ sender = Some q →
       - 2 ^ 63 ≤ limit ≤ 2 ^ 63 - 1 →
       limit < 0 ∨ Z.of_nat (length (messages (_conn st'))) ≤ limit →
       ∃ h, get_message_history (_conn st') (Some q) limit = Ok h ∧ row ∈ h) ∧
    (∀ q limit,
       q ≠ "" → q ≠ w → sender ≠ Some q →
       get_message_history (_conn st') (Some q) limit
       = get_message_history (_conn st) (Some q) limit).
Proof.
  intros Hget.
  rewrite (send_message_present json_dumps st w r message mty sender uuid ts now Hget).
  eexists _, _. split; [done|]. simpl. split_and!; try done.
  - intros q limit Hq Hinv Hrange Hlim. unfold get_message_history.
    rewrite decide_False by done. cbn [_conn messages].
    set (row := Messages.mk _ uuid mty sender (Some w) _ now 1).
    set (rows := filter (involves q) _).
    assert (length rows ≤ length (messages (_conn st) ++ [row]))%nat as Hlen
      by apply length_filter.
    assert (row ∈ rows) as Hin.
    { apply list_elem_of_filter. split.
      - unfold involves, row. simpl. destruct Hinv as [->| ->]; auto.
      - apply elem_of_app. right. apply list_elem_of_here. }
    unfold sql_limit, sql_order_by_sent_at_desc.
    rewrite decide_True by done. eexists. split; [done|].
    case_decide; [by rewrite merge_sort_Permutation|].
    rewrite take_ge; [by rewrite merge_sort_Permutation|].
    rewrite (Permutation_length (merge_sort_Permutation _ rows)).
    destruct Hlim as [?|Hlim]; [lia|]. simpl in Hlim.
    rewrite length_app in Hlim, Hlen. simpl in Hlim, Hlen. lia.
  - intros q limit Hq Hne Hsender. unfold get_message_history.
    rewrite !decide_False by done. cbn [_conn messages].
    rewrite filter_app, filter_cons_False, filter_nil, app_nil_r; [done|].
    unfold involves. simpl. intros [[= ->]|Heq]; congruence.
Qed.

End bookkeeping.

(** ** Building the pool *)

Section startup.
Variable json_loads : string → option json.

Lemma load_active_None rows :
  ∀ st, _load_active json_loads rows st = None ↔
        Exists (λ row, json_loads (Connections.metadata row) = None) rows.
Proof.
  induction rows as [|row rows IH]; intros st; cbn [_load_active].
  - split; [done | by intros ?%Exists_nil].
  - rewrite Exists_cons. unfold _row_to_connection.
    destruct (json_loads (Connections.metadata row)) as [m|]; simpl.
    + rewrite IH. split; [by right | by intros [?|?]].
    + split; [by left | done].
Qed.

(** X17.  Building a pool fails exactly when the metadata of some row with
    [status = active] is not JSON; the metadata of the rows of disconnected
    connections is never read. *)
Theorem ConnectionPool_fails_iff conn :
  ConnectionPool json_loads conn = None ↔
  ∃ row, row ∈ connections conn ∧ Connections.status row = "active" ∧
         json_loads (Connections.metadata row) = None.
Proof.
  unfold ConnectionPool, sql_select_active.
  rewrite load_active_None, Exists_exists. split.
  - intros (row & [Ha Hr]%list_elem_of_filter & Hm). by exists row.
  - intros (row & Hr & Ha & Hm). exists row. split; [|done].
    by apply list_elem_of_filter.
Qed.

End startup.

(** ** The command line *)

Section commands.
Variable json_dumps : json → string.
Variable json_loads : string → option json.
Variable fromisoformat : string → option datetime.
Variable stats_dumps : Stats → string.

Local Abbreviation main := (main json_dumps json_loads fromisoformat stats_dumps).
Local Abbreviation session :=
  (session json_dumps json_loads fromisoformat stats_dumps).
Local Abbreviation synced := (synced json_loads).
Local Abbreviation loadable := (loadable json_loads).
Local Abbreviation of_row := (_row_to_connection json_loads).

Lemma load_active_conn rows :
  ∀ st st', _load_active json_loads rows st = Some st' → _conn st' = _conn st.
Proof.
  induction rows as [|row rows IH]; intros st st'; cbn [_load_active].
  - by intros [= <-].
  - destruct (of_row row) as [c|]; [|done]. simpl. intros Hrun.
    by rewrite (IH _ _ Hrun).
Qed.

Lemma dict_set_absent {V} (d : list (string * V)) k v :
  dict_get d k = None → dict_set d k v = d ++ [(k, v)].
Proof.
  induction d as [|[k' v'] d IH]; simpl; [done|].
  case_decide; [done|]. intros Hd. f_equal. by apply IH.
Qed.

(** [_load_active] appends the objects of the rows to the pool, in the
    order of the rows. *)
Lemma load_active_objects rows :
  ∀ st st', wf st → NoDup (Connections.ws_id <$> rows) →
    (∀ row, row ∈ rows → Connections.ws_id row ∉ dict_keys (_pool st)) →
    _load_active json_loads rows st = Some st' →
    pool_objects st' = pool_objects st ++ omap of_row rows.
Proof.
  induction rows as [|row rows IH]; intros st st' Hwf Hnd Hdisj.
  - intros [= <-]. by rewrite app_nil_r.
  - destruct (of_row row) as [c|] eqn:Hc;
      [|cbn [_load_active]; by rewrite Hc].
    assert (wf (mkState (_conn st)
                  (dict_set (_pool st) (ws_id c) (fresh (dom (heap st))))
                  (<[fresh (dom (heap st)) := c]> (heap st)))) as Hwf1.
    { apply (wf_load_active json_loads [row] st); [done|].
      cbn [_load_active]. by rewrite Hc. }
    cbn [_load_active]. rewrite Hc. cbn [mbind option_bind new_connection].
    cbn [_conn _pool heap]. intros Hrun.
    destruct (of_row_fields json_loads row c Hc) as [Hw _].
    rewrite fmap_cons, NoDup_cons in Hnd. destruct Hnd as [Hnot Hnd].
    assert (heap st !! fresh (dom (heap st)) = None) as Hfr
      by apply (new_connection_fresh st c).
    rewrite (IH _ st' Hwf1 Hnd); [|clear Hrun|exact Hrun].
    + cbn [omap list_omap]. rewrite Hc. unfold pool_objects. cbn [_pool heap].
      rewrite dict_set_absent.
      2:{ apply dict_get_None. rewrite <-Hw. apply Hdisj, list_elem_of_here. }
      unfold dict_values. rewrite fmap_app, omap_app. cbn [fmap list_fmap snd omap list_omap].
      rewrite lookup_insert_eq, <-app_assoc. f_equal.
      apply list_omap_ext, Forall_Forall2_diag, Forall_forall.
      intros r' ([k r0] & -> & Hin)%list_elem_of_fmap. simpl.
      rewrite lookup_insert_ne; [done|]. intros Heq.
      apply wf_spec in Hwf as [_ Hobj]. destruct (Hobj k r0 Hin) as (c0 & Hc0 & _).
      congruence.
    + intros row' Hr'. cbn [_pool]. rewrite dict_set_keys.
      assert (Connections.ws_id row' ∉ dict_keys (_pool st)) as Hout
        by (apply Hdisj; by apply list_elem_of_further).
      assert (Connections.ws_id row' ≠ ws_id c) as Hne.
      { rewrite <-Hw. intros Heq. apply Hnot. rewrite <-Heq.
        by apply list_elem_of_fmap_2. }
      case_decide; [done|]. rewrite elem_of_app, list_elem_of_singleton. tauto.
Qed.

Lemma loadable_ConnectionPool db :
  loadable db → is_Some (ConnectionPool json_loads db).
Proof.
  intros [_ Hparse]. destruct (ConnectionPool json_loads db) eqn:Hrun; [by eexists|].
  apply load_active_None, Exists_exists in Hrun
    as (row & [Ha Hr]%list_elem_of_filter & Hnone).
  rewrite Forall_forall in Hparse. destruct (Hparse row Hr Ha) as [m Hm]. congruence.
Qed.

(** The object [_row_to_connection] makes of a row. *)
Lemma of_row_Some row c :
  of_row row = Some c →
  ws_id c = Connections.ws_id row ∧ agent c = Connections.agent row ∧
  last_heartbeat c = Connections.last_heartbeat row ∧
  status c = Connections.status row ∧
  message_count c = Connections.message_count row.
Proof.
  unfold _row_to_connection. destruct (json_loads _); simpl; [|done].
  by intros [= <-].
Qed.

Lemma load_active_rows rows :
  ∀ st st', _load_active json_loads rows st = Some st' →
            Forall (λ row, is_Some (of_row row)) rows.
Proof.
  induction rows as [|row rows IH]; intros st st'; cbn [_load_active]; [done|].
  destruct (of_row row) as [c|] eqn:Hc; [|done]. simpl. intros Hrun.
  constructor; [by eexists | by eapply IH].
Qed.

Lemma omap_Forall2 {A B} (f : A → option B) (l : list A) :
  Forall (λ x, is_Some (f x)) l → Forall2 (λ x y, f x = Some y) l (omap f l).
Proof.
  induction 1 as [|x l [y Hy] _ IH]; simpl; [constructor|].
  rewrite Hy. by constructor.
Qed.

(** The pool built on a store: the objects of the rows with
    [status = active], in the order of the rows. *)
Lemma reload_objects db st :
  NoDup (Connections.ws_id <$> connections db) →
  ConnectionPool json_loads db = Some st →
  _conn st = db ∧ wf st ∧
  Forall2 (λ row c, of_row row = Some c) (sql_select_active db) (pool_objects st) ∧
  Forall (λ c, status c = "active") (pool_objects st).
Proof.
  intros Hnd Hrun. unfold ConnectionPool in Hrun.
  pose proof (load_active_conn _ _ _ Hrun) as Hconn. simpl in Hconn.
  assert (wf st) as Hwf by (eapply wf_load_active; [apply wf_empty | exact Hrun]).
  assert (pool_objects st = omap of_row (sql_select_active db)) as Hobjs.
  { rewrite (load_active_objects (sql_select_active db) (mkState db [] ∅) st
               (wf_empty db ∅)); [done| | |done].
    - unfold sql_select_active. by apply NoDup_fmap_filter.
    - intros row _. apply not_elem_of_nil. }
  assert (Forall2 (λ row c, of_row row = Some c) (sql_select_active db)
            (pool_objects st)) as Hrows.
  { rewrite Hobjs. apply omap_Forall2. by eapply load_active_rows. }
  split_and!; [done|done|done|].
  apply Forall_forall. intros c Hc.
  destruct (proj1 (list_elem_of_lookup _ _) Hc) as [i Hi].
  destruct (Forall2_lookup_r _ _ _ _ _ Hrows Hi) as (row & Hrow & Hof).
  apply list_elem_of_lookup_2, list_elem_of_filter in Hrow as [Ha _].
  destruct (of_row_Some row c Hof) as (_ & _ & _ & -> & _). done.
Qed.

Lemma Forall2_fmap_eq {A B C} (f : A → C) (g : B → C) (l : list A) (k : list B) :
  Forall2 (λ x y, f x = g y) l k → f <$> l = g <$> k.
Proof.
  induction 1 as [|x y l k Hxy _ IH]; [done|]. rewrite !fmap_cons. congruence.
Qed.

(** The keys of a pool just built are the [ws_id]s of the rows with
    [status = active]. *)
Lemma reload_keys db st :
  NoDup (Connections.ws_id <$> connections db) →
  ConnectionPool json_loads db = Some st →
  dict_keys (_pool st) = Connections.ws_id <$> sql_select_active db.
Proof.
  intros Hnd Hrun.
  destruct (reload_objects db st Hnd Hrun) as (_ & Hwf & Hrows & _).
  rewrite <-pool_objects_keys by done. symmetry.
  apply Forall2_fmap_eq. eapply Forall2_impl; [exact Hrows|].
  intros row c Hof. simpl. by destruct (of_row_Some row c Hof) as (-> & _).
Qed.

Lemma reload_get db st w :
  NoDup (Connections.ws_id <$> connections db) →
  ConnectionPool json_loads db = Some st →
  is_Some (get st w) ↔ connected db w.
Proof.
  intros Hnd Hrun. unfold get, connected.
  rewrite dict_get_is_Some, (reload_keys db st Hnd Hrun), Exists_exists. split.
  - intros (row & -> & [Ha Hr]%list_elem_of_filter)%list_elem_of_fmap. by exists row.
  - intros (row & Hr & <- & Ha). apply list_elem_of_fmap_2.
    by apply list_elem_of_filter.
Qed.

(** Rows that keep their [ws_id] and [metadata] and do not become active
    leave the store one a pool can be built on. *)
#[local] Instance kept_refl : Reflexive kept.
Proof. intros rows. apply Forall_Forall2_diag, Forall_forall. by intros. Qed.

#[local] Instance kept_trans : Transitive kept.
Proof.
  intros l1 l2 l3 H12. revert l3.
  induction H12 as [|x y l1 l2 (Hw & Hm & Hs) _ IH]; intros l3 H23.
  - by apply Forall2_nil_inv_l in H23 as ->.
  - apply Forall2_cons_inv_l in H23 as (z & l3' & (Hw' & Hm' & Hs') & H23 & ->).
    constructor; [|by apply IH].
    split_and!; [congruence | congruence | auto].
Qed.

Lemma kept_where w f (rows : list Connections.row) :
  (∀ row, Connections.ws_id (f row) = Connections.ws_id row) →
  (∀ row, Connections.metadata (f row) = Connections.metadata row) →
  (∀ row, Connections.status (f row) = "active" → Connections.status row = "active") →
  kept rows (where_ws_id w f <$> rows).
Proof.
  intros Hw Hm Hs. apply Forall2_fmap_r, Forall_Forall2_diag, Forall_forall.
  intros row _. unfold where_ws_id, compose.
  destruct (decide (Connections.ws_id row = w)); [|done].
  split_and!; [apply Hw | apply Hm | apply Hs].
Qed.

Lemma loadable_kept db d' :
  kept (connections db) (connections d') → loadable db → loadable d'.
Proof.
  unfold loadable. generalize (connections db), (connections d').
  induction 1 as [|x y l l' (Hw & Hm & Hs) Hrest IH]; [done|].
  rewrite !fmap_cons, !NoDup_cons, !Forall_cons.
  intros [[Hx Hnd] [Hp Hall]]. destruct (IH (conj Hnd Hall)) as [Hnd' Hall'].
  assert (Connections.ws_id <$> l' = Connections.ws_id <$> l) as Hws.
  { apply Forall2_fmap_eq. apply Forall2_flip.
    eapply Forall2_impl; [exact Hrest|]. by intros a b (? & _). }
  split_and!; [by rewrite Hw, Hws | done | | done].
  intros Ha. rewrite Hm. by apply Hp, Hs.
Qed.

Lemma kept_remove st w now :
  kept (connections (_conn st)) (connections (_conn (remove st w now).2)).
Proof.
  unfold remove. destruct (dict_get _ _); [|done]. simpl.
  by apply kept_where.
Qed.

Lemma kept_increment_message_count st w :
  kept (connections (_conn st)) (connections (_conn (increment_message_count st w))).
Proof.
  unfold increment_message_count. destruct (dict_get _ _); [|done]. simpl.
  by apply kept_where.
Qed.

Lemma kept_update_heartbeat st w lat ts now :
  kept (connections (_conn st)) (connections (_conn (update_heartbeat st w lat ts now).2)).
Proof.
  unfold update_heartbeat. destruct (dict_get _ _); [|done].
  unfold sql_insert_heartbeat_log. case_decide; simpl; by apply kept_where.
Qed.

Lemma kept_broadcast_loop body mty sender uuid4 now targets :
  ∀ i st acc,
    kept (connections (_conn st))
         (connections (_conn (broadcast_loop body mty sender uuid4 now i targets st acc).2)).
Proof.
  induction targets as [|r targets IH]; intros i st acc; simpl; [done|].
  destruct (heap st !! r) as [c|]; [|apply IH].
  set (st1 := with_conn _ st).
  etrans; [exact (kept_increment_message_count st1 (ws_id c)) | apply IH].
Qed.

Lemma kept_heartbeat_loop now cutoff sql_now snapshot :
  ∀ i st res,
    kept (connections (_conn st))
         (connections (_conn (heartbeat_loop fromisoformat now cutoff sql_now
                                i snapshot st res).2)).
Proof.
  induction snapshot as [|r snapshot IH]; intros i st res; [done|].
  destruct (heap st !! r) as [c|] eqn:Hc.
  - rewrite (heartbeat_loop_step _ _ _ _ _ _ _ _ _ c) by done.
    repeat case_decide; [done| |apply IH].
    etrans; [apply kept_remove | apply IH].
  - rewrite heartbeat_loop_skip by done. apply IH.
Qed.

Lemma kept_heartbeat_check st now timeout sql_now :
  kept (connections (_conn st))
       (connections (_conn (heartbeat_check fromisoformat st now timeout sql_now).2)).
Proof.
  rewrite heartbeat_check_state. unfold sweep. cbn zeta.
  case_decide; [apply kept_heartbeat_loop | done].
Qed.

Lemma kept_send_message st w m mty sender uuid ts now :
  kept (connections (_conn st))
       (connections (_conn (send_message json_dumps st w m mty sender uuid ts now).2)).
Proof.
  unfold send_message. destruct (get st w); [|done]. simpl.
  set (st1 := with_conn _ st).
  exact (kept_increment_message_count st1 w).
Qed.

Lemma loadable_add_connection st w a meta ts1 ts2 :
  (∀ m, meta = Some m →
        is_Some (json_loads (json_dumps (if truthy m then m else JDict [])))) →
  (meta = None → is_Some (json_loads (json_dumps (JDict [])))) →
  loadable (_conn st) →
  loadable (_conn (add_connection json_dumps st w a meta ts1 ts2).2).
Proof.
  intros Hsome Hnone [Hnd Hparse].
  unfold add_connection. cbn [new_connection].
  erewrite (add_Ok _ _ _ (mkConnection w a _ ts1 ts2 "active" 0 None));
    [|by apply lookup_insert_eq|apply bindable_zero].
  split; simpl.
  - rewrite fmap_app, NoDup_app. split_and!.
    + by apply NoDup_fmap_filter.
    + intros k (row & -> & [Hne _]%list_elem_of_filter)%list_elem_of_fmap.
      simpl. rewrite list_elem_of_singleton. congruence.
    + apply NoDup_singleton.
  - apply Forall_app. split.
    + apply Forall_forall. intros row [_ Hr]%list_elem_of_filter.
      rewrite Forall_forall in Hparse. by apply Hparse.
    + constructor; [|done]. simpl. intros _.
      destruct meta as [m|]; [by apply Hsome | by apply Hnone].
Qed.

Lemma filter_all {A} (P : A → Prop) `{!∀ x, Decision (P x)} (l : list A) :
  Forall P l → filter P l = l.
Proof.
  induction 1 as [|x l Hx _ IH]; [done|].
  rewrite filter_cons_True by done. by rewrite IH.
Qed.

(** What [list] prints: the lines of the objects up to the first whose
    count is a float, where the format raises. *)
Lemma print_connections_ints conns :
  Forall (λ c, message_count c ≠ Float63) conns →
  ∃ lines,
    print_connections conns = (lines, None) ∧
    Forall2 (λ c line,
               ∃ n, message_count c = Int n ∧
                    line = "  " +:+ str_take 16 (ws_id c) +:+ "... agent=" +:+
                           ljust 20 (agent c) +:+ " msgs=" +:+ rjust 5 (pretty n) +:+
                           " hb=" +:+ str_take 19 (last_heartbeat c))
            conns lines.
Proof.
  induction 1 as [|c conns Hc _ (lines & Hrun & Hlines)].
  - by exists [].
  - cbn [print_connections]. unfold connection_line.
    destruct (message_count c) as [n|] eqn:Hn; [|done].
    simpl. rewrite Hrun. eexists. split; [done|].
    constructor; [|done]. by exists n.
Qed.

Lemma print_connections_float conns :
  Exists (λ c, message_count c = Float63) conns →
  (print_connections conns).2 = Some ValueError.
Proof.
  induction 1 as [c conns Hc|c conns _ IH]; cbn [print_connections];
    unfold connection_line.
  - by rewrite Hc.
  - destruct (message_count c); simpl; [|done].
    by destruct (print_connections conns).
Qed.

Lemma print_connections_ending conns e :
  (print_connections conns).2 = Some e →
  e = ValueError ∧ Exists (λ c, message_count c = Float63) conns.
Proof.
  induction conns as [|c conns IH]; cbn [print_connections]; [done|].
  unfold connection_line.
  destruct (message_count c) as [n|] eqn:Hn; simpl.
  - destruct (print_connections conns) as [lines e']. simpl in *.
    intros He. destruct (IH He) as [-> Hex]. split; [done | by right].
  - intros [= <-]. split; [done | by left].
Qed.

(** [list] on a store a pool was built on. *)
Lemma main_list env db st :
  NoDup (Connections.ws_id <$> connections db) →
  ConnectionPool json_loads db = Some st →
  main env CmdList db =
    mkOutcome (match (print_connections (pool_objects st)).2 with
               | None => Ok 0
               | Some e => Raise e
               end)
              (match pool_objects st with
               | [] => ["No active connections."]
               | _ => []
               end ++ (print_connections (pool_objects st)).1) [] db.
Proof.
  intros Hnd Hst.
  destruct (reload_objects db st Hnd Hst) as (Hconn & Hwf & _ & Hact).
  unfold main. rewrite Hst.
  unfold get_active_connections. rewrite omap_filter_passes.
  change (omap _ (get_all st)) with (pool_objects st).
  rewrite filter_all.
  - rewrite Hconn. by destruct (print_connections (pool_objects st)).
  - eapply Forall_impl; [exact Hact|]. intros c Hc. simpl. by apply bool_decide_pack.
Qed.

(** The rows with [status = active] and the objects of the pool built on
    them satisfy the same conditions. *)
Lemma reload_Exists db st (P : Connections.row → Prop) (Q : Connection → Prop) :
  NoDup (Connections.ws_id <$> connections db) →
  ConnectionPool json_loads db = Some st →
  (∀ row c, of_row row = Some c → (P row ↔ Q c)) →
  Exists Q (pool_objects st) ↔
  ∃ row, row ∈ connections db ∧ Connections.status row = "active" ∧ P row.
Proof.
  intros Hnd Hst HPQ.
  destruct (reload_objects db st Hnd Hst) as (_ & _ & Hrows & _).
  rewrite Exists_exists. split.
  - intros (c & Hc & HQ).
    destruct (proj1 (list_elem_of_lookup _ _) Hc) as [i Hi].
    destruct (Forall2_lookup_r _ _ _ _ _ Hrows Hi) as (row & Hrow & Hof).
    apply list_elem_of_lookup_2, list_elem_of_filter in Hrow as [Ha Hr].
    exists row. split_and!; [done|done|]. by apply (HPQ row c).
  - intros (row & Hr & Ha & HP).
    assert (row ∈ sql_select_active db) as Hin by by apply list_elem_of_filter.
    destruct (proj1 (list_elem_of_lookup _ _) Hin) as [i Hi].
    destruct (Forall2_lookup_l _ _ _ _ _ Hrows Hi) as (c & Hc & Hof).
    exists c. split; [by eapply list_elem_of_lookup_2|]. by apply (HPQ row c).
Qed.


(** The lines of [list]. *)
Lemma list_lines env db :
  loadable db →
  (∀ row, row ∈ connections db → Connections.status row = "active" →
          Connections.message_count row ≠ Float63) →
  ∃ lines,
    main env CmdList db =
      mkOutcome (Ok 0)
        (match lines with
         | [] => ["No active connections."]
         | _ => lines
         end) [] db ∧
    Forall2 (λ row line,
               ∃ n, Connections.message_count row = Int n ∧
                    line = "  " +:+ str_take 16 (Connections.ws_id row) +:+
                           "... agent=" +:+ ljust 20 (Connections.agent row) +:+
                           " msgs=" +:+ rjust 5 (pretty n) +:+
                           " hb=" +:+ str_take 19 (Connections.last_heartbeat row))
            (filter (λ row, Connections.status row = "active") (connections db))
            lines.
Proof.
  intros Hl Hints. destruct (loadable_ConnectionPool db Hl) as [st Hst].
  destruct (reload_objects db st (proj1 Hl) Hst) as (_ & _ & Hrows & _).
  destruct (print_connections_ints (pool_objects st)) as (lines & Hrun & Hlines).
  { apply Forall_forall. intros c Hc Hf.
    destruct (proj1 (list_elem_of_lookup _ _) Hc) as [i Hi].
    destruct (Forall2_lookup_r _ _ _ _ _ Hrows Hi) as (row & Hrow & Hof).
    apply list_elem_of_lookup_2, list_elem_of_filter in Hrow as [Ha Hr].
    apply (Hints row Hr Ha).
    destruct (of_row_Some row c Hof) as (_ & _ & _ & _ & <-). done. }
  exists lines. split.
  - rewrite (main_list env db st (proj1 Hl) Hst), Hrun. simpl.
    destruct Hlines; [done|]. done.
  - unfold sql_select_active in Hrows.
    clear -Hrows Hlines. revert lines Hlines.
    induction Hrows as [|row c rows conns Hof _ IH]; intros lines Hlines.
    + apply Forall2_nil_inv_l in Hlines as ->. constructor.
    + apply Forall2_cons_inv_l in Hlines as (line & lines' & (n & Hn & ->) & Hrest & ->).
      constructor; [|by apply IH].
      destruct (of_row_Some row c Hof) as (<- & <- & <- & _ & <-). by exists n.
Qed.

(** X19.  On a store a pool can be built on, whose rows with
    [status = active] hold [int] counts, [list] prints one line for each
    such row, in the order of the rows: the first 16 characters of its
    [ws_id], its agent padded to 20 characters, its count in a field of
    5, and the first 19 characters of its heartbeat; or the one line
    [No active connections.] when there is none.  It exits with status 0
    and leaves the store as it is. *)
Theorem list_prints_active_rows env db :
  loadable db →
  (∀ row, row ∈ connections db → Connections.status row = "active" →
          Connections.message_count row ≠ Float63) →
  ∃ lines,
    main env CmdList db =
      mkOutcome (Ok 0)
        (match lines with
         | [] => ["No active connections."]
         | _ => lines
         end) [] db ∧
    Forall2 (λ row line,
               ∃ n, Connections.message_count row = Int n ∧
                    line = "  " +:+ str_take 16 (Connections.ws_id row) +:+
                           "... agent=" +:+ ljust 20 (Connections.agent row) +:+
                           " msgs=" +:+ rjust 5 (pretty n) +:+
                           " hb=" +:+ str_take 19 (Connections.last_heartbeat row))
            (filter (λ row, Connections.status row = "active") (connections db))
            lines.
Proof. apply list_lines. Qed.


(** One command on a store a pool can be built on. *)
Lemma main_step env args db :
  loadable db → keeps json_dumps json_loads args →
  loadable (store (main env args db)) ∧
  (ending (main env args db) = Raise JSONDecodeError →
   ∃ a ws text, args = CmdConnect a ws text ∧ json_loads text = None) ∧
  (exit_status (main env args db) = 0 ∨ exit_status (main env args db) = 1).
Proof.
  intros Hl Hk. destruct (loadable_ConnectionPool db Hl) as [st Hst].
  destruct (reload_objects db st (proj1 Hl) Hst) as (Hconn & _).
  assert (loadable (_conn st)) as Hl' by by rewrite Hconn.
  unfold main, exit_status. rewrite Hst.
  destruct args as [a ws text|w| |message a mty|w message|w lat|timeout|ws limit|].
  - simpl in Hk. destruct (json_loads text) as [m|] eqn:Hm.
    + match goal with
      | |- context [add_connection _ _ ?w0 _ _ ?t1 ?t2] =>
          pose proof (add_connection_Ok json_dumps st w0 a (Some m) t1 t2) as HOk;
          pose proof (loadable_add_connection st w0 a (Some m) t1 t2) as Hadd;
          destruct (add_connection json_dumps st w0 a (Some m) t1 t2) as [res st']
      end.
      simpl in HOk, Hadd. rewrite HOk. simpl. split_and!; [|done|by left].
      apply Hadd; [|done|done]. intros m' [= <-]. by rewrite Hk.
    + simpl. split_and!; [done| |by right]. intros _. by exists a, ws, text.
  - pose proof (kept_remove st w (env_sql_now env 0)) as Hkept.
    unfold remove_connection.
    destruct (remove st w (env_sql_now env 0)) as [[] st']; simpl in *;
      (split_and!; [by eapply loadable_kept | done | auto]).
  - destruct (print_connections _) as [lines [e|]] eqn:Hp; simpl.
    + assert ((print_connections
                 (omap (λ r, heap st !! r) (get_active_connections st))).2 = Some e)
        as He by by rewrite Hp.
      apply print_connections_ending in He as [-> _].
      split_and!; [done | done | by right].
    + split_and!; [done | done | by left].
  - match goal with
    | |- context [broadcast _ _ ?m ?f ?t ?sd ?u ?n] =>
        pose proof (kept_broadcast_loop (content_str json_dumps m) t sd u n
                      match f with
                      | Some f0 => filter (λ r, passes st f0 r) (get_all st)
                      | None => get_all st
                      end 0 st []) as Hkept;
        change (broadcast_loop _ _ _ _ _ _ _ _ _)
          with (broadcast json_dumps st m f t sd u n) in Hkept;
        destruct (broadcast json_dumps st m f t sd u n) as [delivered st']
    end.
    simpl in *. split_and!; [by eapply loadable_kept | done | by left].
  - pose proof (kept_send_message st w (JStr message) "data" None
                  (env_uuid4 env 0) (env_isoformat env 0) (env_sql_now env 0)) as Hkept.
    destruct (send_message _ _ _ _ _ _ _ _ _) as [[msg|] st']; simpl in *;
      (split_and!; [by eapply loadable_kept | done | auto]).
  - pose proof (kept_update_heartbeat st w lat (env_isoformat env 0)
                  (env_sql_now env 0)) as Hkept.
    destruct (get st w) as [r|] eqn:Hw.
    + rewrite (update_heartbeat_present _ _ _ _ _ _ Hw) in *.
      case_decide; simpl in *.
      * split_and!; [by eapply loadable_kept | done | by left].
      * split_and!; [done | done | by right].
    + rewrite update_heartbeat_absent by done. simpl.
      split_and!; [done | done | by right].
  - pose proof (kept_heartbeat_check st (env_utcnow env) timeout (env_sql_now env))
      as Hkept.
    pose proof (heartbeat_check_result fromisoformat st (env_utcnow env) timeout
                  (env_sql_now env)) as Hres.
    destruct (heartbeat_check fromisoformat st (env_utcnow env) timeout
                (env_sql_now env)) as [[res|e] st']; simpl in *.
    + split_and!; [by eapply loadable_kept | done | by left].
    + split_and!; [by eapply loadable_kept | | by right].
      intros [= ->]. repeat case_decide; done.
  - destruct (get_message_history (_conn st) ws limit) as [rows|e] eqn:Hq; simpl.
    + split_and!; [done | done | by left].
    + split_and!; [done | | by right]. intros [= ->].
      revert Hq. unfold get_message_history, sql_limit.
      destruct ws as [ws|]; [case_decide|]; by case_decide.
  - simpl. split_and!; [done | done | by left].
Qed.



End commands.

(** ** Worked examples of the further properties *)


Lemma broadcast_is_send_each_witness :
  wf trio ∧
  (broadcast plain_dumps trio (JStr "hello") (Some is_alice) "broadcast" None
     uuids at_noon).2
  = send_each plain_dumps (JStr "hello") "broadcast" None uuids uuids at_noon 0
      (broadcast plain_dumps trio (JStr "hello") (Some is_alice) "broadcast" None
         uuids at_noon).1 trio.
Proof.
  split; [evaluate|].
  apply (broadcast_is_send_each plain_dumps trio (JStr "hello") (Some is_alice)
           "broadcast" None uuids uuids at_noon).
  evaluate.
Defined.

Lemma heartbeat_then_sweep_witness :
  wf trio ∧ get trio "a1" = Some 0%nat ∧
  iso_parse "2024-01-01T11:59:50" = Some (Naive 63839707190000000) ∧
  ¬ (63839707190000000 < noon - 30 * 1000000) ∧
  ∃ res,
    (heartbeat_check iso_parse
       (update_heartbeat trio "a1" (Some 12) "2024-01-01T11:59:50"
          "2024-01-01 11:59:50").2
       noon 30 at_noon).1 = Ok res ∧
    "a1" ∈ active res.
Proof.
  split_and!; [evaluate | reflexivity | vm_compute; reflexivity | evaluate |].
  destruct (heartbeat_then_sweep iso_parse trio "a1" 0%nat (Some 12)
              "2024-01-01T11:59:50" "2024-01-01 11:59:50" 63839707190000000
              noon 30 at_noon) as (res & Hrun & Hact & _).
  - evaluate.
  - reflexivity.
  - vm_compute. reflexivity.
  - evaluate.
  - evaluate.
  - apply aware_free. evaluate.
  - by exists res.
Defined.

Lemma heartbeat_check_partition_witness :
  wf stale_pool ∧
  ∃ res st',
    heartbeat_check iso_parse stale_pool noon 30 at_noon = (Ok res, st') ∧
    dict_keys (_pool st') = active res ∧
    heartbeat_check iso_parse st' noon 30 at_noon = (Ok (mkSweep (active res) []), st').
Proof.
  split; [evaluate|].
  destruct (heartbeat_check_partition iso_parse stale_pool noon 30 at_noon)
    as (res & st' & Hrun & _ & _ & Hkeys & Hagain).
  - evaluate.
  - evaluate.
  - apply aware_free. evaluate.
  - exists res, st'. split_and!; [done | done | apply Hagain].
Defined.

Lemma heartbeat_check_timeout_monotone_witness :
  30 ≤ 60 ∧ noon - 30 * 1000000 ≤ max_datetime ∧
  (heartbeat_check iso_parse stale_pool noon 60 at_noon).1
    = Ok (mkSweep [] ["ws-stale"]) ∧
  ∃ res1,
    (heartbeat_check iso_parse stale_pool noon 30 at_noon).1 = Ok res1 ∧
    "ws-stale" ∈ timed_out res1.
Proof.
  split_and!; [lia | evaluate | vm_compute; reflexivity |].
  apply (heartbeat_check_timeout_monotone iso_parse stale_pool noon 30 60
           at_noon at_noon "ws-stale" (mkSweep [] ["ws-stale"])).
  - lia.
  - evaluate.
  - vm_compute. reflexivity.
  - apply list_elem_of_here.
Defined.

Lemma removed_is_out_of_reach_witness :
  wf trio ∧ get (remove trio "a1" "2024-01-01 12:00:00").2 "a1" = None.
Proof.
  split; [evaluate|].
  pose proof (removed_is_out_of_reach plain_dumps iso_parse trio "a1"
                "2024-01-01 12:00:00") as H.
  cbv zeta in H. apply H. evaluate.
Defined.

Lemma history_kept_by_other_calls_witness :
  ¬ messaging (Remove "b1" "2024-01-01 12:00:05") ∧
  get_message_history
    (_conn (run_op plain_dumps iso_parse chat (Remove "b1" "2024-01-01 12:00:05")))
    (Some "b1") 10
  = get_message_history (_conn chat) (Some "b1") 10.
Proof.
  split; [by intros ?|].
  apply (history_kept_by_other_calls plain_dumps iso_parse chat
           (Remove "b1" "2024-01-01 12:00:05")).
  by intros ?.
Defined.

Lemma objects_only_grow_witness :
  heap trio !! 2%nat = Some b1_object ∧
  ∃ c', heap (run plain_dumps iso_parse trio visits) !! 2%nat = Some c' ∧
        grown b1_object c'.
Proof.
  split; [vm_compute; reflexivity|].
  apply (objects_only_grow plain_dumps iso_parse visits trio 2%nat b1_object).
  vm_compute. reflexivity.
Defined.


Lemma add_connection_registers_witness :
  wf trio ∧
  ∃ st' rid,
    (add_connection plain_dumps trio "a1" "carol" (Some (JInt 0))
       "2024-01-01T12:00:00.000001" "2024-01-01T12:00:00.000002").2 = st' ∧
    lookup_conn st' "a1" =
      Some (mkConnection "a1" "carol" (JDict []) "2024-01-01T12:00:00.000001"
              "2024-01-01T12:00:00.000002" "active" 0 (Some rid)).
Proof.
  split; [evaluate|].
  destruct (add_connection_registers plain_dumps trio "a1" "carol" (Some (JInt 0))
              "2024-01-01T12:00:00.000001" "2024-01-01T12:00:00.000002")
    as (st' & rid & m & Hrun & _ & Hm & _ & _ & Hl & _).
  - evaluate.
  - exists st', rid. rewrite Hrun. split; [done|].
    rewrite Hl. by rewrite (Hm (JInt 0) eq_refl).
Defined.

Lemma count_tracks_pool_witness :
  wf trio ∧ count (remove_connection trio "a1" "2024-01-01 12:00:00").2 = 2.
Proof.
  split; [evaluate|].
  destruct (count_tracks_pool plain_dumps trio "a1") as [_ Hrem]; [evaluate|].
  rewrite Hrem. vm_compute. reflexivity.
Defined.

Lemma connect_then_disconnect_witness :
  get fresh_pool "ws-1" = None ∧
  ∃ st' row,
    remove_connection
      (add_connection plain_dumps fresh_pool "ws-1" "alice" None
         "2024-01-01T00:00:00.000001" "2024-01-01T00:00:00.000002").2
      "ws-1" "2024-01-01 00:01:00" = (true, st') ∧
    _pool st' = [] ∧ connections (_conn st') = [row] ∧
    Connections.status row = "disconnected".
Proof.
  split; [reflexivity|].
  destruct (connect_then_disconnect plain_dumps fresh_pool "ws-1" "alice" None
              "2024-01-01T00:00:00.000001" "2024-01-01T00:00:00.000002"
              "2024-01-01 00:01:00")
    as (st' & row & Hrun & Hpool & Hrows & _ & _ & _ & Hstatus & _).
  - reflexivity.
  - by exists st', row.
Defined.

Lemma stats_agents_add_up_witness :
  wf trio ∧ total (agents (connection_stats trio)) = 3.
Proof.
  split; [evaluate|].
  destruct (stats_agents_add_up trio) as [Htotal _]; [evaluate|].
  rewrite Htotal. vm_compute. reflexivity.
Defined.

Lemma send_message_history_witness :
  get trio "b1" = Some 2%nat ∧
  ∃ st' row,
    (send_message plain_dumps trio "b1" (JStr "hello") "data" (Some "a1")
       "0b5e7c1e-6f0a-4a53-9d55-0d1d0c1f7a11" "2024-01-01T12:00:00.000001"
       "2024-01-01 12:00:00").2 = st' ∧
    (∃ h, get_message_history (_conn st') (Some "b1") (-1) = Ok h ∧ row ∈ h) ∧
    (∃ h, get_message_history (_conn st') (Some "a1") (-1) = Ok h ∧ row ∈ h) ∧
    get_message_history (_conn st') (Some "a2") 10
    = get_message_history (_conn trio) (Some "a2") 10.
Proof.
  split; [reflexivity|].
  destruct (send_message_history plain_dumps trio "b1" 2%nat (JStr "hello") "data"
              (Some "a1") "0b5e7c1e-6f0a-4a53-9d55-0d1d0c1f7a11"
              "2024-01-01T12:00:00.000001" "2024-01-01 12:00:00")
    as (st' & row & Hrun & _ & _ & _ & Hin & Hout).
  - reflexivity.
  - exists st', row. split_and!; [done | | |].
    + apply Hin; [done | by left | lia | left; lia].
    + apply Hin; [done | by right | lia | left; lia].
    + by apply Hout.
Defined.

Lemma wf_ConnectionPool_witness :
  ConnectionPool plain_loads empty_db = Some fresh_pool ∧
  wf (run plain_dumps iso_parse fresh_pool visits).
Proof.
  split; [vm_compute; reflexivity|].
  apply (wf_ConnectionPool plain_dumps plain_loads iso_parse empty_db fresh_pool visits).
  vm_compute. reflexivity.
Defined.


Lemma list_prints_active_rows_witness :
  loadable plain_loads bistro_db ∧
  main plain_dumps plain_loads iso_parse plain_stats env0 CmdList bistro_db
  = mkOutcome (Ok 0)
      ["  café-crème-brûlé... agent=zoë                  msgs=    1 hb=2024-01-01T11:59:51"]
      [] bistro_db.
Proof.
  split; [evaluate|].
  destruct (list_prints_active_rows plain_dumps plain_loads iso_parse plain_stats env0
              bistro_db) as (lines & Hrun & Hlines).
  - evaluate.
  - intros row Hr _. revert Hr. vm_compute. intros Hr.
    apply list_elem_of_singleton in Hr. by subst row.
  - rewrite Hrun.
    assert (filter (λ row, Connections.status row = "active") (connections bistro_db)
            = [Connections.mk 1 "café-crème-brûlée-0001" "zoë" "{}"
                 "2024-01-01T11:59:50.000001" "2024-01-01T11:59:51.000001"
                 "active" (Int 1) None]) as Hrows by (vm_compute; reflexivity).
    rewrite Hrows in Hlines.
    apply Forall2_cons_inv_l in Hlines
      as (line & rest & (n & Hn & Hline) & Hnil%Forall2_nil_inv_l & ->).
    subst rest. simpl in Hn. injection Hn as <-. subst line.
    vm_compute. reflexivity.
Defined.




(** The texts a run of the commands of [evening] prints, and the exit
    status of each. *)
Example evening_transcript :
  (λ r : list Outcome * DB,
     (exit_status <$> r.1, stdout <$> r.1, stderr <$> r.1))
    (session plain_dumps plain_loads iso_parse plain_stats (replicate 6 env0)
       evening empty_db)
  = ([0; 0; 0; 0; 1; 0],
     [["Connected: ws-1 (agent=alice)"];
      ["Sent message uuid-0 to ws-1"];
      ["  ws-1... agent=alice                msgs=    1 hb=2024-01-01T11:59:51"];
      ["Disconnected: ws-1"];
      [];
      ["{" +:+ newline +:+
       "  " +:+ quoted "active_connections" +:+ ": 0," +:+ newline +:+
       "  " +:+ quoted "total_ever_connected" +:+ ": 1," +:+ newline +:+
       "  " +:+ quoted "total_messages" +:+ ": 1," +:+ newline +:+
       "  " +:+ quoted "agents" +:+ ": {}" +:+ newline +:+ "}"]],
     [[]; []; []; []; ["Connection not found"]; []]).
Proof. vm_compute. reflexivity. Qed.
